(** * Command dispatch of the KakaoTalk bridge

    A shallow embedding of the slash-command handler
    ([command-handler]: [parseCommand], [handleCommand],
    [extractDirectives]), of the chat bridge ([askClawdbot]) and of the
    two delivery paths of the webhook server, followed by the properties
    the specification states about them.

    JavaScript strings are sequences of UTF-16 code units; they are
    modelled as [list N].  The collaborators that are not part of the
    command layer (process execution, session store, HTTP) are fields of
    a [World] record. *)

From Stdlib Require Import NArith Ascii String.
From stdpp Require Import base list gmap.

Local Open Scope N_scope.

(** ** JavaScript strings *)

Module JS.

Definition jsstring : Type := list N.

(** *** Literals

    The source file is UTF-8; a TypeScript literal denotes the UTF-16
    encoding of the code points it spells.  [lit] does the same for a
    literal of this file. *)

Fixpoint utf8_decode (bs : list N) : list N :=
  match bs with
  | [] => []
  | b :: rest =>
      if b <? 128 then b :: utf8_decode rest
      else if b <? 224 then
        match rest with
        | b1 :: rest1 =>
            (N.land b 31 * 64 + N.land b1 63) :: utf8_decode rest1
        | _ => []
        end
      else if b <? 240 then
        match rest with
        | b1 :: b2 :: rest2 =>
            (N.land b 15 * 4096 + N.land b1 63 * 64 + N.land b2 63)
              :: utf8_decode rest2
        | _ => []
        end
      else
        match rest with
        | b1 :: b2 :: b3 :: rest3 =>
            (N.land b 7 * 262144 + N.land b1 63 * 4096
             + N.land b2 63 * 64 + N.land b3 63)
              :: utf8_decode rest3
        | _ => []
        end
  end.

Definition utf16_units (cp : N) : list N :=
  if cp <? 65536 then [cp]
  else [55296 + N.shiftr (cp - 65536) 10; 56320 + N.land (cp - 65536) 1023].

Definition lit (s : string) : jsstring :=
  flat_map utf16_units
    (utf8_decode (map N_of_ascii (list_ascii_of_string s))).

(** The double quote, which a literal of this file cannot hold. *)
Definition dquote : jsstring := [34].

(** *** Character classes of ECMAScript *)

(** [WhiteSpace] and [LineTerminator]: what [\s] matches and what
    [trim] removes. *)
Definition isSpace (c : N) : bool :=
  (c =? 9) || (c =? 10) || (c =? 11) || (c =? 12) || (c =? 13)
  || (c =? 32) || (c =? 160) || (c =? 5760)
  || ((8192 <=? c) && (c <=? 8202))
  || (c =? 8232) || (c =? 8233) || (c =? 8239) || (c =? 8287)
  || (c =? 12288) || (c =? 65279).

(** [LineTerminator]: what [.] does not match. *)
Definition isLineTerminator (c : N) : bool :=
  (c =? 10) || (c =? 13) || (c =? 8232) || (c =? 8233).

Definition isDigit (c : N) : bool := (48 <=? c) && (c <=? 57).
Definition isUpper (c : N) : bool := (65 <=? c) && (c <=? 90).
Definition isLower (c : N) : bool := (97 <=? c) && (c <=? 122).

(** [\w] without the [u] flag: [[A-Za-z0-9_]]. *)
Definition isWord (c : N) : bool :=
  isUpper c || isLower c || isDigit c || (c =? 95).

(** *** String.prototype methods *)

Fixpoint dropWhile {A} (p : A -> bool) (l : list A) : list A :=
  match l with
  | [] => []
  | x :: l' => if p x then dropWhile p l' else l
  end.

Fixpoint takeWhile {A} (p : A -> bool) (l : list A) : list A :=
  match l with
  | [] => []
  | x :: l' => if p x then x :: takeWhile p l' else []
  end.

Definition trimStart (s : jsstring) : jsstring := dropWhile isSpace s.
Definition trimEnd (s : jsstring) : jsstring :=
  rev (dropWhile isSpace (rev s)).
Definition trim (s : jsstring) : jsstring := trimEnd (trimStart s).

(** [toLowerCase]: the default case conversion of Unicode, on the code
    points of the string.  A code point has the lower-case form of
    UnicodeData (version 14.0; a code point assigned later is left as it
    is), with the two rules of SpecialCasing that hold in every
    language: U+0130 becomes [i] followed by U+0307, and the capital
    sigma becomes the final small sigma where it ends a word.  A
    surrogate that is not part of a pair is a code point of its own and
    is left as it is. *)
Definition KELVIN : N := 8490.

Definition asciiLower (c : N) : N := if isUpper c then c + 32 else c.

(** The lower-case forms outside ASCII, in runs [(lo, hi, stride, to)]:
    every [stride]-th code point from [lo] to [hi] has a lower-case
    form, and that of [lo] is [to]; the forms keep the distances. *)
Definition lowerRuns : list (N * N * N * N) :=
  [
    (192, 214, 1, 224); (216, 222, 1, 248); (256, 302, 2, 257);
    (306, 310, 2, 307); (313, 327, 2, 314); (330, 374, 2, 331);
    (376, 376, 1, 255); (377, 381, 2, 378); (385, 385, 1, 595);
    (386, 388, 2, 387); (390, 390, 1, 596); (391, 391, 1, 392);
    (393, 394, 1, 598); (395, 395, 1, 396); (398, 398, 1, 477);
    (399, 399, 1, 601); (400, 400, 1, 603); (401, 401, 1, 402);
    (403, 403, 1, 608); (404, 404, 1, 611); (406, 406, 1, 617);
    (407, 407, 1, 616); (408, 408, 1, 409); (412, 412, 1, 623);
    (413, 413, 1, 626); (415, 415, 1, 629); (416, 420, 2, 417);
    (422, 422, 1, 640); (423, 423, 1, 424); (425, 425, 1, 643);
    (428, 428, 1, 429); (430, 430, 1, 648); (431, 431, 1, 432);
    (433, 434, 1, 650); (435, 437, 2, 436); (439, 439, 1, 658);
    (440, 440, 1, 441); (444, 444, 1, 445); (452, 452, 1, 454);
    (453, 453, 1, 454); (455, 455, 1, 457); (456, 456, 1, 457);
    (458, 458, 1, 460); (459, 475, 2, 460); (478, 494, 2, 479);
    (497, 497, 1, 499); (498, 500, 2, 499); (502, 502, 1, 405);
    (503, 503, 1, 447); (504, 542, 2, 505); (544, 544, 1, 414);
    (546, 562, 2, 547); (570, 570, 1, 11365); (571, 571, 1, 572);
    (573, 573, 1, 410); (574, 574, 1, 11366); (577, 577, 1, 578);
    (579, 579, 1, 384); (580, 580, 1, 649); (581, 581, 1, 652);
    (582, 590, 2, 583); (880, 882, 2, 881); (886, 886, 1, 887);
    (895, 895, 1, 1011); (902, 902, 1, 940); (904, 906, 1, 941);
    (908, 908, 1, 972); (910, 911, 1, 973); (913, 929, 1, 945);
    (932, 939, 1, 964); (975, 975, 1, 983); (984, 1006, 2, 985);
    (1012, 1012, 1, 952); (1015, 1015, 1, 1016); (1017, 1017, 1, 1010);
    (1018, 1018, 1, 1019); (1021, 1023, 1, 891); (1024, 1039, 1, 1104);
    (1040, 1071, 1, 1072); (1120, 1152, 2, 1121); (1162, 1214, 2, 1163);
    (1216, 1216, 1, 1231); (1217, 1229, 2, 1218); (1232, 1326, 2, 1233);
    (1329, 1366, 1, 1377); (4256, 4293, 1, 11520); (4295, 4295, 1, 11559);
    (4301, 4301, 1, 11565); (5024, 5103, 1, 43888); (5104, 5109, 1, 5112);
    (7312, 7354, 1, 4304); (7357, 7359, 1, 4349); (7680, 7828, 2, 7681);
    (7838, 7838, 1, 223); (7840, 7934, 2, 7841); (7944, 7951, 1, 7936);
    (7960, 7965, 1, 7952); (7976, 7983, 1, 7968); (7992, 7999, 1, 7984);
    (8008, 8013, 1, 8000); (8025, 8031, 2, 8017); (8040, 8047, 1, 8032);
    (8072, 8079, 1, 8064); (8088, 8095, 1, 8080); (8104, 8111, 1, 8096);
    (8120, 8121, 1, 8112); (8122, 8123, 1, 8048); (8124, 8124, 1, 8115);
    (8136, 8139, 1, 8050); (8140, 8140, 1, 8131); (8152, 8153, 1, 8144);
    (8154, 8155, 1, 8054); (8168, 8169, 1, 8160); (8170, 8171, 1, 8058);
    (8172, 8172, 1, 8165); (8184, 8185, 1, 8056); (8186, 8187, 1, 8060);
    (8188, 8188, 1, 8179); (8486, 8486, 1, 969); (8490, 8490, 1, 107);
    (8491, 8491, 1, 229); (8498, 8498, 1, 8526); (8544, 8559, 1, 8560);
    (8579, 8579, 1, 8580); (9398, 9423, 1, 9424); (11264, 11311, 1, 11312);
    (11360, 11360, 1, 11361); (11362, 11362, 1, 619); (11363, 11363, 1, 7549);
    (11364, 11364, 1, 637); (11367, 11371, 2, 11368); (11373, 11373, 1, 593);
    (11374, 11374, 1, 625); (11375, 11375, 1, 592); (11376, 11376, 1, 594);
    (11378, 11378, 1, 11379); (11381, 11381, 1, 11382);
    (11390, 11391, 1, 575); (11392, 11490, 2, 11393);
    (11499, 11501, 2, 11500); (11506, 11506, 1, 11507);
    (42560, 42604, 2, 42561); (42624, 42650, 2, 42625);
    (42786, 42798, 2, 42787); (42802, 42862, 2, 42803);
    (42873, 42875, 2, 42874); (42877, 42877, 1, 7545);
    (42878, 42886, 2, 42879); (42891, 42891, 1, 42892);
    (42893, 42893, 1, 613); (42896, 42898, 2, 42897);
    (42902, 42920, 2, 42903); (42922, 42922, 1, 614); (42923, 42923, 1, 604);
    (42924, 42924, 1, 609); (42925, 42925, 1, 620); (42926, 42926, 1, 618);
    (42928, 42928, 1, 670); (42929, 42929, 1, 647); (42930, 42930, 1, 669);
    (42931, 42931, 1, 43859); (42932, 42946, 2, 42933);
    (42948, 42948, 1, 42900); (42949, 42949, 1, 642); (42950, 42950, 1, 7566);
    (42951, 42953, 2, 42952); (42960, 42960, 1, 42961);
    (42966, 42968, 2, 42967); (42997, 42997, 1, 42998);
    (65313, 65338, 1, 65345); (66560, 66599, 1, 66600);
    (66736, 66771, 1, 66776); (66928, 66938, 1, 66967);
    (66940, 66954, 1, 66979); (66956, 66962, 1, 66995);
    (66964, 66965, 1, 67003); (68736, 68786, 1, 68800);
    (71840, 71871, 1, 71872); (93760, 93791, 1, 93792);
    (125184, 125217, 1, 125218)
  ].

Definition inRun (cp : N) (r : N * N * N * N) : bool :=
  let '(lo, hi, stride, _) := r in
  (lo <=? cp) && (cp <=? hi) && ((cp - lo) mod stride =? 0).

Definition simpleLower (cp : N) : N :=
  if cp <? 128 then asciiLower cp
  else match find (inRun cp) lowerRuns with
       | Some (lo, _, _, to) => to + (cp - lo)
       | None => cp
       end.

Definition lowerPoint (cp : N) : list N :=
  if cp =? 304 then [105; 775] else [simpleLower cp].

(** The ranges of the code points that are case-ignorable, and of those
    that are cased and not case-ignorable. *)
Definition caseIgnorableRanges : list (N * N) :=
  [
    (39, 39); (46, 46); (58, 58); (94, 94); (96, 96); (168, 168); (173, 173);
    (175, 175); (180, 180); (183, 184); (688, 879); (884, 885); (890, 890);
    (900, 901); (903, 903); (1155, 1161); (1369, 1369); (1375, 1375);
    (1425, 1469); (1471, 1471); (1473, 1474); (1476, 1477); (1479, 1479);
    (1524, 1524); (1536, 1541); (1552, 1562); (1564, 1564); (1600, 1600);
    (1611, 1631); (1648, 1648); (1750, 1757); (1759, 1768); (1770, 1773);
    (1807, 1807); (1809, 1809); (1840, 1866); (1958, 1968); (2027, 2037);
    (2042, 2042); (2045, 2045); (2070, 2093); (2137, 2139); (2184, 2184);
    (2192, 2193); (2200, 2207); (2249, 2306); (2362, 2362); (2364, 2364);
    (2369, 2376); (2381, 2381); (2385, 2391); (2402, 2403); (2417, 2417);
    (2433, 2433); (2492, 2492); (2497, 2500); (2509, 2509); (2530, 2531);
    (2558, 2558); (2561, 2562); (2620, 2620); (2625, 2626); (2631, 2632);
    (2635, 2637); (2641, 2641); (2672, 2673); (2677, 2677); (2689, 2690);
    (2748, 2748); (2753, 2757); (2759, 2760); (2765, 2765); (2786, 2787);
    (2810, 2815); (2817, 2817); (2876, 2876); (2879, 2879); (2881, 2884);
    (2893, 2893); (2901, 2902); (2914, 2915); (2946, 2946); (3008, 3008);
    (3021, 3021); (3072, 3072); (3076, 3076); (3132, 3132); (3134, 3136);
    (3142, 3144); (3146, 3149); (3157, 3158); (3170, 3171); (3201, 3201);
    (3260, 3260); (3263, 3263); (3270, 3270); (3276, 3277); (3298, 3299);
    (3328, 3329); (3387, 3388); (3393, 3396); (3405, 3405); (3426, 3427);
    (3457, 3457); (3530, 3530); (3538, 3540); (3542, 3542); (3633, 3633);
    (3636, 3642); (3654, 3662); (3761, 3761); (3764, 3772); (3782, 3782);
    (3784, 3789); (3864, 3865); (3893, 3893); (3895, 3895); (3897, 3897);
    (3953, 3966); (3968, 3972); (3974, 3975); (3981, 3991); (3993, 4028);
    (4038, 4038); (4141, 4144); (4146, 4151); (4153, 4154); (4157, 4158);
    (4184, 4185); (4190, 4192); (4209, 4212); (4226, 4226); (4229, 4230);
    (4237, 4237); (4253, 4253); (4348, 4348); (4957, 4959); (5906, 5908);
    (5938, 5939); (5970, 5971); (6002, 6003); (6068, 6069); (6071, 6077);
    (6086, 6086); (6089, 6099); (6103, 6103); (6109, 6109); (6155, 6159);
    (6211, 6211); (6277, 6278); (6313, 6313); (6432, 6434); (6439, 6440);
    (6450, 6450); (6457, 6459); (6679, 6680); (6683, 6683); (6742, 6742);
    (6744, 6750); (6752, 6752); (6754, 6754); (6757, 6764); (6771, 6780);
    (6783, 6783); (6823, 6823); (6832, 6862); (6912, 6915); (6964, 6964);
    (6966, 6970); (6972, 6972); (6978, 6978); (7019, 7027); (7040, 7041);
    (7074, 7077); (7080, 7081); (7083, 7085); (7142, 7142); (7144, 7145);
    (7149, 7149); (7151, 7153); (7212, 7219); (7222, 7223); (7288, 7293);
    (7376, 7378); (7380, 7392); (7394, 7400); (7405, 7405); (7412, 7412);
    (7416, 7417); (7468, 7530); (7544, 7544); (7579, 7679); (8125, 8125);
    (8127, 8129); (8141, 8143); (8157, 8159); (8173, 8175); (8189, 8190);
    (8203, 8207); (8216, 8217); (8228, 8228); (8231, 8231); (8234, 8238);
    (8288, 8292); (8294, 8303); (8305, 8305); (8319, 8319); (8336, 8348);
    (8400, 8432); (11388, 11389); (11503, 11505); (11631, 11631);
    (11647, 11647); (11744, 11775); (11823, 11823); (12293, 12293);
    (12330, 12333); (12337, 12341); (12347, 12347); (12441, 12446);
    (12540, 12542); (40981, 40981); (42232, 42237); (42508, 42508);
    (42607, 42610); (42612, 42621); (42623, 42623); (42652, 42655);
    (42736, 42737); (42752, 42785); (42864, 42864); (42888, 42890);
    (42994, 42996); (43000, 43001); (43010, 43010); (43014, 43014);
    (43019, 43019); (43045, 43046); (43052, 43052); (43204, 43205);
    (43232, 43249); (43263, 43263); (43302, 43309); (43335, 43345);
    (43392, 43394); (43443, 43443); (43446, 43449); (43452, 43453);
    (43471, 43471); (43493, 43494); (43561, 43566); (43569, 43570);
    (43573, 43574); (43587, 43587); (43596, 43596); (43632, 43632);
    (43644, 43644); (43696, 43696); (43698, 43700); (43703, 43704);
    (43710, 43711); (43713, 43713); (43741, 43741); (43756, 43757);
    (43763, 43764); (43766, 43766); (43867, 43871); (43881, 43883);
    (44005, 44005); (44008, 44008); (44013, 44013); (64286, 64286);
    (64434, 64450); (65024, 65039); (65043, 65043); (65056, 65071);
    (65106, 65106); (65109, 65109); (65279, 65279); (65287, 65287);
    (65294, 65294); (65306, 65306); (65342, 65342); (65344, 65344);
    (65392, 65392); (65438, 65439); (65507, 65507); (65529, 65531);
    (66045, 66045); (66272, 66272); (66422, 66426); (67456, 67461);
    (67463, 67504); (67506, 67514); (68097, 68099); (68101, 68102);
    (68108, 68111); (68152, 68154); (68159, 68159); (68325, 68326);
    (68900, 68903); (69291, 69292); (69446, 69456); (69506, 69509);
    (69633, 69633); (69688, 69702); (69744, 69744); (69747, 69748);
    (69759, 69761); (69811, 69814); (69817, 69818); (69821, 69821);
    (69826, 69826); (69837, 69837); (69888, 69890); (69927, 69931);
    (69933, 69940); (70003, 70003); (70016, 70017); (70070, 70078);
    (70089, 70092); (70095, 70095); (70191, 70193); (70196, 70196);
    (70198, 70199); (70206, 70206); (70367, 70367); (70371, 70378);
    (70400, 70401); (70459, 70460); (70464, 70464); (70502, 70508);
    (70512, 70516); (70712, 70719); (70722, 70724); (70726, 70726);
    (70750, 70750); (70835, 70840); (70842, 70842); (70847, 70848);
    (70850, 70851); (71090, 71093); (71100, 71101); (71103, 71104);
    (71132, 71133); (71219, 71226); (71229, 71229); (71231, 71232);
    (71339, 71339); (71341, 71341); (71344, 71349); (71351, 71351);
    (71453, 71455); (71458, 71461); (71463, 71467); (71727, 71735);
    (71737, 71738); (71995, 71996); (71998, 71998); (72003, 72003);
    (72148, 72151); (72154, 72155); (72160, 72160); (72193, 72202);
    (72243, 72248); (72251, 72254); (72263, 72263); (72273, 72278);
    (72281, 72283); (72330, 72342); (72344, 72345); (72752, 72758);
    (72760, 72765); (72767, 72767); (72850, 72871); (72874, 72880);
    (72882, 72883); (72885, 72886); (73009, 73014); (73018, 73018);
    (73020, 73021); (73023, 73029); (73031, 73031); (73104, 73105);
    (73109, 73109); (73111, 73111); (73459, 73460); (78896, 78904);
    (92912, 92916); (92976, 92982); (92992, 92995); (94031, 94031);
    (94095, 94111); (94176, 94177); (94179, 94180); (110576, 110579);
    (110581, 110587); (110589, 110590); (113821, 113822); (113824, 113827);
    (118528, 118573); (118576, 118598); (119143, 119145); (119155, 119170);
    (119173, 119179); (119210, 119213); (119362, 119364); (121344, 121398);
    (121403, 121452); (121461, 121461); (121476, 121476); (121499, 121503);
    (121505, 121519); (122880, 122886); (122888, 122904); (122907, 122913);
    (122915, 122916); (122918, 122922); (123184, 123197); (123566, 123566);
    (123628, 123631); (125136, 125142); (125252, 125259); (127995, 127999);
    (917505, 917505); (917536, 917631); (917760, 917999)
  ].

Definition casedRanges : list (N * N) :=
  [
    (65, 90); (97, 122); (170, 170); (181, 181); (186, 186); (192, 214);
    (216, 246); (248, 442); (444, 447); (452, 659); (661, 687); (880, 883);
    (886, 887); (891, 893); (895, 895); (902, 902); (904, 906); (908, 908);
    (910, 929); (931, 1013); (1015, 1153); (1162, 1327); (1329, 1366);
    (1376, 1416); (4256, 4293); (4295, 4295); (4301, 4301); (4304, 4346);
    (4349, 4351); (5024, 5109); (5112, 5117); (7296, 7304); (7312, 7354);
    (7357, 7359); (7424, 7467); (7531, 7543); (7545, 7578); (7680, 7957);
    (7960, 7965); (7968, 8005); (8008, 8013); (8016, 8023); (8025, 8025);
    (8027, 8027); (8029, 8029); (8031, 8061); (8064, 8116); (8118, 8124);
    (8126, 8126); (8130, 8132); (8134, 8140); (8144, 8147); (8150, 8155);
    (8160, 8172); (8178, 8180); (8182, 8188); (8450, 8450); (8455, 8455);
    (8458, 8467); (8469, 8469); (8473, 8477); (8484, 8484); (8486, 8486);
    (8488, 8488); (8490, 8493); (8495, 8500); (8505, 8505); (8508, 8511);
    (8517, 8521); (8526, 8526); (8544, 8575); (8579, 8580); (9398, 9449);
    (11264, 11387); (11390, 11492); (11499, 11502); (11506, 11507);
    (11520, 11557); (11559, 11559); (11565, 11565); (42560, 42605);
    (42624, 42651); (42786, 42863); (42865, 42887); (42891, 42894);
    (42896, 42954); (42960, 42961); (42963, 42963); (42965, 42969);
    (42997, 42998); (43002, 43002); (43824, 43866); (43872, 43880);
    (43888, 43967); (64256, 64262); (64275, 64279); (65313, 65338);
    (65345, 65370); (66560, 66639); (66736, 66771); (66776, 66811);
    (66928, 66938); (66940, 66954); (66956, 66962); (66964, 66965);
    (66967, 66977); (66979, 66993); (66995, 67001); (67003, 67004);
    (68736, 68786); (68800, 68850); (71840, 71903); (93760, 93823);
    (119808, 119892); (119894, 119964); (119966, 119967); (119970, 119970);
    (119973, 119974); (119977, 119980); (119982, 119993); (119995, 119995);
    (119997, 120003); (120005, 120069); (120071, 120074); (120077, 120084);
    (120086, 120092); (120094, 120121); (120123, 120126); (120128, 120132);
    (120134, 120134); (120138, 120144); (120146, 120485); (120488, 120512);
    (120514, 120538); (120540, 120570); (120572, 120596); (120598, 120628);
    (120630, 120654); (120656, 120686); (120688, 120712); (120714, 120744);
    (120746, 120770); (120772, 120779); (122624, 122633); (122635, 122654);
    (125184, 125251); (127280, 127305); (127312, 127337); (127344, 127369)
  ].

Definition inRanges (rs : list (N * N)) (cp : N) : bool :=
  existsb (fun r => (r.1 <=? cp) && (cp <=? r.2)) rs.

Definition isCaseIgnorable (cp : N) : bool := inRanges caseIgnorableRanges cp.
Definition isCased (cp : N) : bool := inRanges casedRanges cp.

(** The next code point that is not case-ignorable is a cased one. *)
Definition casedNext (cps : list N) : bool :=
  match dropWhile isCaseIgnorable cps with
  | cp :: _ => isCased cp
  | [] => false
  end.

(** [Final_Sigma]: a cased letter comes before, and none comes after;
    [before] holds the code points before, the nearest first. *)
Definition finalSigma (before after : list N) : bool :=
  casedNext before && negb (casedNext after).

Fixpoint lowerPoints (before cps : list N) : list N :=
  match cps with
  | [] => []
  | cp :: rest =>
      (if cp =? 931 then [if finalSigma before rest then 962 else 963]
       else lowerPoint cp)
        ++ lowerPoints (cp :: before) rest
  end.

(** [StringToCodePoints]: a high surrogate and the low surrogate after
    it make one code point. *)
Definition isHighSurrogate (c : N) : bool := (55296 <=? c) && (c <=? 56319).
Definition isLowSurrogate (c : N) : bool := (56320 <=? c) && (c <=? 57343).

Fixpoint codePoints (s : jsstring) : list N :=
  match s with
  | [] => []
  | c :: s' =>
      match s' with
      | d :: rest =>
          if isHighSurrogate c && isLowSurrogate d
          then (65536 + (c - 55296) * 1024 + (d - 56320)) :: codePoints rest
          else c :: codePoints s'
      | [] => [c]
      end
  end.

(** The lower-case form of [s] when the code points [before] precede it,
    the nearest first. *)
Definition lowerFrom (before : list N) (s : jsstring) : jsstring :=
  flat_map utf16_units (lowerPoints before (codePoints s)).

Definition toLowerCase (s : jsstring) : jsstring := lowerFrom [] s.

Fixpoint startsWith (p s : jsstring) : bool :=
  match p, s with
  | [], _ => true
  | a :: p', b :: s' => (a =? b) && startsWith p' s'
  | _ :: _, [] => false
  end.

(** [s.includes(sub)] on strings. *)
Fixpoint includes (sub s : jsstring) : bool :=
  startsWith sub s ||
  match s with
  | [] => false
  | _ :: s' => includes sub s'
  end.

(** [s.slice(1)]. *)
Definition slice1 (s : jsstring) : jsstring := drop 1 s.

(** [parts.join(sep)]. *)
Fixpoint join (sep : jsstring) (parts : list jsstring) : jsstring :=
  match parts with
  | [] => []
  | [p] => p
  | p :: rest => p ++ sep ++ join sep rest
  end.

(** [s.split(" ")]: always at least one piece. *)
Fixpoint splitOn (d : N) (s : jsstring) : list jsstring :=
  match s with
  | [] => [[]]
  | c :: s' =>
      if c =? d then [] :: splitOn d s'
      else match splitOn d s' with
           | p :: ps => (c :: p) :: ps
           | [] => [[c]]
           end
  end.

(** [s.split(/\s+/)]: the pieces between the maximal runs of white
    space, empty first and last pieces included. *)
Fixpoint splitSpaces (s : jsstring) : list jsstring :=
  match s with
  | [] => [[]]
  | c :: s' =>
      if isSpace c then
        match s' with
        | c' :: _ => if isSpace c' then splitSpaces s' else [] :: splitSpaces s'
        | [] => [[]; []]
        end
      else match splitSpaces s' with
           | p :: ps => (c :: p) :: ps
           | [] => [[c]]
           end
  end.

(** Truthiness of a string: [!s] holds of the empty string only. *)
Definition truthy (s : jsstring) : bool :=
  match s with [] => false | _ => true end.

End JS.
Import JS.

(** ** Regular expressions

    The patterns of the source use literals, character classes,
    alternation, greedy repetition of a class and capturing groups.
    [rmatch] is the backtracking matcher of ECMAScript for that
    fragment, in continuation-passing style: a repetition first tries
    the longest run, an alternation its branches from left to right,
    and a failure of the continuation makes the matcher fall back. *)

Module Regex.

Inductive regex : Type :=
| Empty
| Char (c : N)
| Class (p : N -> bool)
| Seq (r1 r2 : regex)
| Alt (r1 r2 : regex)
| Star (p : N -> bool)
| Group (r : regex).

(** [p+], [r?], a sequence, a list of alternatives, a literal text
    (given as units, or as a literal of this file). *)
Definition Plus (p : N -> bool) : regex := Seq (Class p) (Star p).
Definition Opt (r : regex) : regex := Alt r Empty.
Definition cat (rs : list regex) : regex := foldr Seq Empty rs.
Fixpoint alts (rs : list regex) : regex :=
  match rs with
  | [] => Empty
  | [r] => r
  | r :: rs' => Alt r (alts rs')
  end.
Definition word (w : jsstring) : regex := cat (map Char w).
Definition chars (s : string) : regex := word (lit s).

(** [Canonicalize] of a pattern without the [u] flag: with [i] set,
    both sides are compared through their upper-case form.  A unit
    outside ASCII never canonicalizes to an ASCII one (the Kelvin sign
    is no [K]); as the patterns of the source are ASCII, such a unit is
    left as it is. *)
Definition canon (ignoreCase : bool) (c : N) : N :=
  if ignoreCase && isLower c then c - 32 else c.

Record MatchResult : Type := mkMatch {
  matched : jsstring;          (* match[0] *)
  groups : list jsstring       (* match[1], match[2], ... *)
}.

Section Matcher.
Context {A : Type}.

Fixpoint star (p : N -> bool) (s : jsstring) (k : jsstring -> option A)
  : option A :=
  match s with
  | c :: s' =>
      if p c then
        match star p s' k with
        | Some a => Some a
        | None => k s
        end
      else k s
  | [] => k s
  end.

Fixpoint rmatch (ic : bool) (r : regex) (s : jsstring)
    (caps : list jsstring)
    (k : jsstring -> list jsstring -> option A) : option A :=
  match r with
  | Empty => k s caps
  | Char c =>
      match s with
      | x :: s' => if canon ic x =? canon ic c then k s' caps else None
      | [] => None
      end
  | Class p =>
      match s with
      | x :: s' => if p x then k s' caps else None
      | [] => None
      end
  | Seq r1 r2 =>
      rmatch ic r1 s caps (fun s' caps' => rmatch ic r2 s' caps' k)
  | Alt r1 r2 =>
      match rmatch ic r1 s caps k with
      | Some a => Some a
      | None => rmatch ic r2 s caps k
      end
  | Star p => star p s (fun s' => k s' caps)
  | Group r' =>
      rmatch ic r' s caps
        (fun s' caps' =>
           k s' (caps' ++ [take (length s - length s') s]))
  end.
End Matcher.

(** [s.match(/^r/)] and [s.match(/^r/i)]: the pattern is tried at the
    first position only. *)
Definition exec (ic : bool) (r : regex) (s : jsstring)
  : option MatchResult :=
  rmatch ic r s []
    (fun s' caps => Some (mkMatch (take (length s - length s') s) caps)).

Definition group (i : nat) (m : MatchResult) : jsstring :=
  nth (pred i) (groups m) [].

(** [s.replace(/r/g, "")]: every match, from left to right, is taken
    out; [skip] counts the units of the current match still to drop. *)
Fixpoint removeAllFrom (r : regex) (skip : nat) (s : jsstring) : jsstring :=
  match s with
  | [] => []
  | c :: s' =>
      match skip with
      | S n => removeAllFrom r n s'
      | O =>
          match exec false r s with
          | Some m =>
              match length (matched m) with
              | S n => removeAllFrom r n s'
              | O => c :: removeAllFrom r 0 s'
              end
          | None => c :: removeAllFrom r 0 s'
          end
      end
  end.

Definition removeAll (r : regex) (s : jsstring) : jsstring :=
  removeAllFrom r 0 s.

(** [s.replace(pat, "")] with a string [pat]: the first occurrence of
    [pat] is taken out. *)
Fixpoint removeFirst (pat s : jsstring) : jsstring :=
  if startsWith pat s then drop (length pat) s
  else match s with
       | [] => []
       | c :: s' => c :: removeFirst pat s'
       end.

End Regex.
Import Regex.

(** ** The collaborators

    Everything the command layer and the webhook server reach outside
    themselves: the child process of [runCli], the session manager, the
    configuration and the HTTP client. *)

(** An error object: [error.name], [error.message] and, for an error
    of [child_process.exec], the output captured before the failure
    ([error.stdout], empty when there is none). *)
Record JsError : Type := mkError {
  errName : jsstring;
  errMessage : jsstring;
  errStdout : jsstring
}.

(** [new Error(msg)]. *)
Definition newError (msg : jsstring) : JsError :=
  mkError (lit "Error") msg [].

(** [String(error)], that is [Error.prototype.toString]. *)
Definition errorToString (e : JsError) : jsstring :=
  match errName e, errMessage e with
  | [], m => m
  | n, [] => n
  | n, m => n ++ lit ": " ++ m
  end.

(** The promise of [execAsync]: resolved with both streams, or
    rejected. *)
Inductive ExecOutcome : Type :=
| ExecOk (stdout stderr : jsstring)
| ExecErr (e : JsError).

Inductive Role : Type := RoleSystem | RoleUser | RoleAssistant.

Record ConversationMessage : Type := mkMessage {
  msgRole : Role;
  msgContent : jsstring
}.

(** The body the gateway answers with, as far as the bridge reads it:
    [choices] (absent or a list), each choice with an optional
    [message] whose [content] is optional. *)
Record Choice : Type := mkChoice {
  choiceMessage : option (option jsstring)
}.

Record ChatCompletionResponse : Type := mkCompletion {
  choices : option (list Choice)
}.

Record ChatCompletionRequest : Type := mkRequest {
  reqUrl : jsstring;
  reqAuthorization : option jsstring;
  reqModel : option jsstring;
  reqMessages : list ConversationMessage
}.

(** What [fetch] and the reading of its body come to: the call (or the
    reading) is rejected, the status is not 2xx, the body is not the
    JSON of an object, or a completion is read. *)
Inductive FetchOutcome : Type :=
| FetchFailed (e : JsError)
| FetchStatus (status : jsstring) (errorText : jsstring)
| FetchBadJson (e : JsError)
| FetchOk (body : ChatCompletionResponse).

Record PairingResult : Type := mkPairing {
  pairSuccess : bool;
  pairMessage : jsstring
}.

(** The outcomes of the outside world are functions of the request: a
    message runs at most one command line and sends at most one request
    to the gateway. *)
Record World : Type := mkWorld {
  Store : Type;
  (* child_process *)
  execAsync : jsstring -> ExecOutcome;
  (* session-manager *)
  clearConversationHistory : jsstring -> Store -> Store;
  isUserVerified : jsstring -> Store -> bool;
  verifyPairingCode :
    jsstring -> jsstring -> option jsstring -> Store -> PairingResult * Store;
  addConversationMessage : jsstring -> Role -> jsstring -> Store -> Store;
  getConversationHistory : jsstring -> Store -> list ConversationMessage;
  (* config.clawdbot *)
  gatewayUrl : jsstring;
  gatewayToken : option jsstring;
  model : option jsstring;
  systemPrompt : option jsstring;
  (* node-fetch, and the clock read around it *)
  fetch : ChatCompletionRequest -> FetchOutcome;
  processingTime : N
}.

Record QuickReply : Type := mkQuick {
  label : jsstring;
  message : jsstring
}.

(** What leaves the process or touches the session store, in order. *)
Inductive Event : Type :=
| EvExec (command : jsstring)
| EvClearHistory (sessionKey : jsstring)
| EvIsVerified (kakaoId : jsstring)
| EvVerifyPairing (kakaoId code : jsstring) (name : option jsstring)
| EvAddMessage (kakaoId : jsstring) (role : Role) (content : jsstring)
| EvGetHistory (kakaoId : jsstring)
| EvFetch (request : ChatCompletionRequest)
| EvCallback (url text : jsstring) (quickReplies : option (list QuickReply))
| EvErrorCallback (url text : jsstring).

(** ** Computations

    An async function is a state transformer over the session store and
    the event log that returns a value or throws. *)

Module Comp.

Inductive Outcome (A : Type) : Type :=
| Ret (a : A)
| Throw (e : JsError).
Arguments Ret {A} a.
Arguments Throw {A} e.

Record State (w : World) : Type := mkState {
  store : Store w;
  trace : list Event
}.
Arguments mkState {w} store trace.
Arguments store {w} s.
Arguments trace {w} s.

Definition M (w : World) (A : Type) : Type :=
  State w -> Outcome A * State w.

Section Ops.
Context {w : World}.

Definition ret {A} (a : A) : M w A := fun st => (Ret a, st).
Definition throw {A} (e : JsError) : M w A := fun st => (Throw e, st).

Definition bind {A B} (m : M w A) (f : A -> M w B) : M w B :=
  fun st =>
    match m st with
    | (Ret a, st') => f a st'
    | (Throw e, st') => (Throw e, st')
    end.

(** [try { m } catch (e) { h e }]. *)
Definition tryCatch {A} (m : M w A) (h : JsError -> M w A) : M w A :=
  fun st =>
    match m st with
    | (Ret a, st') => (Ret a, st')
    | (Throw e, st') => h e st'
    end.

Definition emit (ev : Event) : M w unit :=
  fun st => (Ret tt, mkState (store st) (trace st ++ [ev])).

Definition getStore : M w (Store w) := fun st => (Ret (store st), st).

Definition modifyStore (f : Store w -> Store w) : M w unit :=
  fun st => (Ret tt, mkState (f (store st)) (trace st)).

#[export] Instance M_ret : MRet (M w) := @ret.
#[export] Instance M_bind : MBind (M w) := fun A B f m => bind m f.
#[export] Instance M_fmap : FMap (M w) :=
  fun A B f m => bind m (fun a => ret (f a)).
End Ops.

End Comp.
Import Comp.

(** ** The command handler *)

Definition nl : jsstring := [10].

(** A template literal that spans lines, line by line. *)
Definition lines (ls : list jsstring) : jsstring := join nl ls.

Record CommandResult : Type := mkResult {
  handled : bool;
  response : option jsstring;
  sessionReset : option bool;
  quickReplies : option (list QuickReply)
}.

(** [/\x1B\[[0-9;]*[a-zA-Z]/g] *)
Definition ansiPattern : regex :=
  cat [ Char 27; Char 91;
        Star (fun c => isDigit c || (c =? 59));
        Class (fun c => isLower c || isUpper c) ].

Definition stripAnsi (str : jsstring) : jsstring := removeAll ansiPattern str.

Definition QUICK_COMMANDS : list QuickReply :=
  [ mkQuick (lit "📊 상태") (lit "/status");
    mkQuick (lit "❓ 도움말") (lit "/help");
    mkQuick (lit "🤖 모델") (lit "/model");
    mkQuick (lit "🔄 초기화") (lit "/clear");
    mkQuick (lit "🧠 추론") (lit "/think");
    mkQuick (lit "💡 사용량") (lit "/usage");
    mkQuick (lit "📝 명령어 전체") (lit "/commands") ].

(** The handler closures of the table, by name; [callHandler] below
    gives each its body. *)
Inductive HandlerName : Type :=
| HRoot | HHelp | HCommands | HModel | HModels
| HReset | HNew | HClear
| HThink | HThinking | HT
| HVerbose | HV | HReasoning | HReason
| HElevated | HElev
| HTts | HSkill | HLocalstatus.

Record CommandMapping : Type := mkMapping {
  cli : option jsstring;
  handler : option HandlerName;
  description : jsstring
}.

Definition byCli (c d : string) : CommandMapping :=
  mkMapping (Some (lit c)) None (lit d).
Definition byHandler (h : HandlerName) (d : string) : CommandMapping :=
  mkMapping None (Some h) (lit d).

(** The table.  Its keys and every command looked up in it start with
    the marker, so a lookup never reaches a property that the object
    inherits: a finite map says all there is. *)
Definition COMMANDS : gmap jsstring CommandMapping :=
  list_to_map
    [ (lit "/", byHandler HRoot "명령어 목록 선택");
      (lit "/status", byCli "clawdbot status" "시스템 상태 확인");
      (lit "/help", byHandler HHelp "도움말 표시");
      (lit "/commands", byHandler HCommands "명령어 목록");
      (lit "/whoami", byCli "clawdbot whoami" "내 정보 확인");
      (lit "/id", byCli "clawdbot whoami" "/whoami 별칭");
      (lit "/context", byCli "clawdbot context" "컨텍스트 정보");
      (lit "/usage", byCli "clawdbot usage" "사용량 확인");
      (lit "/model", byHandler HModel "모델 선택/목록");
      (lit "/models", byHandler HModels "/model 별칭");
      (lit "/reset", byHandler HReset "대화 초기화");
      (lit "/new", byHandler HNew "/reset 별칭");
      (lit "/clear", byHandler HClear "대화 기록 초기화");
      (lit "/stop", byCli "clawdbot stop" "현재 작업 중지");
      (lit "/think", byHandler HThink "생각 모드 (off/low/medium/high)");
      (lit "/thinking", byHandler HThinking "/think 별칭");
      (lit "/t", byHandler HT "/think 별칭");
      (lit "/verbose", byHandler HVerbose "상세 출력 모드");
      (lit "/v", byHandler HV "/verbose 별칭");
      (lit "/reasoning", byHandler HReasoning "추론 표시 모드");
      (lit "/reason", byHandler HReason "/reasoning 별칭");
      (lit "/elevated", byHandler HElevated "권한 상승 모드");
      (lit "/elev", byHandler HElev "/elevated 별칭");
      (lit "/tts", byHandler HTts "음성 합성 설정");
      (lit "/skill", byHandler HSkill "스킬 실행");
      (lit "/subagents",
        byCli "clawdbot sessions list --kind subagent" "서브에이전트 목록");
      (lit "/localstatus", byHandler HLocalstatus "브릿지 상태 (로컬)") ].

Definition getHelpText : jsstring :=
  lines
    [ lit "🦞 Clawdbot 카카오톡 도움말";
      [];
      lit "📌 기본 명령어";
      lit "/help - 도움말 표시";
      lit "/status - 시스템 상태";
      lit "/commands - 전체 명령어 목록";
      [];
      lit "📌 세션 관리";
      lit "/reset - 새 대화 시작";
      lit "/clear - 대화 기록 초기화";
      lit "/stop - 현재 작업 중지";
      [];
      lit "📌 모델 설정";
      lit "/model - 모델 목록";
      lit "/model <이름> - 모델 변경";
      lit "/model status - 모델 상태";
      [];
      lit "📌 추론/사고 설정";
      lit "/think <레벨> - 사고 깊이 (off/low/medium/high)";
      lit "/verbose <on/off> - 상세 모드";
      lit "/reasoning <on/off> - 추론 표시";
      [];
      lit "📌 기타";
      lit "/usage - 사용량 확인";
      lit "/whoami - 내 정보";
      lit "/skill <이름> - 스킬 실행";
      [];
      lit "💡 예시";
      dquote ++ lit "안녕하세요" ++ dquote ++ lit " - 일반 대화";
      dquote ++ lit "/model opus" ++ dquote ++ lit " - 모델 변경";
      dquote ++ lit "/think high 복잡한 문제 분석해줘" ++ dquote
        ++ lit " - 깊은 사고로 분석" ].

Definition categories : list (jsstring * list jsstring) :=
  [ (lit "📊 상태/정보",
      [lit "/status"; lit "/help"; lit "/commands"; lit "/whoami";
       lit "/context"; lit "/usage"]);
    (lit "🤖 모델/설정",
      [lit "/model"; lit "/think"; lit "/verbose"; lit "/reasoning";
       lit "/elevated"]);
    (lit "💬 세션 관리", [lit "/reset"; lit "/clear"; lit "/stop"]);
    (lit "🔧 기타",
      [lit "/tts"; lit "/skill"; lit "/subagents"; lit "/localstatus"]) ].

Definition getCommandList : jsstring :=
  let addCommand (result : jsstring) (cmd : jsstring) : jsstring :=
    match COMMANDS !! cmd with
    | Some info =>
        result ++ lit "  " ++ cmd ++ lit " - " ++ description info ++ nl
    | None => result
    end in
  let addCategory (result : jsstring) (entry : jsstring * list jsstring) :=
    foldl addCommand (result ++ entry.1 ++ nl) entry.2 ++ nl in
  trim (foldl addCategory (lit "🦞 Clawdbot 명령어 목록" ++ nl ++ nl) categories).

Definition isCommand (message : jsstring) : bool :=
  startsWith (lit "/") (trim message).

(** The pattern of [parseCommand]: [^(\/\w+):?\s*], then a second
    group that takes [.*], the rest of the line. *)
Definition commandPattern : regex :=
  cat [ Group (Seq (Char 47) (Plus isWord));
        Opt (Char 58);
        Star isSpace;
        Group (Star (fun c => negb (isLineTerminator c))) ].

Record ParsedCommand : Type := mkParsed {
  command : jsstring;
  args : jsstring
}.

Definition parseCommand (message : jsstring) : ParsedCommand :=
  let trimmed := trim message in
  match exec false commandPattern trimmed with
  | Some m => mkParsed (toLowerCase (group 1 m)) (trim (group 2 m))
  | None => mkParsed (toLowerCase trimmed) []
  end.

(** The texts [handleCommand] answers with. *)
Definition ACK : jsstring := lit "✅ 명령어가 실행되었습니다.".
Definition NOT_IMPLEMENTED : jsstring :=
  lit "이 명령어는 아직 구현되지 않았습니다.".
Definition errorText (e : JsError) : jsstring :=
  lines [lit "❌ 명령어 실행 중 오류가 발생했습니다."; []; errMessage e].

Definition notHandled : CommandResult := mkResult false None None None.

(** The accepted values of the option commands. *)
Definition thinkLevels : list jsstring :=
  [lit "off"; lit "minimal"; lit "low"; lit "medium"; lit "high"; lit "xhigh"].
Definition verboseModes : list jsstring := [lit "on"; lit "full"; lit "off"].
Definition reasoningModes : list jsstring := [lit "on"; lit "off"; lit "stream"].
Definition elevatedModes : list jsstring :=
  [lit "on"; lit "off"; lit "ask"; lit "full"].
Definition ttsModes : list jsstring :=
  [lit "off"; lit "always"; lit "inbound"; lit "tagged"; lit "status";
   lit "provider"; lit "limit"; lit "summary"; lit "audio"].

Definition NEXT_MESSAGE : jsstring := lit "다음 메시지부터 적용됩니다.".

Definition thinkHandler (args : jsstring) : jsstring :=
  let levels := thinkLevels in
  if negb (truthy args) then
    lines [ lit "🧠 생각 모드 설정"; [];
            lit "사용법: /think <레벨>";
            lit "레벨: " ++ join (lit ", ") levels; [];
            lit "예시: /think high" ]
  else
    let level := toLowerCase args in
    if negb (bool_decide (level ∈ levels)) then
      lines [ lit "❌ 잘못된 레벨입니다.";
              lit "사용 가능: " ++ join (lit ", ") levels ]
    else
      lines [ lit "🧠 생각 모드: " ++ level; []; NEXT_MESSAGE ].

Definition verboseHandler (args : jsstring) : jsstring :=
  let modes := verboseModes in
  if negb (truthy args) then
    lines [ lit "📝 상세 모드 설정"; [];
            lit "사용법: /verbose <on|full|off>" ]
  else if negb (bool_decide (toLowerCase args ∈ modes)) then
    lines [ lit "❌ 잘못된 옵션입니다.";
            lit "사용 가능: " ++ join (lit ", ") modes ]
  else
    lines [ lit "📝 상세 모드: " ++ args; []; NEXT_MESSAGE ].

Definition reasoningHandler (args : jsstring) : jsstring :=
  let modes := reasoningModes in
  if negb (truthy args) then
    lines [ lit "💭 추론 표시 설정"; [];
            lit "사용법: /reasoning <on|off|stream>" ]
  else if negb (bool_decide (toLowerCase args ∈ modes)) then
    lines [ lit "❌ 잘못된 옵션입니다.";
            lit "사용 가능: " ++ join (lit ", ") modes ]
  else
    lines [ lit "💭 추론 모드: " ++ args; []; NEXT_MESSAGE ].

Definition elevatedHandler (args : jsstring) : jsstring :=
  let modes := elevatedModes in
  if negb (truthy args) then
    lines [ lit "🔐 권한 상승 설정"; [];
            lit "사용법: /elevated <on|off|ask|full>" ]
  else if negb (bool_decide (toLowerCase args ∈ modes)) then
    lines [ lit "❌ 잘못된 옵션입니다.";
            lit "사용 가능: " ++ join (lit ", ") modes ]
  else
    lines [ lit "🔐 권한 모드: " ++ args; []; NEXT_MESSAGE ].

Definition ttsHandler (args : jsstring) : jsstring :=
  let modes := ttsModes in
  if negb (truthy args) then
    lines [ lit "🔊 TTS 설정"; [];
            lit "사용법: /tts <옵션>";
            lit "옵션: " ++ join (lit ", ") modes ]
  else
    lines [ lit "🔊 TTS: " ++ args; []; NEXT_MESSAGE ].

Section Handlers.
Context (w : World).

Definition runCli (cmd : jsstring) : M w jsstring :=
  emit (EvExec cmd);;
  match execAsync w cmd with
  | ExecOk stdout stderr =>
      mret (trim (stripAnsi (if truthy stdout then stdout else stderr)))
  | ExecErr error =>
      if truthy (errStdout error)
      then mret (trim (stripAnsi (errStdout error)))
      else throw error
  end.

Definition clearHistory (sessionKey : jsstring) : M w unit :=
  emit (EvClearHistory sessionKey);;
  modifyStore (clearConversationHistory w sessionKey).

Definition modelHandler (args : jsstring) : M w jsstring :=
  if negb (truthy args) || bool_decide (args = lit "list") then
    runCli (lit "clawdbot model list")
  else if bool_decide (args = lit "status") then
    runCli (lit "clawdbot model status")
  else
    runCli (lit "clawdbot model set " ++ args).

Definition resetHandler (sessionKey : jsstring) : M w jsstring :=
  clearHistory sessionKey;;
  mret (lit "🔄 대화를 초기화했습니다. 새로운 대화를 시작하세요!").

Definition clearHandler (sessionKey : jsstring) : M w jsstring :=
  clearHistory sessionKey;;
  mret (lit "✅ 대화 기록이 초기화되었습니다.").

Definition skillHandler (args : jsstring) : M w jsstring :=
  if negb (truthy args) then runCli (lit "clawdbot skill list")
  else
    let parts := splitOn 32 args in
    let skillName := hd [] parts in
    let input := join (lit " ") (tl parts) in
    runCli (lit "clawdbot skill run " ++ skillName
            ++ (if truthy input then lit " " ++ dquote ++ input ++ dquote
                else [])).

Definition localstatusHandler : jsstring :=
  lines
    [ lit "🦞 카카오톡 브릿지 상태";
      [];
      lit "✅ 서버: 정상";
      lit "📍 Gateway: " ++ gatewayUrl w;
      lit "🤖 모델: "
        ++ match model w with
           | Some m => if truthy m then m else lit "기본값"
           | None => lit "기본값"
           end;
      [];
      lit "💡 Clawdbot 전체 상태는 /status 로 확인하세요." ].

Definition callHandler (h : HandlerName) (args sessionKey : jsstring)
  : M w jsstring :=
  match h with
  | HRoot => mret (lit "🦞 명령어를 선택하세요!")
  | HHelp => mret getHelpText
  | HCommands => mret getCommandList
  | HModel | HModels => modelHandler args
  | HReset | HNew => resetHandler sessionKey
  | HClear => clearHandler sessionKey
  | HThink | HThinking | HT => mret (thinkHandler args)
  | HVerbose | HV => mret (verboseHandler args)
  | HReasoning | HReason => mret (reasoningHandler args)
  | HElevated | HElev => mret (elevatedHandler args)
  | HTts => mret (ttsHandler args)
  | HSkill => skillHandler args
  | HLocalstatus => mret localstatusHandler
  end.

(** The three texts an error of the forwarded command is searched
    for. *)
Definition isUnknownCommandError (e : JsError) : bool :=
  includes (lit "not recognized") (errMessage e)
  || includes (lit "unknown") (errMessage e)
  || includes (lit "is not") (errMessage e).

(** The body of the [try] block up to the computed [response]: [inl] is
    the early [return] out of the inner [catch]. *)
Definition computeResponse (cmd args sessionKey : jsstring)
  : M w (CommandResult + jsstring) :=
  match COMMANDS !! cmd with
  | Some cmdInfo =>
      match handler cmdInfo, cli cmdInfo with
      | Some h, _ => inr <$> callHandler h args sessionKey
      | None, Some c =>
          let fullCommand := if truthy args then c ++ lit " " ++ args else c in
          inr <$> runCli fullCommand
      | None, None => mret (inr NOT_IMPLEMENTED)
      end
  | None =>
      let cliCommand := slice1 cmd in
      let fullCommand :=
        if truthy args
        then lit "clawdbot " ++ cliCommand ++ lit " " ++ args
        else lit "clawdbot " ++ cliCommand in
      tryCatch (inr <$> runCli fullCommand)
        (fun cliError =>
           if isUnknownCommandError cliError then mret (inl notHandled)
           else throw cliError)
  end.

Definition handleCommand (message sessionKey : jsstring)
  : M w CommandResult :=
  if negb (isCommand message) then mret notHandled
  else
    let parsed := parseCommand message in
    if bool_decide (command parsed = lit "/pair") then mret notHandled
    else
      tryCatch
        (r ← computeResponse (command parsed) (args parsed) sessionKey;
         match r with
         | inl early => mret early
         | inr response0 =>
             let response :=
               if negb (truthy response0)
                  || bool_decide (trim response0 = [])
               then ACK else response0 in
             if bool_decide (command parsed = lit "/") then
               mret (mkResult true (Some response) None (Some QUICK_COMMANDS))
             else
               mret (mkResult true (Some response) None None)
         end)
        (fun error =>
           mret (mkResult true (Some (errorText error)) None None)).

End Handlers.

(** The directive patterns, in the order of the source; all carry the
    [i] flag and are anchored at the start. *)
Definition directivePatterns : list regex :=
  [ cat [ Char 47; Group (alts [chars "think"; chars "thinking"; chars "t"]);
          Plus isSpace;
          Group (alts [chars "off"; chars "minimal"; chars "low"; chars "medium";
                       chars "high"; chars "xhigh"]);
          Plus isSpace ];
    cat [ Char 47; Group (alts [chars "verbose"; chars "v"]);
          Plus isSpace;
          Group (alts [chars "on"; chars "full"; chars "off"]);
          Plus isSpace ];
    cat [ Char 47; Group (alts [chars "reasoning"; chars "reason"]);
          Plus isSpace;
          Group (alts [chars "on"; chars "off"; chars "stream"]);
          Plus isSpace ];
    cat [ Char 47; Group (alts [chars "elevated"; chars "elev"]);
          Plus isSpace;
          Group (alts [chars "on"; chars "off"; chars "ask"; chars "full"]);
          Plus isSpace ];
    cat [ chars "/model"; Plus isSpace;
          Group (Plus (fun c => negb (isSpace c)));
          Plus isSpace ];
    cat [ Char 47; Group (chars "exec"); Plus isSpace;
          Plus (fun c => negb (isSpace c));
          Plus isSpace ] ].

Record Extracted : Type := mkExtracted {
  directives : list jsstring;
  cleanMessage : jsstring
}.

(** One turn of the loop over the patterns. *)
Definition directiveStep (acc : Extracted) (pattern : regex) : Extracted :=
  match exec true pattern (cleanMessage acc) with
  | Some m =>
      mkExtracted (directives acc ++ [trim (matched m)])
                  (trim (removeFirst (matched m) (cleanMessage acc)))
  | None => acc
  end.

Definition extractDirectives (message : jsstring) : Extracted :=
  foldl directiveStep (mkExtracted [] message) directivePatterns.

(** ** The chat bridge *)

Record ClawdbotResponse : Type := mkResponse {
  text : jsstring;
  toolsUsed : option (list jsstring);
  metaProcessingTime : N
}.

Definition NO_ANSWER : jsstring := lit "응답을 받지 못했습니다.".
Definition TIMEOUT_FALLBACK : jsstring :=
  lit "⏳ 응답 생성에 시간이 걸리고 있어요. 잠시 후 다시 시도하거나, 더 간단한 질문을 해주세요!".
Definition FAILURE_FALLBACK : jsstring :=
  lit "죄송합니다. AI 처리 중 오류가 발생했습니다. 잠시 후 다시 시도해주세요.".

(** [x || undefined] and the test [if (x)] on an optional string. *)
Definition nonEmpty (o : option jsstring) : option jsstring :=
  match o with
  | Some s => if truthy s then Some s else None
  | None => None
  end.

(** [history.slice(-10)]. *)
Definition lastTen {A} (l : list A) : list A := drop (length l - 10) l.

Section Bridge.
Context (w : World).

Definition chatRequest (msg : jsstring)
    (conversationHistory : list ConversationMessage) : ChatCompletionRequest :=
  let system :=
    match nonEmpty (systemPrompt w) with
    | Some p => [mkMessage RoleSystem p]
    | None => []
    end in
  let messages :=
    system ++ lastTen conversationHistory ++ [mkMessage RoleUser msg] in
  mkRequest (gatewayUrl w ++ lit "/v1/chat/completions")
            (fmap (fun t => lit "Bearer " ++ t) (nonEmpty (gatewayToken w)))
            (nonEmpty (model w))
            messages.

(** [result.choices[0]?.message?.content], which throws a [TypeError]
    when [choices] is missing. *)
Definition firstContent (result : ChatCompletionResponse)
  : Outcome (option jsstring) :=
  match choices result with
  | None =>
      Throw (mkError (lit "TypeError")
               (lit "Cannot read properties of undefined (reading '0')") [])
  | Some [] => Ret None
  | Some (c :: _) => Ret (mjoin (choiceMessage c))
  end.

Definition askClawdbotGateway (msg sessionKey : jsstring)
    (conversationHistory : list ConversationMessage) : M w ClawdbotResponse :=
  tryCatch
    (let request := chatRequest msg conversationHistory in
     emit (EvFetch request);;
     match fetch w request with
     | FetchFailed e => throw e
     | FetchStatus status _ =>
         throw (newError (lit "Gateway API error: " ++ status))
     | FetchBadJson e => throw e
     | FetchOk result =>
         match firstContent result with
         | Throw e => throw e
         | Ret content =>
             let responseText :=
               match nonEmpty content with
               | Some c => c
               | None => NO_ANSWER
               end in
             mret (mkResponse responseText None (processingTime w))
         end
     end)
    (fun error => throw error).

Definition askClawdbot (msg sessionKey : jsstring)
    (conversationHistory : list ConversationMessage) : M w ClawdbotResponse :=
  tryCatch
    (askClawdbotGateway msg sessionKey conversationHistory)
    (fun error =>
       let errorMessage := errorToString error in
       let isTimeout :=
         includes (lit "timeout") errorMessage
         || includes (lit "ETIMEDOUT") errorMessage in
       mret (mkResponse
               (if isTimeout then TIMEOUT_FALLBACK else FAILURE_FALLBACK)
               (Some []) 0)).

End Bridge.

(** ** The webhook server *)

(** Modelled from the spec: the platform response envelope builder of
    [kakao-api], which is not part of the sources at hand.  It turns a
    plain text and optional quick-reply buttons into the reply of the
    platform; the reply is kept as these two parts. *)
Record KakaoSkillResponse : Type := mkReply {
  replyText : jsstring;
  replyQuickReplies : option (list QuickReply)
}.

Definition createTextResponse (t : jsstring) : KakaoSkillResponse :=
  mkReply t None.

Definition addQuickReplies (r : KakaoSkillResponse) (q : list QuickReply)
  : KakaoSkillResponse :=
  mkReply (replyText r) (Some q).

Definition PAIRING_USAGE : jsstring :=
  lines [ lit "📝 Pairing 사용법"; [];
          lit "/pair [인증코드] [이름]"; [];
          lit "예시:";
          lit "/pair myCode";
          lit "/pair myCode 홍길동" ].

Definition NEED_PAIRING_SYNC : jsstring :=
  lines [ lit "🔐 인증이 필요합니다."; [];
          dquote ++ lit "/pair [인증코드]" ++ dquote ++ lit " 또는 "
            ++ dquote ++ lit "/pair [인증코드] [이름]" ++ dquote
            ++ lit "을 입력해주세요." ].

Definition NEED_PAIRING_ASYNC : jsstring :=
  lines [ lit "🔐 인증이 필요합니다."; [];
          dquote ++ lit "/pair [인증코드]" ++ dquote ++ lit "를 입력해주세요.";
          lit "예: /pair mySecretCode 홍길동" ].

Definition SYNC_AI_ERROR : jsstring :=
  lit "AI 처리 중 오류가 발생했습니다. 잠시 후 다시 시도해주세요.".
Definition ASYNC_ERROR : jsstring := lit "처리 중 오류가 발생했습니다.".

(** [utterance.toLowerCase().startsWith("/pair")] *)
Definition isPairing (utterance : jsstring) : bool :=
  startsWith (lit "/pair") (toLowerCase utterance).

(** [parts[1]] and [parts.slice(2).join(" ") || undefined] of
    [utterance.split(/\s+/)]. *)
Definition pairingCode (utterance : jsstring) : option jsstring :=
  splitSpaces utterance !! 1%nat.
Definition pairingName (utterance : jsstring) : option jsstring :=
  nonEmpty (Some (join (lit " ") (drop 2 (splitSpaces utterance)))).

(** A failed pairing is answered with a cross before the message. *)
Definition pairingFailure (m : jsstring) : jsstring := lit "❌ " ++ m.

Section Webhook.
Context (w : World).

(** Modelled from the spec: [sendCallback] and [sendErrorCallback] of
    [kakao-api] perform the outbound callback POST; the model records
    what is sent. *)
Definition sendCallback (callbackUrl t : jsstring)
    (q : option (list QuickReply)) : M w unit :=
  emit (EvCallback callbackUrl t q).

Definition sendErrorCallback (callbackUrl t : jsstring) : M w unit :=
  emit (EvErrorCallback callbackUrl t).

(** The calls into the session manager. *)
Definition queryVerified (kakaoId : jsstring) : M w bool :=
  emit (EvIsVerified kakaoId);;
  s ← getStore;
  mret (isUserVerified w kakaoId s).

Definition verifyPairing (kakaoId code : jsstring) (name : option jsstring)
  : M w PairingResult :=
  emit (EvVerifyPairing kakaoId code name);;
  s ← getStore;
  let r := verifyPairingCode w kakaoId code name s in
  modifyStore (fun _ => r.2);;
  mret r.1.

Definition addMessage (kakaoId : jsstring) (role : Role) (content : jsstring)
  : M w unit :=
  emit (EvAddMessage kakaoId role content);;
  modifyStore (addConversationMessage w kakaoId role content).

Definition getHistory (kakaoId : jsstring) : M w (list ConversationMessage) :=
  emit (EvGetHistory kakaoId);;
  s ← getStore;
  mret (getConversationHistory w kakaoId s).

(** The chat exchange both paths end with. *)
Definition chat (kakaoId utterance : jsstring) : M w ClawdbotResponse :=
  addMessage kakaoId RoleUser utterance;;
  history ← getHistory kakaoId;
  response ← askClawdbot w utterance kakaoId history;
  addMessage kakaoId RoleAssistant (text response);;
  mret response.

(** [commandResult.handled && commandResult.response] *)
Definition answered (r : CommandResult) : option jsstring :=
  if handled r then nonEmpty (response r) else None.

Definition handleWithoutCallback (kakaoId utterance : jsstring)
  : M w KakaoSkillResponse :=
  if isPairing utterance then
    match nonEmpty (pairingCode utterance) with
    | None => mret (createTextResponse PAIRING_USAGE)
    | Some code =>
        result ← verifyPairing kakaoId code (pairingName utterance);
        mret (createTextResponse
                (if pairSuccess result then pairMessage result
                 else pairingFailure (pairMessage result)))
    end
  else
    verified ← queryVerified kakaoId;
    if negb verified then mret (createTextResponse NEED_PAIRING_SYNC)
    else
      commandReply ←
        (if isCommand utterance then
           commandResult ← handleCommand w utterance kakaoId;
           match answered commandResult with
           | Some r =>
               let reply := createTextResponse r in
               mret (Some (match quickReplies commandResult with
                           | Some q => addQuickReplies reply q
                           | None => reply
                           end))
           | None => mret None
           end
         else mret None);
      match commandReply with
      | Some reply => mret reply
      | None =>
          tryCatch
            (response ← chat kakaoId utterance;
             mret (createTextResponse (text response)))
            (fun error => mret (createTextResponse SYNC_AI_ERROR))
      end.

Definition handlePairingCommand (kakaoId utterance callbackUrl : jsstring)
  : M w unit :=
  match nonEmpty (pairingCode utterance) with
  | None => sendCallback callbackUrl PAIRING_USAGE None
  | Some code =>
      result ← verifyPairing kakaoId code (pairingName utterance);
      if pairSuccess result then
        sendCallback callbackUrl (pairMessage result)
          (Some [ mkQuick (lit "시작하기") (lit "안녕하세요!");
                  mkQuick (lit "도움말") (lit "/help") ])
      else
        sendCallback callbackUrl (pairingFailure (pairMessage result)) None
  end.

Definition processMessageAsync (kakaoId utterance callbackUrl : jsstring)
  : M w unit :=
  tryCatch
    (if isPairing utterance then
       handlePairingCommand kakaoId utterance callbackUrl
     else
       verified ← queryVerified kakaoId;
       if negb verified then
         sendCallback callbackUrl NEED_PAIRING_ASYNC
           (Some [mkQuick (lit "인증 방법") (lit "/help pair")])
       else
         delivered ←
           (if isCommand utterance then
              commandResult ← handleCommand w utterance kakaoId;
              match answered commandResult with
              | Some r =>
                  let q :=
                    match quickReplies commandResult with
                    | Some q => q
                    | None =>
                        if startsWith (lit "/clear") (toLowerCase utterance)
                        then [mkQuick (lit "새 대화 시작") (lit "안녕하세요")]
                        else [ mkQuick (lit "도움말") (lit "/help");
                               mkQuick (lit "상태") (lit "/status") ]
                    end in
                  sendCallback callbackUrl r (Some q);;
                  mret true
              | None => mret false
              end
            else mret false);
         if (delivered : bool) then mret tt
         else
           response ← chat kakaoId utterance;
           sendCallback callbackUrl (text response)
             (Some [ mkQuick (lit "계속") (lit "계속해주세요");
                     mkQuick (lit "새 주제") (lit "/clear") ]))
    (fun error => sendErrorCallback callbackUrl ASYNC_ERROR).

End Webhook.

(** The loop of [extractDirectives] as the specification words it: the
    patterns are taken once each, in order; a pattern that matches the
    head of the remainder contributes its text, trimmed, and leaves what
    follows it, trimmed; a pattern that does not match leaves the state
    as it is. *)
Inductive Extracts : list regex -> Extracted -> Extracted -> Prop :=
| Extracts_done a : Extracts [] a a
| Extracts_match p ps a m rest b :
    exec true p (cleanMessage a) = Some m ->
    cleanMessage a = matched m ++ rest ->
    Extracts ps
      (mkExtracted (directives a ++ [trim (matched m)]) (trim rest)) b ->
    Extracts (p :: ps) a b
| Extracts_skip p ps a b :
    exec true p (cleanMessage a) = None ->
    Extracts ps a b ->
    Extracts (p :: ps) a b.

(** The parts of a command line [parseCommand] tells apart: the colon
    that may follow the token, and the rest of the first line. *)
Definition skipColon (s : jsstring) : jsstring :=
  match s with
  | c :: s' => if c =? 58 then s' else s
  | [] => []
  end.

Definition restOfLine (s : jsstring) : jsstring :=
  takeWhile (fun c => negb (isLineTerminator c)) s.

(** The command line an unknown command is forwarded as: the token
    without its marker after the program name, then the arguments when
    there are any. *)
Definition forwardedCommand (cmd args0 : jsstring) : jsstring :=
  lit "clawdbot " ++ slice1 cmd
    ++ (if truthy args0 then lit " " ++ args0 else []).

(** The response the handler settles on: an output that is empty or
    blank gives way to the acknowledgement. *)
Definition settled (out : jsstring) : jsstring :=
  if bool_decide (trim out = []) then ACK else out.

(** The four commands that check an option against a list of accepted
    values: their lists, handlers, tokens, and the separator their usage
    text puts between the values. *)
Inductive OptionCommand : Type :=
| OptThink | OptVerbose | OptReasoning | OptElevated.

Definition optionValues (o : OptionCommand) : list jsstring :=
  match o with
  | OptThink => thinkLevels
  | OptVerbose => verboseModes
  | OptReasoning => reasoningModes
  | OptElevated => elevatedModes
  end.

Definition optionHandler (o : OptionCommand) : jsstring -> jsstring :=
  match o with
  | OptThink => thinkHandler
  | OptVerbose => verboseHandler
  | OptReasoning => reasoningHandler
  | OptElevated => elevatedHandler
  end.

Definition optionTokens (o : OptionCommand) : list jsstring :=
  match o with
  | OptThink => [lit "/think"; lit "/thinking"; lit "/t"]
  | OptVerbose => [lit "/verbose"; lit "/v"]
  | OptReasoning => [lit "/reasoning"; lit "/reason"]
  | OptElevated => [lit "/elevated"; lit "/elev"]
  end.

Definition usageSeparator (o : OptionCommand) : jsstring :=
  match o with
  | OptThink => lit ", "
  | _ => lit "|"
  end.

(** The directive pattern of an option command. *)
Definition optionPattern (o : OptionCommand) : option regex :=
  directivePatterns !! (match o with
                        | OptThink => 0
                        | OptVerbose => 1
                        | OptReasoning => 2
                        | OptElevated => 3
                        end)%nat.

(** A world with an empty session store, in which every command line
    and every request to the gateway has the given outcome. *)
Definition sampleWorld (ran : ExecOutcome) (verified : bool)
    (answered0 : FetchOutcome) : World :=
  mkWorld unit (fun _ => ran)
    (fun _ s => s) (fun _ _ => verified)
    (fun _ _ _ s => (mkPairing true (lit "paired"), s))
    (fun _ _ _ s => s) (fun _ _ => [])
    (lit "http://localhost:18789") None None None
    (fun _ => answered0) 0.

Definition sampleState (ran : ExecOutcome) (verified : bool)
    (answered0 : FetchOutcome) : State (sampleWorld ran verified answered0) :=
  @mkState (sampleWorld ran verified answered0) tt [].

(** The shell reporting that it does not know the program. *)
Definition notRecognized : ExecOutcome :=
  ExecErr (mkError (lit "Error")
             (lit "Command failed: clawdbot is not recognized") []).

Definition gatewayDown : FetchOutcome :=
  FetchFailed (mkError (lit "FetchError") (lit "connect ECONNREFUSED") []).

(** Matching a literal text at the head of a subject, and equality of
    two texts, when the case of ASCII letters is ignored (the [i]
    flag). *)
Fixpoint ciPrefix (w s : jsstring) : bool :=
  match w, s with
  | [], _ => true
  | a :: w', b :: s' => (canon true b =? canon true a) && ciPrefix w' s'
  | _ :: _, [] => false
  end.

Definition ciEq (a b : jsstring) : Prop :=
  map (canon true) a = map (canon true) b.

#[export] Instance ciEq_dec (a b : jsstring) : Decision (ciEq a b).
Proof. unfold ciEq. apply _. Defined.

(** The first of the outcomes [f x], [x] in [l], that is not a
    failure. *)
Fixpoint firstSome {A B} (f : A -> option B) (l : list A) : option B :=
  match l with
  | [] => None
  | x :: l' =>
      match f x with
      | Some b => Some b
      | None => firstSome f l'
      end
  end.

(** The shape the four option patterns share: the marker, one of the
    tokens, white space, one of the values, white space. *)
Definition optPat (tokens values : list jsstring) : regex :=
  cat [ Char 47; Group (alts (map word tokens)); Plus isSpace;
        Group (alts (map word values)); Plus isSpace ].

(** The tokens of an option command without their marker. *)
Definition optionWords (o : OptionCommand) : list jsstring :=
  match o with
  | OptThink => [lit "think"; lit "thinking"; lit "t"]
  | OptVerbose => [lit "verbose"; lit "v"]
  | OptReasoning => [lit "reasoning"; lit "reason"]
  | OptElevated => [lit "elevated"; lit "elev"]
  end.

(** What the pairing branch asks of the session manager: the code is
    verified when the utterance carries one, and nothing else. *)
Definition pairingTrace (kakaoId utterance : jsstring) : list Event :=
  match nonEmpty (pairingCode utterance) with
  | Some code => [EvVerifyPairing kakaoId code (pairingName utterance)]
  | None => []
  end.

(** The events of a chat exchange that was answered with [answer]. *)
Definition chatTrace (w : World) (kakaoId utterance answer : jsstring)
    (s : Store w) : list Event :=
  [ EvAddMessage kakaoId RoleUser utterance;
    EvGetHistory kakaoId;
    EvFetch (chatRequest w utterance
               (getConversationHistory w kakaoId
                  (addConversationMessage w kakaoId RoleUser utterance s)));
    EvAddMessage kakaoId RoleAssistant answer ].

(** The quick replies the asynchronous path attaches to the prompt to
    pair and to a chat answer. *)
Definition HOW_TO_PAIR : list QuickReply :=
  [mkQuick (lit "인증 방법") (lit "/help pair")].
Definition CONTINUE_OR_NEW : list QuickReply :=
  [ mkQuick (lit "계속") (lit "계속해주세요");
    mkQuick (lit "새 주제") (lit "/clear") ].

(** A computation that only adds to the event log. *)
Definition extends (w : World) {A} (m : M w A) : Prop :=
  forall st, exists evs, trace (m st).2 = trace st ++ evs.

(** ** Vocabulary of the further properties *)

(** The units between the bracket and the letter of a control sequence,
    and the letter that ends it. *)
Definition isAnsiParam (c : N) : bool := isDigit c || (c =? 59).
Definition isAnsiFinal (c : N) : bool := isLower c || isUpper c.

(** The commands that clear the history of the session, and the
    handlers that do so. *)
Definition clearingCommands : list jsstring :=
  [lit "/reset"; lit "/new"; lit "/clear"].

(** What running a command can leave behind: nothing, one started child
    process, or the history of [sessionKey] cleared. *)
Inductive CommandEffect (w : World) (sessionKey : jsstring)
    (st st' : State w) : Prop :=
| NoEffect : st' = st -> CommandEffect w sessionKey st st'
| OneExec cmd :
    st' = mkState (store st) (trace st ++ [EvExec cmd]) ->
    CommandEffect w sessionKey st st'
| HistoryCleared :
    st' = mkState (clearConversationHistory w sessionKey (store st))
            (trace st ++ [EvClearHistory sessionKey]) ->
    CommandEffect w sessionKey st st'.

Definition clears (h : HandlerName) : bool :=
  match h with HReset | HNew | HClear => true | _ => false end.

(** The entries of the table that its descriptions give as an alias,
    each with the command it stands for. *)
Definition aliases : list (jsstring * jsstring) :=
  [ (lit "/id", lit "/whoami");
    (lit "/models", lit "/model");
    (lit "/new", lit "/reset");
    (lit "/thinking", lit "/think");
    (lit "/t", lit "/think");
    (lit "/v", lit "/verbose");
    (lit "/reason", lit "/reasoning");
    (lit "/elev", lit "/elevated") ].

(** [a] occurs in [b] as a run of consecutive units. *)
Definition within (a b : jsstring) : Prop := exists l r, b = l ++ a ++ r.

(** The units of a text that are not white space. *)
Definition inked (s : jsstring) : jsstring :=
  List.filter (fun c => negb (isSpace c)) s.

(** A pattern that starts with the marker. *)
Definition leadsWithMarker (p : regex) : Prop :=
  exists r, forall s caps (k : jsstring -> list jsstring -> option MatchResult),
      rmatch true p s caps k = rmatch true (Seq (Char 47) r) s caps k.

(** The events that send something to the callback address. *)
Definition isCallback (ev : Event) : bool :=
  match ev with
  | EvCallback _ _ _ | EvErrorCallback _ _ => true
  | _ => false
  end.

(** A text without white space, and a run of white space. *)
Definition solid (s : jsstring) : Prop :=
  s <> [] /\ forallb (fun c => negb (isSpace c)) s = true.
Definition blank (s : jsstring) : Prop :=
  s <> [] /\ forallb isSpace s = true.

(** Words, each after the white space that separates it from what comes
    before. *)
Definition spaced (sws : list (jsstring * jsstring)) : jsstring :=
  flat_map (fun sw => sw.1 ++ sw.2) sws.

(** The state after one child process was started with [line]. *)
Definition started (w : World) (line : jsstring) (st : State w) : State w :=
  mkState (store st) (trace st ++ [EvExec line]).

(** The lines of a text. *)
Definition textLines (s : jsstring) : list jsstring := splitOn 10 s.

(** * Properties *)

(** Literals stay folded in the proofs; closed terms are evaluated by
    [vm_compute]. *)
Opaque lit.

(** ** Strings *)

Section StringFacts.

Lemma takeWhile_dropWhile {A} (p : A -> bool) (l : list A) :
  takeWhile p l ++ dropWhile p l = l.
Proof.
  induction l as [|x l IH]; simpl; [done|].
  destruct (p x); simpl; [by rewrite IH | done].
Qed.

Lemma dropWhile_all {A} (p : A -> bool) (l : list A) :
  forallb p l = true -> dropWhile p l = [].
Proof.
  induction l as [|x l IH]; simpl; [done|].
  destruct (p x); simpl; [exact IH | discriminate].
Qed.

Lemma dropWhile_head {A} (p : A -> bool) (l : list A) x l' :
  dropWhile p l = x :: l' -> p x = false.
Proof.
  induction l as [|y l IH]; simpl; [discriminate|].
  destruct (p y) eqn:E; [exact IH|].
  intros [= <- _]. exact E.
Qed.

Lemma dropWhile_stop {A} (p : A -> bool) x (l : list A) :
  p x = false -> dropWhile p (x :: l) = x :: l.
Proof. intros H. simpl. by rewrite H. Qed.

Lemma dropWhile_idem {A} (p : A -> bool) (l : list A) :
  dropWhile p (dropWhile p l) = dropWhile p l.
Proof.
  destruct (dropWhile p l) as [|x l'] eqn:E; [done|].
  apply dropWhile_stop. eapply dropWhile_head. exact E.
Qed.

Lemma dropWhile_app_keep {A} (p : A -> bool) (l k : list A) :
  dropWhile p l <> [] -> dropWhile p (l ++ k) = dropWhile p l ++ k.
Proof.
  induction l as [|x l IH]; simpl; [done|].
  destruct (p x); [exact IH | done].
Qed.

(** Dropping the leading run leaves the last element where it is. *)
Lemma dropWhile_last {A} (p : A -> bool) (l : list A) x :
  p x = false -> dropWhile p (l ++ [x]) = dropWhile p l ++ [x].
Proof.
  intros Hx. induction l as [|y l IH]; simpl.
  - by rewrite Hx.
  - destruct (p y); [exact IH | done].
Qed.

Lemma trimEnd_idem (s : jsstring) : trimEnd (trimEnd s) = trimEnd s.
Proof.
  unfold trimEnd. by rewrite rev_involutive, dropWhile_idem.
Qed.

(** Trimming the end keeps a first unit that is no white space. *)
Lemma trimEnd_cons (c : N) (s : jsstring) :
  isSpace c = false -> exists s', trimEnd (c :: s) = c :: s'.
Proof.
  intros Hc. unfold trimEnd. simpl.
  destruct (dropWhile isSpace (rev s)) as [|y r] eqn:E.
  - rewrite dropWhile_last, E by done. simpl. by exists [].
  - rewrite dropWhile_app_keep by (rewrite E; done).
    rewrite rev_app_distr. simpl. eauto.
Qed.

Lemma trimStart_trimEnd (s : jsstring) :
  trimStart (trimEnd (trimStart s)) = trimEnd (trimStart s).
Proof.
  unfold trimStart. destruct (dropWhile isSpace s) as [|c r] eqn:E.
  - reflexivity.
  - assert (Hc : isSpace c = false) by (eapply dropWhile_head; exact E).
    destruct (trimEnd_cons c r Hc) as [s' ->].
    by apply dropWhile_stop.
Qed.

Lemma trim_idem (s : jsstring) : trim (trim s) = trim s.
Proof.
  unfold trim. by rewrite trimStart_trimEnd, trimEnd_idem.
Qed.

Lemma startsWith_app (p r : jsstring) : startsWith p (p ++ r) = true.
Proof.
  induction p as [|a p IH]; simpl; [done|]. by rewrite N.eqb_refl.
Qed.

Lemma startsWith_spec (p s : jsstring) :
  startsWith p s = true <-> exists r, s = p ++ r.
Proof.
  split.
  - revert s. induction p as [|a p IH]; intros s H; simpl in *; [by eauto|].
    destruct s as [|b s]; [done|].
    apply andb_true_iff in H as [Hab Hp]. apply N.eqb_eq in Hab as ->.
    destruct (IH _ Hp) as [r ->]. by exists r.
  - intros [r ->]. apply startsWith_app.
Qed.

Lemma includes_app (sub a b : jsstring) :
  includes sub (a ++ sub ++ b) = true.
Proof.
  induction a as [|x a IH]; simpl.
  - destruct sub as [|y sub]; simpl; [by destruct b|].
    by rewrite N.eqb_refl, startsWith_app.
  - rewrite IH. apply orb_true_r.
Qed.

Lemma includes_suffix (sub a : jsstring) : includes sub (a ++ sub) = true.
Proof. rewrite <- (app_nil_r sub) at 2. apply includes_app. Qed.

End StringFacts.

(** ** Lower case *)

Lemma codePoints_single c s :
  isHighSurrogate c = false -> codePoints (c :: s) = c :: codePoints s.
Proof. intros H. cbn [codePoints]. destruct s; [done|]. by rewrite H. Qed.

Lemma codePoints_pair c d rest :
  codePoints (c :: d :: rest)
  = if isHighSurrogate c && isLowSurrogate d
    then (65536 + (c - 55296) * 1024 + (d - 56320)) :: codePoints rest
    else c :: codePoints (d :: rest).
Proof. reflexivity. Qed.

Lemma lowerRuns_high :
  forallb (fun r : N * N * N * N =>
             let '(lo, hi, _, to) := r in
             (128 <=? lo)
             && ((128 <=? to) || ((lo =? KELVIN) && (hi =? KELVIN))))
    lowerRuns = true.
Proof. by vm_compute. Qed.

Lemma simpleLower_high cp : 128 <= cp -> cp <> KELVIN -> 128 <= simpleLower cp.
Proof.
  intros Hcp Hk. unfold simpleLower.
  rewrite (proj2 (N.ltb_ge cp 128)) by done.
  destruct (find (inRun cp) lowerRuns) as [[[[lo hi] stride] to]|] eqn:E;
    [|done].
  apply find_some in E as [Hin Hrun].
  pose proof lowerRuns_high as H. rewrite forallb_forall in H.
  apply H in Hin. unfold inRun in Hrun.
  apply andb_true_iff in Hrun as [Hrun _].
  apply andb_true_iff in Hrun as [Hlo Hhi].
  apply N.leb_le in Hlo, Hhi.
  apply andb_true_iff in Hin as [_ Hin]. apply orb_true_iff in Hin as [Hin|Hin].
  - apply N.leb_le in Hin. lia.
  - apply andb_true_iff in Hin as [H1 H2]. apply N.eqb_eq in H1, H2. lia.
Qed.

Lemma utf16_units_high x :
  128 <= x ->
  utf16_units x <> [] /\ forallb (fun y => 128 <=? y) (utf16_units x) = true.
Proof.
  intros Hx. unfold utf16_units. destruct (x <? 65536); cbn [forallb].
  - split; [done|]. by rewrite (proj2 (N.leb_le 128 x)).
  - split; [done|].
    rewrite (proj2 (N.leb_le 128 (55296 + _))) by lia.
    by rewrite (proj2 (N.leb_le 128 (56320 + _))) by lia.
Qed.

Lemma asciiLower_small c : c < 128 -> asciiLower c < 128.
Proof.
  unfold asciiLower, isUpper. intros Hc.
  destruct ((65 <=? c) && (c <=? 90)) eqn:E; [|done].
  apply andb_true_iff in E as [_ E]. apply N.leb_le in E. lia.
Qed.

(** The lower-case form of a string by its first unit: an ASCII unit
    gives its ASCII form, the Kelvin sign gives [k], U+0130 gives [i]
    and U+0307, and anything else gives units outside ASCII. *)
Lemma lowerFrom_cons before c s :
  (c < 128
   /\ lowerFrom before (c :: s) = asciiLower c :: lowerFrom (c :: before) s)
  \/ (c = KELVIN
      /\ lowerFrom before (c :: s) = 107 :: lowerFrom (c :: before) s)
  \/ (c = 304
      /\ lowerFrom before (c :: s) = 105 :: 775 :: lowerFrom (c :: before) s)
  \/ (128 <= c
      /\ exists x out before' s',
          lowerFrom before (c :: s) = x :: out ++ lowerFrom before' s'
          /\ 128 <= x
          /\ forallb (fun y => 128 <=? y) out = true
          /\ (length s' <= length s)%nat).
Proof.
  assert (Hout : forall cp cps b,
             128 <= cp -> cp <> KELVIN -> cp <> 304 ->
             exists x out,
               flat_map utf16_units (lowerPoints b (cp :: cps))
               = x :: out ++ flat_map utf16_units (lowerPoints (cp :: b) cps)
               /\ 128 <= x /\ forallb (fun y => 128 <=? y) out = true).
  { intros cp cps b Hcp Hk Hi. cbn [lowerPoints]. rewrite flat_map_app.
    assert (Hhead : exists y, 128 <= y /\
               (if cp =? 931
                then [if finalSigma b cps then 962 else 963]
                else lowerPoint cp) = [y]).
    { destruct (cp =? 931).
      - destruct (finalSigma b cps); eexists; (split; [|done]); lia.
      - unfold lowerPoint. rewrite (proj2 (N.eqb_neq cp 304)) by done.
        eexists. split; [|done]. by apply simpleLower_high. }
    destruct Hhead as (y & Hy & ->). cbn [flat_map]. rewrite app_nil_r.
    destruct (utf16_units_high y Hy) as [Hne Hall].
    destruct (utf16_units y) as [|x out]; [done|]. cbn [forallb] in Hall.
    apply andb_true_iff in Hall as [Hx Hall]. apply N.leb_le in Hx.
    by exists x, out. }
  unfold lowerFrom.
  destruct (isHighSurrogate c) eqn:Ehi.
  - right; right; right.
    assert (Hc : 55296 <= c <= 56319).
    { unfold isHighSurrogate in Ehi. apply andb_true_iff in Ehi as [H1 H2].
      apply N.leb_le in H1, H2. lia. }
    split; [lia|].
    destruct s as [|d rest].
    + cbn [codePoints].
      destruct (Hout c [] before) as (x & out & -> & Hx & Hall);
        [lia|unfold KELVIN; lia|lia|].
      by exists x, out, (c :: before), [].
    + rewrite codePoints_pair, Ehi. destruct (isLowSurrogate d); cbn [andb].
      * destruct (Hout (65536 + (c - 55296) * 1024 + (d - 56320))
                    (codePoints rest) before)
          as (x & out & -> & Hx & Hall); [lia|unfold KELVIN; lia|lia|].
        exists x, out, ((65536 + (c - 55296) * 1024 + (d - 56320)) :: before),
          rest.
        repeat split; try done. cbn [length]. lia.
      * destruct (Hout c (codePoints (d :: rest)) before)
          as (x & out & -> & Hx & Hall); [lia|unfold KELVIN; lia|lia|].
        by exists x, out, (c :: before), (d :: rest).
  - rewrite codePoints_single by done.
    destruct (decide (c < 128)) as [Hc|Hc].
    { left. split; [done|]. cbn [lowerPoints].
      rewrite (proj2 (N.eqb_neq c 931)) by lia. unfold lowerPoint.
      rewrite (proj2 (N.eqb_neq c 304)) by lia.
      unfold simpleLower. rewrite (proj2 (N.ltb_lt c 128)) by done.
      cbn [app flat_map]. unfold utf16_units at 1.
      pose proof (asciiLower_small c Hc).
      by rewrite (proj2 (N.ltb_lt (asciiLower c) 65536)) by lia. }
    destruct (decide (c = KELVIN)) as [->|Hk];
      [right; left; split; [done|]; reflexivity|].
    destruct (decide (c = 304)) as [->|Hi];
      [right; right; left; split; [done|]; reflexivity|].
    right; right; right. split; [lia|].
    destruct (Hout c (codePoints s) before)
      as (x & out & -> & Hx & Hall); [lia|done|done|].
    by exists x, out, (c :: before), s.
Qed.

Lemma asciiLower_marker c : asciiLower c = 47 -> c = 47.
Proof.
  unfold asciiLower, isUpper.
  destruct ((65 <=? c) && (c <=? 90)) eqn:E; [|done].
  apply andb_true_iff in E as [E _]. apply N.leb_le in E. lia.
Qed.

(** Only the marker gives the marker as the first unit. *)
Lemma lowerFrom_marker before c s l :
  lowerFrom before (c :: s) = 47 :: l ->
  c = 47 /\ l = lowerFrom (c :: before) s.
Proof.
  destruct (lowerFrom_cons before c s)
    as [[_ ->]|[[_ ->]|[[_ ->]|[_ (x & out & b' & s' & -> & Hx & _)]]]];
    intros H; try discriminate H; injection H as H1 H2; [|lia].
  apply asciiLower_marker in H1. by subst.
Qed.

Lemma lowerFrom_nonempty before c s : lowerFrom before (c :: s) <> [].
Proof.
  by destruct (lowerFrom_cons before c s)
    as [[_ ->]|[[_ ->]|[[_ ->]|[_ (x & out & b' & s' & -> & _)]]]].
Qed.

Lemma toLowerCase_marker s : toLowerCase s = [47] -> s = [47].
Proof.
  destruct s as [|c s]; [done|]. unfold toLowerCase. intros H.
  apply lowerFrom_marker in H as [-> H].
  destruct s as [|d s]; [done|]. symmetry in H.
  by apply lowerFrom_nonempty in H.
Qed.

(** An ASCII text at the head of a string is lower-cased unit by unit,
    whatever follows. *)
Lemma lowerFrom_ascii_app before (a s : jsstring) :
  forallb (fun c => c <? 128) a = true ->
  lowerFrom before (a ++ s) = map asciiLower a ++ lowerFrom (rev a ++ before) s.
Proof.
  revert before. induction a as [|c a IH]; intros before Ha; [done|].
  cbn [forallb] in Ha. apply andb_true_iff in Ha as [Hc Ha].
  apply N.ltb_lt in Hc. cbn [app map rev].
  destruct (lowerFrom_cons before c (a ++ s))
    as [[_ ->]|[[-> _]|[[-> _]|[? _]]]];
    [|unfold KELVIN in Hc; lia|lia|lia].
  by rewrite IH, <- app_assoc.
Qed.

Lemma toLowerCase_ascii_app (a s : jsstring) :
  forallb (fun c => c <? 128) a = true ->
  toLowerCase (a ++ s) = map asciiLower a ++ lowerFrom (rev a) s.
Proof.
  intros Ha. unfold toLowerCase. rewrite lowerFrom_ascii_app by done.
  by rewrite app_nil_r.
Qed.

Lemma toLowerCase_ascii (a : jsstring) :
  forallb (fun c => c <? 128) a = true -> toLowerCase a = map asciiLower a.
Proof.
  intros Ha. rewrite <- (app_nil_r a) at 1.
  rewrite toLowerCase_ascii_app by done. apply app_nil_r.
Qed.

Lemma toLowerCase_cons_ascii c s :
  c < 128 -> toLowerCase (c :: s) = asciiLower c :: lowerFrom [c] s.
Proof.
  intros Hc. apply (toLowerCase_ascii_app [c] s). cbn.
  by rewrite (proj2 (N.ltb_lt c 128)).
Qed.

Lemma asciiLower_no_upper c : isUpper (asciiLower c) = false.
Proof.
  unfold asciiLower. destruct (isUpper c) eqn:E; [|done].
  unfold isUpper in *. apply andb_true_iff in E as [E _]. apply N.leb_le in E.
  rewrite (proj2 (N.leb_gt (c + 32) 90)) by lia. apply andb_false_r.
Qed.

Lemma high_no_upper x : 128 <= x -> isUpper x = false.
Proof.
  intros Hx. unfold isUpper. rewrite (proj2 (N.leb_gt x 90)) by lia.
  apply andb_false_r.
Qed.

Lemma lowerFrom_no_upper before s :
  forallb (fun c => negb (isUpper c)) (lowerFrom before s) = true.
Proof.
  remember (length s) as n eqn:Hn. revert before s Hn.
  induction n as [n IH] using (well_founded_induction Nat.lt_wf_0). intros before s ->.
  destruct s as [|c s]; [done|].
  destruct (lowerFrom_cons before c s)
    as [[_ ->]|[[_ ->]|[[_ ->]
        |[_ (x & out & b' & s' & -> & Hx & Hout & Hlen)]]]];
    cbn [forallb].
  - rewrite asciiLower_no_upper. apply (IH (length s)); [cbn; lia|done].
  - apply (IH (length s)); [cbn; lia|done].
  - apply (IH (length s)); [cbn; lia|done].
  - rewrite (high_no_upper x Hx), forallb_app. cbn [negb andb].
    rewrite (IH (length s')) by (cbn; lia || done). rewrite andb_true_r.
    apply forallb_forall. intros y Hy. rewrite forallb_forall in Hout.
    apply Hout, N.leb_le in Hy. by rewrite high_no_upper.
Qed.

Lemma toLowerCase_no_upper s :
  forallb (fun c => negb (isUpper c)) (toLowerCase s) = true.
Proof. apply lowerFrom_no_upper. Qed.

(** ** The matcher *)

Section MatcherFacts.
Context {A : Type}.

(** A repetition whose continuation accepts the longest run stops
    there. *)
Lemma star_greedy (p : N -> bool) (s : jsstring) (k : jsstring -> option A) a :
  k (dropWhile p s) = Some a -> star p s k = Some a.
Proof.
  induction s as [|c s IH]; simpl; [done|].
  destruct (p c); [|done].
  intros H. by rewrite (IH H).
Qed.

Lemma star_from_k (p : N -> bool) (s : jsstring) (k : jsstring -> option A) a :
  star p s k = Some a -> exists s', k s' = Some a.
Proof.
  induction s as [|c s IH]; simpl; [by eauto|].
  destruct (p c); [|by eauto].
  destruct (star p s k) eqn:E; [|by eauto].
  intros [= <-]. by apply IH.
Qed.

(** Whatever a match returns was returned by its continuation. *)
Lemma rmatch_from_k ic (r : regex) :
  forall s caps (k : jsstring -> list jsstring -> option A) a,
    rmatch ic r s caps k = Some a -> exists s' caps', k s' caps' = Some a.
Proof.
  induction r as [|c|p|r1 IH1 r2 IH2|r1 IH1 r2 IH2|p|r IH];
    intros s caps k a; simpl.
  - by eauto.
  - destruct s as [|x s]; [done|]. destruct (_ =? _); [by eauto | done].
  - destruct s as [|x s]; [done|]. destruct (p x); [by eauto | done].
  - intros H. apply IH1 in H as (s1 & caps1 & H). by apply IH2 in H.
  - destruct (rmatch ic r1 s caps k) eqn:E.
    + intros [= <-]. by apply IH1 in E.
    + by apply IH2.
  - intros H. apply star_from_k in H as [s' H]. by eauto.
  - intros H. apply IH in H as (s1 & caps1 & H). by eauto.
Qed.

End MatcherFacts.

Lemma exec_prefix ic r s m :
  exec ic r s = Some m -> exists n, matched m = take n s.
Proof.
  unfold exec. intros H. apply rmatch_from_k in H as (s' & caps & [= <-]).
  simpl. by eauto.
Qed.

Lemma removeFirst_take n (s : jsstring) : removeFirst (take n s) s = drop n s.
Proof.
  assert (Hs : startsWith (take n s) s = true).
  { apply startsWith_spec. exists (drop n s). by rewrite take_drop. }
  destruct s as [|c s]; simpl in *.
  - by destruct n.
  - rewrite Hs. destruct n as [|n]; simpl; [done|].
    rewrite length_take. destruct (decide (n <= length s)%nat).
    + by rewrite Nat.min_l.
    + rewrite Nat.min_r by lia. by rewrite !drop_ge by lia.
Qed.

(** What [replace] takes out of a subject is the prefix just matched. *)
Lemma removeFirst_matched ic r s m :
  exec ic r s = Some m ->
  s = matched m ++ removeFirst (matched m) s.
Proof.
  intros H. destruct (exec_prefix _ _ _ _ H) as [n ->].
  by rewrite removeFirst_take, take_drop.
Qed.

(** ** Directive extraction *)

Lemma directiveStep_cases a p :
  (exists m, exec true p (cleanMessage a) = Some m
             /\ directiveStep a p =
                mkExtracted (directives a ++ [trim (matched m)])
                  (trim (removeFirst (matched m) (cleanMessage a))))
  \/ (exec true p (cleanMessage a) = None /\ directiveStep a p = a).
Proof.
  unfold directiveStep. destruct (exec true p (cleanMessage a)); by eauto.
Qed.

Lemma Extracts_foldl ps a : Extracts ps a (foldl directiveStep a ps).
Proof.
  revert a. induction ps as [|p ps IH]; intros a; simpl; [constructor|].
  destruct (directiveStep_cases a p) as [(m & E & ->)|[E ->]].
  - eapply Extracts_match; [exact E | by eapply removeFirst_matched | apply IH].
  - by apply Extracts_skip.
Qed.

Lemma Extracts_unique ps a b :
  Extracts ps a b -> b = foldl directiveStep a ps.
Proof.
  induction 1 as [a|p ps a m rest b E Hrest _ IH|p ps a b E _ IH]; simpl.
  - done.
  - destruct (directiveStep_cases a p) as [(m' & E' & ->)|[E' _]];
      [|congruence].
    assert (m' = m) as -> by congruence.
    pose proof (removeFirst_matched _ _ _ _ E) as H.
    rewrite Hrest in H at 1. apply app_inv_head in H. by rewrite <- H.
  - destruct (directiveStep_cases a p) as [(m' & E' & _)|[_ ->]];
      [congruence | done].
Qed.

(** The directives only grow; as long as none was added the state is
    the initial one, and once one was added the remainder is trimmed. *)
Lemma foldl_directiveStep_inv ps a b :
  b = foldl directiveStep a ps ->
  (length (directives a) <= length (directives b))%nat
  /\ (length (directives b) = length (directives a) -> b = a)
  /\ (trim (cleanMessage a) = cleanMessage a \/
      (length (directives a) < length (directives b))%nat ->
      trim (cleanMessage b) = cleanMessage b).
Proof.
  revert a b. induction ps as [|p ps IH]; intros a b ->; simpl.
  - split; [lia|]. split; [done|]. intros [H|H]; [done | lia].
  - destruct (IH (directiveStep a p) _ eq_refl) as (Hle & Hsame & Htrim).
    destruct (directiveStep_cases a p) as [(m & _ & Hstep)|[_ Hstep]];
      rewrite Hstep in Hle, Hsame, Htrim |- *; [|done].
    simpl in Hle, Htrim. rewrite length_app in Hle. simpl in Hle.
    split; [lia|]. split; [lia|]. intros _. apply Htrim. left. apply trim_idem.
Qed.

(** C4, as stated, fails on a message no pattern matches: nothing is
    removed from ["  hello "], and the clean message handed back is that
    text with its blanks, not the trimmed one. *)
Lemma C4_untrimmed_without_directive :
  directives (extractDirectives (lit "  hello ")) = []
  /\ cleanMessage (extractDirectives (lit "  hello ")) = lit "  hello "
  /\ cleanMessage (extractDirectives (lit "  hello ")) <> trim (lit "  hello ").
Proof. vm_compute. repeat split; discriminate. Qed.

(** C4, amended: [extractDirectives] takes the directive patterns once
    each, in the order of the list, against the current remainder; a
    pattern that matches appends its matched prefix, trimmed, to the
    directives and leaves what follows the prefix, trimmed, as the
    remainder; this determines the result.  When no pattern matched the
    clean message is the message as given (not trimmed); otherwise it is
    trimmed at both ends.  On ["/think high explain this"] the
    directives are [["/think high"]] and the clean message is
    ["explain this"]. *)
Theorem C4_extractDirectives_in_pattern_order (msg : jsstring) :
  Extracts directivePatterns (mkExtracted [] msg) (extractDirectives msg)
  /\ (forall b, Extracts directivePatterns (mkExtracted [] msg) b ->
                b = extractDirectives msg)
  /\ (directives (extractDirectives msg) = [] ->
      cleanMessage (extractDirectives msg) = msg)
  /\ (directives (extractDirectives msg) <> [] ->
      trim (cleanMessage (extractDirectives msg))
      = cleanMessage (extractDirectives msg))
  /\ extractDirectives (lit "/think high explain this")
     = mkExtracted [lit "/think high"] (lit "explain this").
Proof.
  pose proof (foldl_directiveStep_inv directivePatterns
                (mkExtracted [] msg) _ eq_refl) as (_ & Hsame & Htrim).
  fold (extractDirectives msg) in Hsame, Htrim. simpl in Hsame, Htrim.
  split; [apply Extracts_foldl|].
  split; [intros b Hb; by apply Extracts_unique|].
  split.
  - intros H. rewrite Hsame; [done|]. by rewrite H.
  - split; [|by vm_compute].
    intros H. apply Htrim. right.
    destruct (directives (extractDirectives msg)); [done | simpl; lia].
Qed.

(** ** The command parser *)

Lemma star_greedy_eq {A} (p : N -> bool) (s : jsstring) (k : jsstring -> option A) :
  is_Some (k (dropWhile p s)) -> star p s k = k (dropWhile p s).
Proof. intros [a Ha]. rewrite Ha. by apply star_greedy. Qed.

Lemma take_takeWhile {A} (p : A -> bool) (s : list A) :
  take (length s - length (dropWhile p s)) s = takeWhile p s.
Proof.
  rewrite <- (takeWhile_dropWhile p s) at 1 3.
  rewrite length_app. apply take_app_length'. lia.
Qed.

(** The part of the command pattern after the token and the colon:
    white space, then the rest of the line as the second group. *)
Lemma commandPattern_tail (s0 g1 s : jsstring) :
  star isSpace s
    (fun s1 =>
       star (fun c => negb (isLineTerminator c)) s1
         (fun s2 =>
            Some (mkMatch (take (length s0 - length s2) s0)
                    (([] ++ [g1]) ++ [take (length s1 - length s2) s1]))))
  = Some (mkMatch
            (take (length s0 - length (dropWhile (fun c => negb (isLineTerminator c)) (dropWhile isSpace s))) s0)
            [g1; restOfLine (dropWhile isSpace s)]).
Proof.
  rewrite star_greedy_eq; rewrite star_greedy_eq; try by eauto.
  simpl. by rewrite take_takeWhile.
Qed.

Lemma commandPattern_match c rest :
  isWord c = true ->
  exists m0,
    exec false commandPattern (47 :: c :: rest)
    = Some (mkMatch m0
              [ 47 :: takeWhile isWord (c :: rest);
                restOfLine
                  (dropWhile isSpace (skipColon (dropWhile isWord rest))) ]).
Proof.
  intros Hc. unfold exec, commandPattern, cat, Plus, Opt. simpl foldr.
  cbn [rmatch canon andb]. rewrite N.eqb_refl, Hc.
  assert (Hg : take (length (47 :: c :: rest) - length (dropWhile isWord rest))
                 (47 :: c :: rest) = 47 :: takeWhile isWord (c :: rest)).
  { simpl takeWhile. rewrite Hc.
    rewrite <- (takeWhile_dropWhile isWord rest) at 1 3.
    change (47 :: c :: ?a ++ ?b) with ((47 :: c :: a) ++ b).
    rewrite length_app. apply take_app_length'. lia. }
  exists (take (length (47 :: c :: rest)
                 - length (dropWhile (fun c => negb (isLineTerminator c))
                             (dropWhile isSpace
                                (skipColon (dropWhile isWord rest)))))
            (47 :: c :: rest)).
  rewrite star_greedy_eq.
  - rewrite Hg.
    destruct (dropWhile isWord rest) as [|x r] eqn:E; simpl skipColon.
    + apply commandPattern_tail.
    + destruct (x =? 58); rewrite commandPattern_tail; reflexivity.
  - rewrite Hg.
    destruct (dropWhile isWord rest) as [|x r] eqn:E.
    + rewrite commandPattern_tail. eauto.
    + destruct (x =? 58); rewrite commandPattern_tail; eauto.
Qed.

Lemma commandPattern_no_match s :
  (forall c rest, s = 47 :: c :: rest -> isWord c = false) ->
  exec false commandPattern s = None.
Proof.
  intros H. unfold exec, commandPattern, cat, Plus, Opt. simpl foldr.
  cbn [rmatch canon andb].
  destruct s as [|x [|c rest]]; [done | by destruct (x =? 47) |].
  destruct (x =? 47) eqn:E; [|done].
  apply N.eqb_eq in E as ->. by rewrite (H c rest eq_refl).
Qed.

Lemma parseCommand_match msg c rest :
  trim msg = 47 :: c :: rest -> isWord c = true ->
  parseCommand msg
  = mkParsed (toLowerCase (47 :: takeWhile isWord (c :: rest)))
      (trim (restOfLine
               (dropWhile isSpace (skipColon (dropWhile isWord rest))))).
Proof.
  intros Ht Hc. unfold parseCommand. rewrite Ht.
  destruct (commandPattern_match c rest Hc) as [m0 ->]. reflexivity.
Qed.

Lemma parseCommand_no_match msg :
  (forall c rest, trim msg = 47 :: c :: rest -> isWord c = false) ->
  parseCommand msg = mkParsed (toLowerCase (trim msg)) [].
Proof.
  intros H. unfold parseCommand. by rewrite commandPattern_no_match.
Qed.

(** C5, as stated, fails on a message of more than one line: the
    second group of the pattern stops at the first line terminator, so
    of the remainder ["a\nb"] of ["/model a\nb"] only ["a"] becomes the
    arguments. *)
Lemma C5_arguments_stop_at_line_end :
  trim (lit "/model a" ++ nl ++ lit "b")
  = lit "/model" ++ lit " " ++ (lit "a" ++ nl ++ lit "b")
  /\ parseCommand (lit "/model a" ++ nl ++ lit "b")
     = mkParsed (lit "/model") (lit "a")
  /\ args (parseCommand (lit "/model a" ++ nl ++ lit "b"))
     <> trim (lit "a" ++ nl ++ lit "b").
Proof. vm_compute. repeat split; discriminate. Qed.

(** C5, amended: [parseCommand] trims its input.  When the trimmed input
    is the marker followed by a word character, the command is the
    marker and the longest run of word characters, in lower case, and
    the arguments are what follows an optional colon and white space up
    to the end of that line, trimmed.  Otherwise the command is the whole
    trimmed input in lower case and the arguments are empty.  Both
    ["/model: opus"] and ["/model opus"] give the command ["/model"] and
    the arguments ["opus"]. *)
Theorem C5_parseCommand_shape (msg : jsstring) :
  (forall c rest,
      trim msg = 47 :: c :: rest -> isWord c = true ->
      parseCommand msg
      = mkParsed (toLowerCase (47 :: takeWhile isWord (c :: rest)))
          (trim (restOfLine
                   (dropWhile isSpace (skipColon (dropWhile isWord rest))))))
  /\ ((forall c rest, trim msg = 47 :: c :: rest -> isWord c = false) ->
      parseCommand msg = mkParsed (toLowerCase (trim msg)) [])
  /\ parseCommand (lit "/model: opus") = mkParsed (lit "/model") (lit "opus")
  /\ parseCommand (lit "/model opus") = mkParsed (lit "/model") (lit "opus").
Proof.
  split; [intros c rest; apply parseCommand_match|].
  split; [apply parseCommand_no_match|].
  split; by vm_compute.
Qed.
(** ** The command handler *)

Create HintDb comp discriminated.
#[local] Hint Unfold mbind mret fmap M_bind M_ret M_fmap bind ret throw
  tryCatch emit getStore modifyStore : comp.

Ltac comp_simpl := autounfold with comp; cbn beta iota.

Lemma blank_test (out : jsstring) :
  (if negb (truthy out) || bool_decide (trim out = []) then ACK else out)
  = settled out.
Proof.
  unfold settled. by destruct out.
Qed.

Section HandlerFacts.
Context (w : World).

Lemma runCli_eq cmd (st : State w) :
  runCli w cmd st
  = (match execAsync w cmd with
     | ExecOk stdout stderr =>
         Ret (trim (stripAnsi (if truthy stdout then stdout else stderr)))
     | ExecErr error =>
         if truthy (errStdout error)
         then Ret (trim (stripAnsi (errStdout error)))
         else Throw error
     end,
     mkState (store st) (trace st ++ [EvExec cmd])).
Proof.
  unfold runCli. comp_simpl.
  destruct (execAsync w cmd) as [so se|e]; [done|].
  by destruct (truthy (errStdout e)).
Qed.

Lemma handleCommand_unfold msg sessionKey (st : State w) :
  handleCommand w msg sessionKey st
  = if negb (isCommand msg) then (Ret notHandled, st)
    else if bool_decide (command (parseCommand msg) = lit "/pair")
    then (Ret notHandled, st)
    else
      match computeResponse w (command (parseCommand msg))
              (args (parseCommand msg)) sessionKey st with
      | (Ret (inl early), st') => (Ret early, st')
      | (Ret (inr out), st') =>
          (Ret (mkResult true (Some (settled out)) None
                  (if bool_decide (command (parseCommand msg) = lit "/")
                   then Some QUICK_COMMANDS else None)), st')
      | (Throw e, st') =>
          (Ret (mkResult true (Some (errorText e)) None None), st')
      end.
Proof.
  unfold handleCommand. destruct (negb (isCommand msg)); [done|].
  destruct (bool_decide (command (parseCommand msg) = lit "/pair")); [done|].
  comp_simpl.
  destruct (computeResponse w _ _ sessionKey st) as [[[early|out]|e] st'];
    [done| |done].
  rewrite blank_test. by destruct (bool_decide _).
Qed.


Lemma computeResponse_unknown cmd args0 sessionKey (st : State w) :
  COMMANDS !! cmd = None ->
  computeResponse w cmd args0 sessionKey st
  = match runCli w (forwardedCommand cmd args0) st with
    | (Ret out, st') => (Ret (inr out), st')
    | (Throw e, st') =>
        if isUnknownCommandError e then (Ret (inl notHandled), st')
        else (Throw e, st')
    end.
Proof.
  intros Hcmd. unfold computeResponse. rewrite Hcmd.
  replace (if truthy args0
           then lit "clawdbot " ++ slice1 cmd ++ lit " " ++ args0
           else lit "clawdbot " ++ slice1 cmd)
    with (forwardedCommand cmd args0).
  2:{ unfold forwardedCommand. destruct (truthy args0); [done|].
      by rewrite app_nil_r. }
  comp_simpl.
  destruct (runCli w (forwardedCommand cmd args0) st) as [[out|e] st'];
    [done|].
  by destruct (isUnknownCommandError e).
Qed.

(** The only early return is the one that reports the message as not
    handled. *)
Lemma computeResponse_early cmd args0 sessionKey (st st' : State w) early :
  computeResponse w cmd args0 sessionKey st = (Ret (inl early), st') ->
  early = notHandled.
Proof.
  unfold computeResponse. destruct (COMMANDS !! cmd) as [info|].
  - destruct (handler info) as [h|]; [|destruct (cli info) as [c|]];
      comp_simpl.
    + by destruct (callHandler w h args0 sessionKey st) as [[out|e] st1].
    + by destruct (runCli w _ st) as [[out|e] st1].
    + done.
  - comp_simpl. destruct (runCli w _ st) as [[out|e] st1]; [done|].
    destruct (isUnknownCommandError e); [|done]. by intros [= <- _].
Qed.

End HandlerFacts.

Lemma lit_marker : lit "/" = [47].
Proof. by vm_compute. Qed.

Lemma parseCommand_root msg :
  command (parseCommand msg) = lit "/" -> trim msg = [47].
Proof.
  rewrite lit_marker. intros H.
  destruct (trim msg) as [|x [|c rest]] eqn:Et.
  - rewrite parseCommand_no_match in H by (rewrite Et; done).
    rewrite Et in H. done.
  - rewrite parseCommand_no_match in H by (rewrite Et; done).
    rewrite Et in H. cbn [command] in H. by apply toLowerCase_marker in H.
  - destruct (decide (x = 47 /\ isWord c = true)) as [[-> Hc]|Hn].
    + rewrite (parseCommand_match _ _ _ Et Hc) in H. cbn [command] in H.
      apply toLowerCase_marker in H. cbn [takeWhile] in H.
      by rewrite Hc in H.
    + rewrite parseCommand_no_match in H.
      * rewrite Et in H. cbn [command] in H.
        apply toLowerCase_marker in H. done.
      * rewrite Et. intros c' rest' [= -> -> ->].
        destruct (isWord c') eqn:E; [|done]. by destruct Hn.
Qed.

Lemma isCommand_root msg :
  command (parseCommand msg) = lit "/" -> isCommand msg = true.
Proof.
  intros H. unfold isCommand. rewrite (parseCommand_root _ H), lit_marker.
  reflexivity.
Qed.

Lemma COMMANDS_root :
  COMMANDS !! lit "/" = Some (byHandler HRoot "명령어 목록 선택").
Proof. by vm_compute. Qed.

Lemma errorText_nonempty e : errorText e <> [].
Proof.
  unfold errorText, lines. cbn [join].
  destruct (lit "❌ 명령어 실행 중 오류가 발생했습니다."); discriminate.
Qed.

Lemma settled_nonempty out : settled out <> [].
Proof.
  unfold settled. case_bool_decide as H.
  - by vm_compute.
  - intros ->. by apply H.
Qed.

Lemma settled_blank out : trim out = [] -> settled out = ACK.
Proof. intros H. unfold settled. by rewrite bool_decide_true. Qed.

(** C2: the result of [handleCommand] never carries a response when it
    is not handled, and always carries a non-empty one when it is
    handled; a command whose output is empty or blank is answered with
    the fixed acknowledgement.  The function returns on every input: it
    does not throw. *)
Theorem C2_handled_iff_response (w : World) (msg sessionKey : jsstring)
    (st : State w) :
  exists r st',
    handleCommand w msg sessionKey st = (Ret r, st')
    /\ (handled r = false -> response r = None)
    /\ (handled r = true -> exists s, response r = Some s /\ s <> [])
    /\ (forall out st1,
          isCommand msg = true ->
          command (parseCommand msg) <> lit "/pair" ->
          computeResponse w (command (parseCommand msg))
            (args (parseCommand msg)) sessionKey st = (Ret (inr out), st1) ->
          trim out = [] ->
          handled r = true /\ response r = Some ACK)
    /\ ACK <> [].
Proof.
  assert (Hack : ACK <> []) by (by vm_compute).
  rewrite handleCommand_unfold.
  destruct (isCommand msg) eqn:Ecmd; cbn [negb].
  2:{ by exists notHandled, st. }
  case_bool_decide as Hpair.
  { by exists notHandled, st. }
  destruct (computeResponse w _ _ sessionKey st) as [[[early|out]|e] st']
    eqn:Ecomp.
  - apply computeResponse_early in Ecomp as ->.
    by exists notHandled, st'.
  - eexists _, st'. split; [reflexivity|]. cbn [handled response].
    split; [done|]. split.
    + intros _. eexists. split; [done|]. apply settled_nonempty.
    + split; [|done].
      intros out' st1 _ _ [= <- _] Hb. by rewrite settled_blank.
  - eexists _, st'. split; [reflexivity|]. cbn [handled response].
    split; [done|]. split.
    + intros _. eexists. split; [done|]. apply errorText_nonempty.
    + done.
Qed.

Lemma COMMANDS_root_absent cmd : COMMANDS !! cmd = None -> cmd <> lit "/".
Proof. intros H ->. by rewrite COMMANDS_root in H. Qed.

(** C1: a command token that is not in the table (and is not the
    pairing token) is forwarded to the external program: the command
    line is the program name, the token without its marker and, only
    when they are not empty, the arguments; it is the one thing the
    handler runs.  An error of that run whose message contains
    ["not recognized"], ["unknown"] or ["is not"] makes the handler
    report the message as not handled; any other error is answered,
    handled, with the error text; an output is answered as it is, or
    with the acknowledgement when it is blank. *)
Theorem C1_unknown_command_forwarded (w : World) (msg sessionKey : jsstring)
    (st : State w) :
  isCommand msg = true ->
  command (parseCommand msg) <> lit "/pair" ->
  COMMANDS !! command (parseCommand msg) = None ->
  let fullCommand :=
    lit "clawdbot " ++ slice1 (command (parseCommand msg))
      ++ (if truthy (args (parseCommand msg))
          then lit " " ++ args (parseCommand msg) else []) in
  trace (handleCommand w msg sessionKey st).2
  = trace st ++ [EvExec fullCommand]
  /\ (forall e st1,
        runCli w fullCommand st = (Throw e, st1) ->
        includes (lit "not recognized") (errMessage e)
        || includes (lit "unknown") (errMessage e)
        || includes (lit "is not") (errMessage e) = true ->
        handleCommand w msg sessionKey st = (Ret notHandled, st1))
  /\ (forall e st1,
        runCli w fullCommand st = (Throw e, st1) ->
        includes (lit "not recognized") (errMessage e)
        || includes (lit "unknown") (errMessage e)
        || includes (lit "is not") (errMessage e) = false ->
        handleCommand w msg sessionKey st
        = (Ret (mkResult true (Some (errorText e)) None None), st1))
  /\ (forall out st1,
        runCli w fullCommand st = (Ret out, st1) ->
        handleCommand w msg sessionKey st
        = (Ret (mkResult true (Some (settled out)) None None), st1)).
Proof.
  intros Hcmd Hpair Htable fullCommand.
  pose proof (COMMANDS_root_absent _ Htable) as Hroot.
  rewrite handleCommand_unfold, Hcmd. cbn [negb].
  rewrite (bool_decide_false _ Hpair), (bool_decide_false _ Hroot).
  rewrite computeResponse_unknown by done.
  fold fullCommand. unfold forwardedCommand. fold fullCommand.
  pose proof (runCli_eq w fullCommand st) as Hrun.
  destruct (runCli w fullCommand st) as [[out|e] st'] eqn:E.
  - injection Hrun as _ ->. split; [done|].
    split; [done|]. split; [done|]. by intros out' st1 [= <- <-].
  - injection Hrun as _ ->. unfold isUnknownCommandError.
    destruct (includes (lit "not recognized") (errMessage e)
              || includes (lit "unknown") (errMessage e)
              || includes (lit "is not") (errMessage e)) eqn:Eu.
    + split; [done|]. split; [by intros e' st1 [= <- <-]|].
      split; [|done]. intros e' st1 [= <- <-]. by rewrite Eu.
    + split; [done|]. split; [|split; [by intros e' st1 [= <- <-]|done]].
      intros e' st1 [= <- <-]. by rewrite Eu.
Qed.

(** Trimming the end does not reach into a prefix that ends with a unit
    that is no white space. *)
Lemma trimEnd_app (p : jsstring) c (s : jsstring) :
  isSpace c = false -> trimEnd ((p ++ [c]) ++ s) = (p ++ [c]) ++ trimEnd s.
Proof.
  intros Hc. unfold trimEnd. rewrite rev_app_distr, rev_unit.
  destruct (dropWhile isSpace (rev s)) as [|y r] eqn:E.
  - assert (Hall : dropWhile isSpace (rev s ++ c :: rev p) = c :: rev p).
    { clear -E Hc. induction (rev s) as [|x l IH]; simpl in *.
      - by rewrite Hc.
      - destruct (isSpace x); [by apply IH | done]. }
    rewrite Hall. simpl. by rewrite rev_involutive, app_nil_r.
  - rewrite dropWhile_app_keep by (rewrite E; done).
    rewrite E, rev_app_distr. simpl. by rewrite rev_involutive.
Qed.

Lemma trimEnd_head c (s : jsstring) :
  trimEnd (c :: s) = [] \/ exists s', trimEnd (c :: s) = c :: s'.
Proof.
  unfold trimEnd. simpl.
  destruct (dropWhile isSpace (rev s)) as [|y r] eqn:E.
  - destruct (isSpace c) eqn:Ec.
    + left. rewrite dropWhile_all; [done|].
      rewrite forallb_app. simpl. rewrite Ec.
      assert (forallb isSpace (rev s) = true) as ->; [|done].
      clear -E. induction (rev s) as [|x l IH]; simpl in *; [done|].
      destruct (isSpace x); [by apply IH | done].
    + right. rewrite dropWhile_last, E by done. by exists [].
  - right. rewrite dropWhile_app_keep by (rewrite E; done).
    rewrite rev_app_distr. simpl. eauto.
Qed.

Lemma lit_pair : lit "/pair" = [47; 112; 97; 105; 114].
Proof. by vm_compute. Qed.

Lemma lit_space : lit " " = [32].
Proof. by vm_compute. Qed.

(** The pairing token followed by a blank and anything parses to the
    pairing token. *)
Lemma parseCommand_pair (a : jsstring) :
  command (parseCommand (lit "/pair" ++ lit " " ++ a)) = lit "/pair".
Proof.
  rewrite lit_pair, lit_space.
  assert (Ht : exists t, trim ([47; 112; 97; 105; 114] ++ [32] ++ a)
                         = 47 :: 112 :: [97; 105; 114] ++ t
                         /\ takeWhile isWord t = []).
  { unfold trim, trimStart. cbn [app].
    rewrite (dropWhile_stop isSpace 47) by done.
    change (47 :: 112 :: 97 :: 105 :: 114 :: 32 :: a)
      with (([47; 112; 97; 105] ++ [114]) ++ 32 :: a).
    rewrite trimEnd_app by done.
    destruct (trimEnd_head 32 a) as [->|[s' ->]]; by eauto. }
  destruct Ht as (t & Ht & Hw).
  rewrite (parseCommand_match _ _ _ Ht eq_refl). cbn [command].
  cbn [takeWhile app isWord]. simpl takeWhile. rewrite Hw. by vm_compute.
Qed.

Lemma handleCommand_pair (w : World) msg sessionKey (st : State w) :
  command (parseCommand msg) = lit "/pair" ->
  handleCommand w msg sessionKey st = (Ret notHandled, st).
Proof.
  intros Hp. rewrite handleCommand_unfold.
  destruct (negb (isCommand msg)); [done|]. by rewrite bool_decide_true.
Qed.

(** C7: whatever the arguments, the session and the state, a message
    whose command token is ["/pair"] is reported as not handled, and
    nothing else happens; the token followed by any arguments is such a
    message, and so is the token alone. *)
Theorem C7_pair_never_handled (w : World) (sessionKey : jsstring)
    (st : State w) :
  (forall msg,
      command (parseCommand msg) = lit "/pair" ->
      handleCommand w msg sessionKey st = (Ret notHandled, st))
  /\ (forall a,
        handleCommand w (lit "/pair" ++ lit " " ++ a) sessionKey st
        = (Ret notHandled, st))
  /\ handleCommand w (lit "/pair") sessionKey st = (Ret notHandled, st).
Proof.
  split; [intros msg; apply handleCommand_pair|]. split.
  - intros a. apply handleCommand_pair, parseCommand_pair.
  - apply handleCommand_pair. by vm_compute.
Qed.

(** C8: the bare marker ["/"] is answered with the prompt and the
    curated quick replies, in their order; the result of every other
    message carries no quick replies. *)
Theorem C8_quick_replies_only_for_root (w : World)
    (msg sessionKey : jsstring) (st : State w) :
  exists r st',
    handleCommand w msg sessionKey st = (Ret r, st')
    /\ (command (parseCommand msg) = lit "/" ->
        r = mkResult true (Some (lit "🦞 명령어를 선택하세요!")) None
              (Some QUICK_COMMANDS)
        /\ st' = st)
    /\ (command (parseCommand msg) <> lit "/" -> quickReplies r = None)
    /\ map message QUICK_COMMANDS
       = [ lit "/status"; lit "/help"; lit "/model"; lit "/clear";
           lit "/think"; lit "/usage"; lit "/commands" ].
Proof.
  assert (Hq : map message QUICK_COMMANDS
               = [ lit "/status"; lit "/help"; lit "/model"; lit "/clear";
                   lit "/think"; lit "/usage"; lit "/commands" ])
    by reflexivity.
  rewrite handleCommand_unfold.
  destruct (decide (command (parseCommand msg) = lit "/")) as [Hroot|Hroot].
  - rewrite (isCommand_root _ Hroot), Hroot. cbn [negb].
    rewrite bool_decide_false by (by vm_compute).
    rewrite bool_decide_true by done.
    unfold computeResponse. rewrite COMMANDS_root. cbn.
    eexists _, st. split; [reflexivity|]. split; [|done].
    intros _. split; [|done].
    replace (settled (lit "🦞 명령어를 선택하세요!"))
      with (lit "🦞 명령어를 선택하세요!") by (by vm_compute).
    reflexivity.
  - destruct (negb (isCommand msg)); [by exists notHandled, st|].
    case_bool_decide; [by exists notHandled, st|].
    rewrite (bool_decide_false _ Hroot).
    destruct (computeResponse w _ _ sessionKey st) as [[[early|out]|e] st']
      eqn:Ecomp.
    + apply computeResponse_early in Ecomp as ->. by exists notHandled, st'.
    + by eexists _, st'.
    + by eexists _, st'.
Qed.

(** ** The option commands *)

Lemma truthy_nonempty (a : jsstring) : a <> [] -> truthy a = true.
Proof. by destruct a. Qed.

Lemma lines3_suffix (a b c : jsstring) : includes c (lines [a; b; c]) = true.
Proof.
  unfold lines. cbn [join]. rewrite !app_assoc. apply includes_suffix.
Qed.

(** C3, as stated, fails for the TTS command: its handler holds a list
    of values but checks nothing against it, so a value outside the
    list is confirmed, not rejected. *)
Lemma C3_tts_confirms_any_value :
  (toLowerCase (lit "bogus") ∉ ttsModes)
  /\ ttsHandler (lit "bogus") = lines [lit "🔊 TTS: bogus"; []; NEXT_MESSAGE]
  /\ includes (join (lit ", ") ttsModes) (ttsHandler (lit "bogus")) = false
  /\ (handleCommand (sampleWorld notRecognized true gatewayDown)
        (lit "/tts bogus") (lit "user")
        (sampleState notRecognized true gatewayDown)).1
     = Ret (mkResult true
              (Some (lines [lit "🔊 TTS: bogus"; []; NEXT_MESSAGE]))
              None None).
Proof.
  split; [|by vm_compute].
  apply (bool_decide_unpack (toLowerCase (lit "bogus") ∉ ttsModes)).
  by vm_compute.
Qed.

(** C3, amended: the handlers of think-depth, verbosity,
    reasoning-display and elevation answer empty arguments with a usage
    text that lists exactly their accepted values, a value outside the
    list (compared in lower case) with a rejection that names the list,
    and a value of the list with a confirmation that the setting applies
    from the next message; every token of such a command, alias or not,
    runs that handler.  The TTS handler answers empty arguments with a
    usage text that lists its values and confirms every other
    argument. *)
Theorem C3_option_handlers (w : World) (o : OptionCommand) (a : jsstring) :
  includes (join (usageSeparator o) (optionValues o)) (optionHandler o [])
  = true
  /\ includes NEXT_MESSAGE (optionHandler o []) = false
  /\ (a <> [] -> toLowerCase a ∉ optionValues o ->
      includes (lit "❌") (optionHandler o a) = true
      /\ includes (join (lit ", ") (optionValues o)) (optionHandler o a) = true
      /\ includes NEXT_MESSAGE (optionHandler o a) = false)
  /\ (a <> [] -> toLowerCase a ∈ optionValues o ->
      includes NEXT_MESSAGE (optionHandler o a) = true)
  /\ (forall token sessionKey (st : State w),
        token ∈ optionTokens o ->
        exists h d,
          COMMANDS !! token = Some (mkMapping None (Some h) d)
          /\ callHandler w h a sessionKey st = (Ret (optionHandler o a), st))
  /\ includes (join (lit ", ") ttsModes) (ttsHandler []) = true
  /\ (a <> [] -> ttsHandler a = lines [lit "🔊 TTS: " ++ a; []; NEXT_MESSAGE]).
Proof.
  split; [by destruct o; vm_compute|].
  split; [by destruct o; vm_compute|].
  split.
  { intros Ha Hout. apply truthy_nonempty in Ha.
    destruct o; cbn [optionHandler optionValues] in *;
      unfold thinkHandler, verboseHandler, reasoningHandler, elevatedHandler;
      rewrite Ha; cbn [negb]; rewrite (bool_decide_false _ Hout); cbn [negb];
      by vm_compute. }
  split.
  { intros Ha Hin. apply truthy_nonempty in Ha.
    destruct o; cbn [optionHandler optionValues] in *;
      unfold thinkHandler, verboseHandler, reasoningHandler, elevatedHandler;
      rewrite Ha; cbn [negb]; rewrite (bool_decide_true _ Hin); cbn [negb];
      apply lines3_suffix. }
  split.
  { intros token sessionKey st Htok.
    destruct o; cbn [optionTokens] in Htok;
      repeat (apply elem_of_cons in Htok as [->|Htok]);
      try (by apply elem_of_nil in Htok);
      eexists _, _; (split; [by vm_compute | reflexivity]). }
  split; [by vm_compute|].
  intros Ha. apply truthy_nonempty in Ha. unfold ttsHandler. by rewrite Ha.
Qed.

(** ** Literal texts and alternatives under the [i] flag *)

Lemma rmatch_word {A} (w : jsstring) :
  forall s caps (k : jsstring -> list jsstring -> option A),
    rmatch true (word w) s caps k
    = if ciPrefix w s then k (drop (length w) s) caps else None.
Proof.
  induction w as [|a w IH]; intros s caps k; [done|].
  change (word (a :: w)) with (Seq (Char a) (word w)).
  cbn [rmatch ciPrefix]. destruct s as [|x s]; [done|].
  destruct (canon true x =? canon true a); [apply IH | done].
Qed.

Lemma firstSome_ext {A B} (f g : A -> option B) (l : list A) :
  (forall x, x ∈ l -> f x = g x) -> firstSome f l = firstSome g l.
Proof.
  induction l as [|x l IH]; intros H; simpl; [done|].
  rewrite (H x) by (apply elem_of_cons; by left).
  destruct (g x); [done|]. apply IH. intros y Hy. apply H.
  apply elem_of_cons. by right.
Qed.

(** The alternative that succeeds first, after failures only, is the
    outcome. *)
Lemma firstSome_lookup {A B} (f : A -> option B) (l : list A) i x b :
  l !! i = Some x -> f x = Some b ->
  (forall i' y, (i' < i)%nat -> l !! i' = Some y -> f y = None) ->
  firstSome f l = Some b.
Proof.
  revert i. induction l as [|y l IH]; intros i Hi Hx Hbefore; [done|].
  destruct i as [|i]; simpl in *.
  - injection Hi as ->. by rewrite Hx.
  - rewrite (Hbefore 0%nat y) by (done || lia).
    apply (IH i); [done | done |].
    intros i' z Hlt Hz. apply (Hbefore (S i') z); [lia | done].
Qed.

Lemma rmatch_alts_word {A} (ws : list jsstring) :
  ws <> [] ->
  forall s caps (k : jsstring -> list jsstring -> option A),
    rmatch true (alts (map word ws)) s caps k
    = firstSome (fun w => if ciPrefix w s
                          then k (drop (length w) s) caps else None) ws.
Proof.
  induction ws as [|w ws IH]; intros Hne s caps k; [done|].
  destruct ws as [|w' ws].
  - cbn [map alts firstSome]. rewrite rmatch_word.
    by destruct (ciPrefix w s); [destruct (k _ _)|].
  - change (alts (map word (w :: w' :: ws)))
      with (Alt (word w) (alts (map word (w' :: ws)))).
    cbn [rmatch firstSome]. rewrite rmatch_word, IH by done. reflexivity.
Qed.

Lemma ciPrefix_length w s : ciPrefix w s = true -> (length w <= length s)%nat.
Proof.
  revert s. induction w as [|a w IH]; intros s; simpl; [lia|].
  destruct s as [|x s]; [done|]. intros H.
  apply andb_true_iff in H as [_ H]. apply IH in H. simpl. lia.
Qed.

Lemma rmatch_group_alts {A} (ws : list jsstring) :
  ws <> [] ->
  forall s caps (k : jsstring -> list jsstring -> option A),
    rmatch true (Group (alts (map word ws))) s caps k
    = firstSome (fun w => if ciPrefix w s
                          then k (drop (length w) s)
                                 (caps ++ [take (length w) s])
                          else None) ws.
Proof.
  intros Hne s caps k. cbn [rmatch]. rewrite rmatch_alts_word by done.
  apply firstSome_ext. intros w _. destruct (ciPrefix w s) eqn:E; [|done].
  apply ciPrefix_length in E. rewrite length_drop.
  replace (length s - (length s - length w))%nat with (length w) by lia.
  reflexivity.
Qed.

(** White space and the case of letters. *)
Lemma isSpace_canon c : isSpace (canon true c) = isSpace c.
Proof.
  unfold canon. cbn [andb]. destruct (isLower c) eqn:E; [|done].
  unfold isLower in E. apply andb_true_iff in E as [Hlo Hhi].
  apply N.leb_le in Hlo, Hhi. unfold isSpace.
  repeat match goal with
         | |- context [?a =? ?b] =>
             rewrite (proj2 (N.eqb_neq a b)) by lia
         | |- context [?a <=? ?b] =>
             first [ rewrite (proj2 (N.leb_gt a b)) by lia
                   | rewrite (proj2 (N.leb_le a b)) by lia ]
         end.
  reflexivity.
Qed.

Lemma canon_isSpace x y :
  canon true x = canon true y -> isSpace x = isSpace y.
Proof. intros H. by rewrite <- (isSpace_canon x), H, isSpace_canon. Qed.

Lemma ciEq_length a b : ciEq a b -> length a = length b.
Proof. intros H. by rewrite <- (length_map (canon true) a), H, length_map. Qed.

Lemma ciEq_prefix v w rest : ciEq v w -> ciPrefix w (v ++ rest) = true.
Proof.
  unfold ciEq. revert w. induction v as [|x v IH]; intros [|a w] H; try done.
  simpl in *. injection H as Hx Hv. rewrite Hx, N.eqb_refl. by apply IH.
Qed.

Lemma ciEq_nonspace v w :
  ciEq v w -> forallb (fun c => negb (isSpace c)) w = true ->
  forallb (fun c => negb (isSpace c)) v = true.
Proof.
  unfold ciEq. revert w. induction v as [|x v IH]; intros [|a w] H; try done.
  simpl in *. injection H as Hx Hv. rewrite (canon_isSpace _ _ Hx).
  intros Hw. apply andb_true_iff in Hw as [-> Hw]. by apply (IH w).
Qed.

(** An alternative other than the text at hand fails, if not on the
    text then on what its continuation finds: a unit of the text, or
    the blank after it, where white space or a unit of the alternative
    was due. *)
Lemma other_alternative_fails {A} (w v rest : jsstring) caps
    (k : jsstring -> list jsstring -> option A) (g : jsstring -> list jsstring) :
  forallb (fun c => negb (isSpace c)) w = true ->
  forallb (fun c => negb (isSpace c)) v = true ->
  ~ ciEq v w ->
  (forall c s' caps', isSpace c = false -> k (c :: s') caps' = None) ->
  (if ciPrefix w (v ++ 32 :: rest)
   then k (drop (length w) (v ++ 32 :: rest)) (caps ++ g w) else None) = None.
Proof.
  intros Hw Hv Hne Hk.
  assert (H : forall s, (if ciPrefix w (v ++ 32 :: rest)
                         then k (drop (length w) (v ++ 32 :: rest)) s
                         else None) = None); [|apply H].
  clear g caps. revert v Hv Hne.
  induction w as [|a w IH]; intros v Hv Hne s.
  - destruct v as [|x v]; [by destruct Hne|]. simpl in Hv |- *.
    apply andb_true_iff in Hv as [Hx _]. apply Hk. by destruct (isSpace x).
  - simpl in Hw. apply andb_true_iff in Hw as [Ha Hw].
    destruct v as [|x v]; cbn [app ciPrefix length drop].
    + destruct (canon true 32 =? canon true a) eqn:E; [|done].
      apply N.eqb_eq, canon_isSpace in E. rewrite <- E in Ha. done.
    + destruct (canon true x =? canon true a) eqn:E; [|done]. cbn [andb].
      apply N.eqb_eq in E. simpl in Hv.
      apply andb_true_iff in Hv as [_ Hv]. apply IH; [done | done |].
      intros Heq. apply Hne. unfold ciEq in *. simpl. by rewrite E, Heq.
Qed.

Lemma rmatch_Seq {A} ic r1 r2 s caps
    (k : jsstring -> list jsstring -> option A) :
  rmatch ic (Seq r1 r2) s caps k
  = rmatch ic r1 s caps (fun s' caps' => rmatch ic r2 s' caps' k).
Proof. reflexivity. Qed.

Lemma rmatch_Char_cons {A} ic c x s caps
    (k : jsstring -> list jsstring -> option A) :
  rmatch ic (Char c) (x :: s) caps k
  = if canon ic x =? canon ic c then k s caps else None.
Proof. reflexivity. Qed.

Lemma rmatch_Plus_cons {A} ic p x s caps
    (k : jsstring -> list jsstring -> option A) :
  rmatch ic (Plus p) (x :: s) caps k
  = if p x then star p s (fun s' => k s' caps) else None.
Proof. reflexivity. Qed.

Lemma star_stop_app {A} (v rest : jsstring) (k : jsstring -> option A) :
  v <> [] -> forallb (fun c => negb (isSpace c)) v = true ->
  star isSpace (v ++ rest) k = k (v ++ rest).
Proof.
  destruct v as [|c v]; [done|]. intros _ H. simpl in *.
  apply andb_true_iff in H as [H _]. by destruct (isSpace c).
Qed.

(** A continuation that starts with white space fails on a unit that is
    none. *)
Lemma Plus_isSpace_fails {A} r c s caps
    (k : jsstring -> list jsstring -> option A) :
  isSpace c = false ->
  rmatch true (Seq (Plus isSpace) r) (c :: s) caps k = None.
Proof. intros H. rewrite rmatch_Seq, rmatch_Plus_cons. by rewrite H. Qed.

Lemma forallb_lookup {A} (p : A -> bool) (l : list A) i x :
  forallb p l = true -> l !! i = Some x -> p x = true.
Proof.
  intros H Hi. rewrite forallb_forall in H. apply H.
  apply list_elem_of_In. by eapply list_elem_of_lookup_2.
Qed.

(** Two entries of a list without repetition up to case are not equal
    up to case. *)
Lemma NoDup_ciEq (l : list jsstring) i i' x y :
  NoDup ((fun w => map (canon true) w) <$> l) ->
  l !! i = Some x -> l !! i' = Some y -> (i' < i)%nat -> ~ ciEq x y.
Proof.
  intros Hnd Hx Hy Hlt Heq.
  assert (i = i'); [|lia].
  apply (NoDup_lookup _ i i' (map (canon true) x) Hnd);
    rewrite list_lookup_fmap.
  - exact (f_equal (fmap (M:=option) (fun w => map (canon true) w)) Hx).
  - rewrite Heq.
    exact (f_equal (fmap (M:=option) (fun w => map (canon true) w)) Hy).
Qed.

Lemma ciEq_trans_neg t T T' : ciEq t T -> ~ ciEq T T' -> ~ ciEq t T'.
Proof. unfold ciEq. intros H Hn Ht. apply Hn. by rewrite <- H. Qed.

(** Where an option pattern matches: the marker, a token, a blank, a
    value and a blank, token and value in any case of their letters. *)
Lemma optPat_match (tokens values : list jsstring) i j T V t v rest :
  tokens !! i = Some T -> values !! j = Some V ->
  ciEq t T -> ciEq v V -> V <> [] ->
  forallb (forallb (fun c => negb (isSpace c))) tokens = true ->
  forallb (forallb (fun c => negb (isSpace c))) values = true ->
  NoDup ((fun w => map (canon true) w) <$> tokens) ->
  NoDup ((fun w => map (canon true) w) <$> values) ->
  exec true (optPat tokens values) (47 :: t ++ 32 :: v ++ 32 :: rest)
  = Some (mkMatch (47 :: t ++ 32 :: v ++ 32 :: takeWhile isSpace rest)
            [t; v]).
Proof.
  intros HT HV Ht Hv HVne Htoks Hvals Hndt Hndv.
  assert (HTs := forallb_lookup _ _ _ _ Htoks HT).
  assert (HVs := forallb_lookup _ _ _ _ Hvals HV).
  assert (Hts := ciEq_nonspace _ _ Ht HTs).
  assert (Hvs := ciEq_nonspace _ _ Hv HVs).
  assert (Hvne : v <> []).
  { intros ->. apply ciEq_length in Hv. by destruct V. }
  unfold exec, optPat, cat. cbn [foldr].
  rewrite rmatch_Seq, rmatch_Char_cons, N.eqb_refl.
  rewrite rmatch_Seq, rmatch_group_alts
    by (intros ->; by rewrite lookup_nil in HT).
  eapply firstSome_lookup; [exact HT | |].
  2:{ intros i' T' Hlt HT'.
      match goal with
      | |- (if _ then rmatch true ?R _ _ ?kf else None) = None =>
          apply (other_alternative_fails T' t (v ++ 32 :: rest) []
                   (fun s' caps' => rmatch true R s' caps' kf)
                   (fun w => [take (length w) (t ++ 32 :: v ++ 32 :: rest)]))
      end.
      - exact (forallb_lookup _ _ _ _ Htoks HT').
      - done.
      - eapply ciEq_trans_neg; [exact Ht|].
        exact (NoDup_ciEq _ _ _ _ _ Hndt HT HT' Hlt).
      - intros c s' caps' Hc. by apply Plus_isSpace_fails. }
  rewrite (ciEq_prefix _ _ _ Ht), <- (ciEq_length _ _ Ht).
  rewrite drop_app_length, take_app_length.
  rewrite rmatch_Seq, rmatch_Plus_cons.
  change (isSpace 32) with true. cbn iota.
  rewrite star_stop_app by done.
  rewrite rmatch_Seq, rmatch_group_alts
    by (intros ->; by rewrite lookup_nil in HV).
  eapply firstSome_lookup; [exact HV | |].
  2:{ intros j' V' Hlt HV'.
      match goal with
      | |- (if _ then rmatch true ?R _ _ ?kf else None) = None =>
          apply (other_alternative_fails V' v rest ([] ++ [t])
                   (fun s' caps' => rmatch true R s' caps' kf)
                   (fun w => [take (length w) (v ++ 32 :: rest)]))
      end.
      - exact (forallb_lookup _ _ _ _ Hvals HV').
      - done.
      - eapply ciEq_trans_neg; [exact Hv|].
        exact (NoDup_ciEq _ _ _ _ _ Hndv HV HV' Hlt).
      - intros c s' caps' Hc. by apply Plus_isSpace_fails. }
  rewrite (ciEq_prefix _ _ _ Hv), <- (ciEq_length _ _ Hv).
  rewrite drop_app_length, take_app_length.
  rewrite rmatch_Seq, rmatch_Plus_cons.
  change (isSpace 32) with true. cbn iota.
  rewrite star_greedy_eq by (cbn [rmatch]; eauto).
  cbn [rmatch app]. f_equal. f_equal.
  rewrite <- (takeWhile_dropWhile isSpace rest) at 1 3.
  replace (47 :: t ++ 32 :: v ++ 32 :: takeWhile isSpace rest
             ++ dropWhile isSpace rest)
    with ((47 :: t ++ 32 :: v ++ 32 :: takeWhile isSpace rest)
            ++ dropWhile isSpace rest).
  - apply take_app_length'. rewrite length_app. lia.
  - simpl. f_equal. rewrite <- !app_assoc. simpl. f_equal. f_equal.
    by rewrite <- app_assoc.
Qed.

(** ** Validators and directive patterns *)

(** A text whose lower-case form is made of small ASCII letters equals
    that form up to case, unless it holds the Kelvin sign. *)
Lemma toLowerCase_ciEq (v W : jsstring) :
  toLowerCase v = W -> KELVIN ∉ v -> forallb isLower W = true -> ciEq v W.
Proof.
  unfold ciEq, toLowerCase. generalize (@nil N) as before. revert W.
  induction v as [|c v IH]; intros W before HW Hk Hlow; [by subst|].
  apply not_elem_of_cons in Hk as [Hc Hk].
  destruct (lowerFrom_cons before c v)
    as [[Hs E]|[[? _]|[[_ E]|[_ (x & out & b' & s' & E & Hx & _)]]]];
    [|done| |]; rewrite E in HW; subst W; cbn [forallb] in Hlow.
  - apply andb_true_iff in Hlow as [Hl Hlow]. cbn [map].
    rewrite (IH _ _ eq_refl Hk Hlow). f_equal.
    unfold canon. cbn [andb]. rewrite Hl. unfold asciiLower in *.
    destruct (isUpper c) eqn:Hup.
    + unfold isUpper, isLower in *.
      apply andb_true_iff in Hup as [H1 H2]. apply N.leb_le in H1, H2.
      rewrite (proj2 (N.leb_gt 97 c)) by lia. cbn [andb]. lia.
    + by rewrite Hl.
  - apply andb_true_iff in Hlow as [_ Hlow].
    by apply andb_true_iff in Hlow as [Hlow _].
  - apply andb_true_iff in Hlow as [Hlow _]. unfold isLower in Hlow.
    apply andb_true_iff in Hlow as [_ Hlow]. apply N.leb_le in Hlow. lia.
Qed.

Lemma optionPattern_shape o :
  optionPattern o = Some (optPat (optionWords o) (optionValues o)).
Proof. by destruct o. Qed.

Lemma optionTokens_lookup o token :
  token ∈ optionTokens o ->
  exists i T, optionWords o !! i = Some T /\ token = 47 :: T.
Proof.
  intros H. apply list_elem_of_lookup in H as [i Hi].
  exists i, (slice1 token).
  destruct o; repeat (destruct i as [|i]; [injection Hi as <-; by vm_compute|]);
    done.
Qed.

Lemma option_lists_wellformed o :
  forallb (forallb (fun c => negb (isSpace c))) (optionWords o) = true
  /\ forallb (forallb (fun c => negb (isSpace c))) (optionValues o) = true
  /\ forallb (forallb isLower) (optionValues o) = true
  /\ forallb truthy (optionValues o) = true
  /\ NoDup ((fun w => map (canon true) w) <$> optionWords o)
  /\ NoDup ((fun w => map (canon true) w) <$> optionValues o).
Proof.
  repeat split; try (by destruct o; vm_compute).
  - destruct o; (apply (bool_decide_unpack _); by vm_compute).
  - destruct o; (apply (bool_decide_unpack _); by vm_compute).
Qed.

Lemma firstSome_none {A B} (f : A -> option B) (l : list A) :
  (forall x, x ∈ l -> f x = None) -> firstSome f l = None.
Proof.
  induction l as [|x l IH]; intros H; simpl; [done|].
  rewrite (H x) by (apply elem_of_cons; by left).
  apply IH. intros y Hy. apply H. apply elem_of_cons. by right.
Qed.

(** An option pattern does not match where none of its tokens stands
    before the blank. *)
Lemma optPat_no_match (tokens values : list jsstring) t rest :
  tokens <> [] ->
  forallb (forallb (fun c => negb (isSpace c))) tokens = true ->
  forallb (fun c => negb (isSpace c)) t = true ->
  Forall (fun T' => ~ ciEq t T') tokens ->
  exec true (optPat tokens values) (47 :: t ++ 32 :: rest) = None.
Proof.
  intros Hne Htoks Ht Hother.
  unfold exec, optPat, cat. cbn [foldr].
  rewrite rmatch_Seq, rmatch_Char_cons, N.eqb_refl.
  rewrite rmatch_Seq, rmatch_group_alts by done.
  apply firstSome_none. intros T' HT'.
  match goal with
  | |- (if _ then rmatch true ?R _ _ ?kf else None) = None =>
      apply (other_alternative_fails T' t rest []
               (fun s' caps' => rmatch true R s' caps' kf)
               (fun w => [take (length w) (t ++ 32 :: rest)]))
  end.
  - rewrite forallb_forall in Htoks. apply Htoks. by apply list_elem_of_In.
  - done.
  - rewrite Forall_forall in Hother. by apply Hother.
  - intros c s' caps' Hc. by apply Plus_isSpace_fails.
Qed.

(** The directives found so far stay at the head of the list. *)
Lemma foldl_directiveStep_head ps a d :
  head (directives a) = Some d ->
  head (directives (foldl directiveStep a ps)) = Some d.
Proof.
  revert a. induction ps as [|p ps IH]; intros a Ha; simpl; [done|].
  apply IH. destruct (directiveStep_cases a p) as [(m & _ & ->)|[_ ->]];
    [|done].
  simpl. by destruct (directives a).
Qed.

Lemma directiveStep_miss a p :
  exec true p (cleanMessage a) = None -> directiveStep a p = a.
Proof. intros H. unfold directiveStep. by rewrite H. Qed.

Lemma directiveStep_hit a p m :
  exec true p (cleanMessage a) = Some m ->
  directiveStep a p
  = mkExtracted (directives a ++ [trim (matched m)])
      (trim (removeFirst (matched m) (cleanMessage a))).
Proof. intros H. unfold directiveStep. by rewrite H. Qed.

(** The first four directive patterns are the option patterns, in the
    order think-depth, verbosity, reasoning-display, elevation. *)
Lemma directivePatterns_shape :
  exists p4 p5,
    directivePatterns
    = [ optPat (optionWords OptThink) (optionValues OptThink);
        optPat (optionWords OptVerbose) (optionValues OptVerbose);
        optPat (optionWords OptReasoning) (optionValues OptReasoning);
        optPat (optionWords OptElevated) (optionValues OptElevated);
        p4; p5 ].
Proof. by eexists _, _. Qed.

(** No token of an option command is, up to case, a token of another
    one. *)
Lemma optionWords_apart o o' T :
  o <> o' -> T ∈ optionWords o -> Forall (fun T' => ~ ciEq T T') (optionWords o').
Proof.
  intros Hne HT.
  assert (H : Forall (fun T => Forall (fun T' => ~ ciEq T T') (optionWords o'))
                (optionWords o)).
  { destruct o, o'; try done; apply (bool_decide_unpack _); by vm_compute. }
  rewrite Forall_forall in H. by apply H.
Qed.

(** C9, as stated, fails for a value spelled with the Kelvin sign
    U+212A: [toLowerCase] turns the sign into [k], so the elevation
    validator takes ["as" + U+212A] for ["ask"] and confirms it, while
    under the [i] flag of the pattern the sign is no [k], and the
    message made of the token, that value and a word is not matched:
    no directive is extracted from it. *)
Lemma C9_kelvin_sign_accepted_not_extracted :
  (toLowerCase [97; 115; KELVIN] ∈ optionValues OptElevated)
  /\ optionHandler OptElevated [97; 115; KELVIN]
     = lines [lit "🔐 권한 모드: " ++ [97; 115; KELVIN]; []; NEXT_MESSAGE]
  /\ (optionPattern OptElevated ≫= fun p =>
        exec true p (lit "/elevated" ++ lit " " ++ [97; 115; KELVIN]
                       ++ lit " " ++ lit "now")) = None
  /\ directives (extractDirectives
                   (lit "/elevated" ++ lit " " ++ [97; 115; KELVIN]
                      ++ lit " " ++ lit "now")) = [].
Proof.
  split; [|by vm_compute].
  apply (bool_decide_unpack _). by vm_compute.
Qed.

Section AcceptedValues.
Context (o : OptionCommand) (token value rest : jsstring).
Hypothesis Htoken : token ∈ optionTokens o.
Hypothesis Haccepted : toLowerCase value ∈ optionValues o.
Hypothesis Hkelvin : KELVIN ∉ value.

Lemma accepted_value_nonempty : value <> [].
Proof.
  destruct (option_lists_wellformed o) as (_ & _ & _ & Hne & _).
  apply list_elem_of_lookup in Haccepted as [j HV].
  pose proof (forallb_lookup _ _ _ _ Hne HV) as H.
  intros ->. discriminate H.
Qed.

Lemma accepted_value_confirmed :
  includes NEXT_MESSAGE (optionHandler o value) = true.
Proof.
  pose proof (truthy_nonempty _ accepted_value_nonempty) as Hvalue.
  destruct o; cbn [optionHandler optionValues] in *;
    unfold thinkHandler, verboseHandler, reasoningHandler, elevatedHandler;
    rewrite Hvalue; cbn [negb]; rewrite (bool_decide_true _ Haccepted);
    cbn [negb]; apply lines3_suffix.
Qed.

Lemma accepted_value_ciEq : ciEq value (toLowerCase value).
Proof.
  destruct (option_lists_wellformed o) as (_ & _ & Hlow & _).
  apply list_elem_of_lookup in Haccepted as [j HV].
  apply toLowerCase_ciEq; [done | done |].
  exact (forallb_lookup _ _ _ _ Hlow HV).
Qed.

Lemma accepted_value_matched :
  exec true (optPat (optionWords o) (optionValues o))
    (token ++ lit " " ++ value ++ lit " " ++ rest)
  = Some (mkMatch
            (token ++ lit " " ++ value ++ lit " " ++ takeWhile isSpace rest)
            [slice1 token; value]).
Proof.
  destruct (option_lists_wellformed o) as (Hw & Hv & Hlow & Hne & Hndw & Hndv).
  destruct (optionTokens_lookup _ _ Htoken) as (i & T & HT & ->).
  pose proof Haccepted as Hval'.
  apply list_elem_of_lookup in Hval' as [j HV].
  assert (HVne := forallb_lookup _ _ _ _ Hne HV).
  rewrite lit_space. cbn [slice1 drop app].
  apply (optPat_match _ _ i j T (toLowerCase value)); try done.
  - apply accepted_value_ciEq.
  - intros E. by rewrite E in HVne.
Qed.

Lemma accepted_value_trimmed :
  trim (token ++ lit " " ++ value ++ lit " " ++ takeWhile isSpace rest)
  = token ++ lit " " ++ value.
Proof.
  destruct (option_lists_wellformed o) as (_ & Hv & _).
  destruct (optionTokens_lookup _ _ Htoken) as (i & T & HT & ->).
  pose proof Haccepted as Hval'.
  apply list_elem_of_lookup in Hval' as [j HV].
  rewrite lit_space. cbn [app].
  unfold trim, trimStart. rewrite (dropWhile_stop isSpace 47) by done.
  assert (Hvs : forallb (fun c => negb (isSpace c)) value = true).
  { eapply ciEq_nonspace; [exact accepted_value_ciEq|].
    exact (forallb_lookup _ _ _ _ Hv HV). }
  destruct (exists_last accepted_value_nonempty) as (v' & c & Hlast).
  rewrite Hlast in Hvs |- *.
  rewrite forallb_app in Hvs. apply andb_true_iff in Hvs as [_ Hc].
  simpl in Hc. rewrite andb_true_r in Hc. apply negb_true_iff in Hc.
  assert (Hre : forall X,
             47 :: T ++ 32 :: (v' ++ [c]) ++ X
             = ((47 :: T ++ 32 :: v') ++ [c]) ++ X).
  { intros X. cbn [app]. f_equal. rewrite <- !app_assoc. cbn [app].
    by rewrite <- ?app_assoc. }
  rewrite Hre, trimEnd_app by done.
  replace (trimEnd (32 :: takeWhile isSpace rest)) with (@nil N).
  - rewrite app_nil_r. by rewrite <- (app_nil_r (_ ++ [c])), <- Hre, app_nil_r.
  - unfold trimEnd. rewrite dropWhile_all; [done|].
    rewrite forallb_forall. intros x Hx. apply in_rev in Hx.
    destruct Hx as [<-|Hx]; [done|].
    clear -Hx. induction rest as [|y l IH]; simpl in Hx; [done|].
    destruct (isSpace y) eqn:E; [|done].
    destruct Hx as [<-|Hx]; [done | by apply IH].
Qed.

(** The patterns tried before the one of the command find nothing, and
    the directive of the command is the first to be recorded. *)
Lemma accepted_value_first_directive :
  head (directives
          (extractDirectives (token ++ lit " " ++ value ++ lit " " ++ rest)))
  = Some (token ++ lit " " ++ value).
Proof.
  pose proof accepted_value_matched as Hm.
  pose proof accepted_value_trimmed as Ht.
  destruct (optionTokens_lookup _ _ Htoken) as (i & T & HT & Htok).
  assert (HTin : T ∈ optionWords o) by (by eapply list_elem_of_lookup_2).
  assert (HTs : forallb (fun c => negb (isSpace c)) T = true).
  { destruct (option_lists_wellformed o) as (Hw & _).
    exact (forallb_lookup _ _ _ _ Hw HT). }
  assert (Hmiss : forall o',
             o <> o' ->
             exec true (optPat (optionWords o') (optionValues o'))
               (token ++ lit " " ++ value ++ lit " " ++ rest) = None).
  { intros o' Hne. rewrite Htok, lit_space. cbn [app].
    apply optPat_no_match; [by destruct o' | | done |].
    - by destruct (option_lists_wellformed o') as (Hw & _).
    - by apply (optionWords_apart o o' T). }
  destruct directivePatterns_shape as (p4 & p5 & Hps).
  unfold extractDirectives. rewrite Hps. cbn [foldl].
  set (a0 := mkExtracted [] (token ++ lit " " ++ value ++ lit " " ++ rest)).
  assert (Hhit : directiveStep a0 (optPat (optionWords o) (optionValues o))
                 = mkExtracted [token ++ lit " " ++ value]
                     (trim (removeFirst
                              (token ++ lit " " ++ value ++ lit " "
                                 ++ takeWhile isSpace rest)
                              (cleanMessage a0)))).
  { rewrite (directiveStep_hit a0 _ _ Hm). cbn [matched directives a0 app].
    by rewrite Ht. }
  assert (Hskip : forall o', o <> o' ->
             directiveStep a0 (optPat (optionWords o') (optionValues o')) = a0).
  { intros o' Hne. apply directiveStep_miss. by apply (Hmiss o'). }
  destruct o;
    repeat first
      [ rewrite Hhit
      | rewrite Hskip by done ];
    match goal with
    | |- head (directives ?x) = Some ?d =>
        first
          [ apply (foldl_directiveStep_head [_; _; _; _; _])
          | apply (foldl_directiveStep_head [_; _; _; _])
          | apply (foldl_directiveStep_head [_; _; _])
          | apply (foldl_directiveStep_head [_; _]) ]
    end; reflexivity.
Qed.

End AcceptedValues.

(** C9, amended: a value that the validator of think-depth, verbosity,
    reasoning-display or elevation accepts (its lower-case form is in
    the list of the command) and that does not hold the Kelvin sign
    U+212A is confirmed by the handler, and the message made of a token
    of that command, a blank, the value, a blank and anything is matched
    by the directive pattern of the same command: the match is the
    token, the value and the white space after it, with the token and
    the value as its groups, and the first directive [extractDirectives]
    finds in the message is the token with the value. *)
Theorem C9_accepted_value_matches_pattern (o : OptionCommand)
    (token value rest : jsstring) :
  token ∈ optionTokens o ->
  toLowerCase value ∈ optionValues o ->
  KELVIN ∉ value ->
  includes NEXT_MESSAGE (optionHandler o value) = true
  /\ (exists p,
        optionPattern o = Some p
        /\ exec true p (token ++ lit " " ++ value ++ lit " " ++ rest)
           = Some (mkMatch
                     (token ++ lit " " ++ value ++ lit " "
                        ++ takeWhile isSpace rest)
                     [slice1 token; value]))
  /\ head (directives
             (extractDirectives
                (token ++ lit " " ++ value ++ lit " " ++ rest)))
     = Some (token ++ lit " " ++ value).
Proof.
  intros Htok Hval Hk.
  split; [by eapply accepted_value_confirmed|].
  split; [|by eapply accepted_value_first_directive].
  exists (optPat (optionWords o) (optionValues o)).
  split; [apply optionPattern_shape | by eapply accepted_value_matched].
Qed.

(** ** The chat bridge *)

(** C6: [askClawdbot] returns on every input; a failure of the gateway
    call (the request rejected, a status that is not 2xx, a body that
    cannot be read) is answered with a canned text: the text for time
    outs when the string form of the error contains ["timeout"] or
    ["ETIMEDOUT"], the general failure text otherwise.  When the gateway
    call returns, so does [askClawdbot], with the same response. *)
Theorem C6_askClawdbot_recovers (w : World) (msg sessionKey : jsstring)
    (history : list ConversationMessage) (st : State w) :
  exists r st',
    askClawdbot w msg sessionKey history st = (Ret r, st')
    /\ st' = (askClawdbotGateway w msg sessionKey history st).2
    /\ (forall r0,
          (askClawdbotGateway w msg sessionKey history st).1 = Ret r0 ->
          r = r0)
    /\ (forall e,
          (askClawdbotGateway w msg sessionKey history st).1 = Throw e ->
          r = mkResponse
                (if includes (lit "timeout") (errorToString e)
                    || includes (lit "ETIMEDOUT") (errorToString e)
                 then TIMEOUT_FALLBACK else FAILURE_FALLBACK)
                (Some []) 0)
    /\ (forall e,
          fetch w (chatRequest w msg history) = FetchFailed e ->
          (askClawdbotGateway w msg sessionKey history st).1 = Throw e)
    /\ (forall status body,
          fetch w (chatRequest w msg history) = FetchStatus status body ->
          (askClawdbotGateway w msg sessionKey history st).1
          = Throw (newError (lit "Gateway API error: " ++ status)))
    /\ (forall e,
          fetch w (chatRequest w msg history) = FetchBadJson e ->
          (askClawdbotGateway w msg sessionKey history st).1 = Throw e).
Proof.
  assert (Hgw : forall o,
             fetch w (chatRequest w msg history) = o ->
             (askClawdbotGateway w msg sessionKey history st).1
             = match o with
               | FetchFailed e | FetchBadJson e => Throw e
               | FetchStatus status _ =>
                   Throw (newError (lit "Gateway API error: " ++ status))
               | FetchOk result =>
                   match firstContent result with
                   | Throw e => Throw e
                   | Ret content =>
                       Ret (mkResponse
                              (match nonEmpty content with
                               | Some c => c
                               | None => NO_ANSWER
                               end) None (processingTime w))
                   end
               end).
  { intros o Ho. unfold askClawdbotGateway. comp_simpl. rewrite Ho.
    destruct o as [e|status body|e|result]; try done.
    by destruct (firstContent result). }
  unfold askClawdbot. comp_simpl.
  destruct (askClawdbotGateway w msg sessionKey history st) as [[r0|e] st0].
  - exists r0, st0. split; [done|]. split; [done|].
    split; [by intros ? [= ->]|]. split; [done|].
    split; [intros e He; by rewrite (Hgw _ He)|].
    split; [intros s b He; by rewrite (Hgw _ He)|].
    intros e He; by rewrite (Hgw _ He).
  - eexists _, st0. split; [reflexivity|]. split; [done|].
    split; [done|]. split; [by intros ? [= ->]|].
    split; [intros e' He; by rewrite (Hgw _ He)|].
    split; [intros s b He; by rewrite (Hgw _ He)|].
    intros e' He; by rewrite (Hgw _ He).
Qed.

(** ** The delivery paths *)

Section DeliveryFacts.
Context (w : World).

Lemma askClawdbotGateway_state msg sessionKey history (st : State w) :
  (askClawdbotGateway w msg sessionKey history st).2
  = mkState (store st) (trace st ++ [EvFetch (chatRequest w msg history)]).
Proof.
  unfold askClawdbotGateway. comp_simpl.
  destruct (fetch w (chatRequest w msg history)) as [e|status body|e|result];
    try done.
  by destruct (firstContent result).
Qed.

Lemma askClawdbot_returns msg sessionKey history (st : State w) :
  exists r,
    askClawdbot w msg sessionKey history st
    = (Ret r,
       mkState (store st) (trace st ++ [EvFetch (chatRequest w msg history)])).
Proof.
  pose proof (askClawdbotGateway_state msg sessionKey history st) as Hst.
  unfold askClawdbot. comp_simpl.
  destruct (askClawdbotGateway w msg sessionKey history st) as [[r0|e] st0];
    simpl in Hst; subst st0; by eauto.
Qed.

(** The chat exchange: the utterance is recorded, the history read, the
    gateway asked, and the answer recorded. *)
Lemma chat_returns kakaoId utterance (st : State w) :
  exists r,
    chat w kakaoId utterance st
    = (Ret r,
       mkState
         (addConversationMessage w kakaoId RoleAssistant (text r)
            (addConversationMessage w kakaoId RoleUser utterance (store st)))
         (trace st
            ++ [ EvAddMessage kakaoId RoleUser utterance;
                 EvGetHistory kakaoId;
                 EvFetch (chatRequest w utterance
                            (getConversationHistory w kakaoId
                               (addConversationMessage w kakaoId RoleUser
                                  utterance (store st))));
                 EvAddMessage kakaoId RoleAssistant (text r) ])).
Proof.
  unfold chat, addMessage, getHistory. comp_simpl. cbn [store trace].
  match goal with
  | |- context [askClawdbot w ?m ?k ?h ?s] =>
      destruct (askClawdbot_returns m k h s) as [r ->]
  end.
  exists r. cbn [store trace]. by rewrite <- !app_assoc.
Qed.

End DeliveryFacts.

Lemma isPairing_leading_space c rest :
  isSpace c = true -> isPairing (c :: rest) = false.
Proof.
  intros Hc. unfold isPairing, toLowerCase. rewrite lit_pair.
  destruct (lowerFrom [] (c :: rest)) as [|x l] eqn:E; [done|].
  cbn [startsWith]. destruct (47 =? x) eqn:Ex; [|done].
  apply N.eqb_eq in Ex as <-. apply lowerFrom_marker in E as [-> _].
  vm_compute in Hc. discriminate.
Qed.

Lemma trim_leading_space (ws s : jsstring) :
  forallb isSpace ws = true -> trim (ws ++ s) = trim s.
Proof.
  intros H. unfold trim, trimStart. f_equal.
  induction ws as [|c ws IH]; [done|]. simpl in *.
  apply andb_true_iff in H as [-> H]. by apply IH.
Qed.

Lemma parseCommand_leading_space (ws s : jsstring) :
  forallb isSpace ws = true -> parseCommand (ws ++ s) = parseCommand s.
Proof. intros H. unfold parseCommand. by rewrite trim_leading_space. Qed.

Section Routing.
Context (w : World).

Lemma sync_pairing kakaoId utterance (st : State w) :
  isPairing utterance = true ->
  trace (handleWithoutCallback w kakaoId utterance st).2
  = trace st ++ pairingTrace kakaoId utterance.
Proof.
  intros Hp. unfold handleWithoutCallback, pairingTrace. rewrite Hp.
  destruct (nonEmpty (pairingCode utterance)) as [code|].
  - unfold verifyPairing. comp_simpl. reflexivity.
  - comp_simpl. simpl. by rewrite app_nil_r.
Qed.

Lemma async_pairing kakaoId utterance callbackUrl (st : State w) :
  isPairing utterance = true ->
  exists t q,
    trace (processMessageAsync w kakaoId utterance callbackUrl st).2
    = trace st ++ pairingTrace kakaoId utterance
        ++ [EvCallback callbackUrl t q].
Proof.
  intros Hp. unfold processMessageAsync, handlePairingCommand, pairingTrace.
  rewrite Hp. destruct (nonEmpty (pairingCode utterance)) as [code|].
  - unfold verifyPairing, sendCallback. comp_simpl. cbn [store trace fst snd].
    destruct (pairSuccess _); cbn [snd trace]; rewrite <- app_assoc;
      by eauto.
  - unfold sendCallback. comp_simpl. by eauto.
Qed.

Lemma sync_unpaired kakaoId utterance (st : State w) :
  isPairing utterance = false ->
  handleWithoutCallback w kakaoId utterance st
  = if isUserVerified w kakaoId (store st)
    then
      match
        (if isCommand utterance
         then handleCommand w utterance kakaoId
                (mkState (store st) (trace st ++ [EvIsVerified kakaoId]))
         else (Ret notHandled,
               mkState (store st) (trace st ++ [EvIsVerified kakaoId])))
      with
      | (Ret r, st1) =>
          match answered r with
          | Some a =>
              (Ret (match quickReplies r with
                    | Some q => addQuickReplies (createTextResponse a) q
                    | None => createTextResponse a
                    end), st1)
          | None =>
              match chat w kakaoId utterance st1 with
              | (Ret resp, st2) => (Ret (createTextResponse (text resp)), st2)
              | (Throw _, st2) => (Ret (createTextResponse SYNC_AI_ERROR), st2)
              end
          end
      | (Throw e, st1) => (Throw e, st1)
      end
    else (Ret (createTextResponse NEED_PAIRING_SYNC),
          mkState (store st) (trace st ++ [EvIsVerified kakaoId])).
Proof.
  intros Hp. unfold handleWithoutCallback, queryVerified. rewrite Hp.
  comp_simpl. cbn [store trace].
  destruct (isUserVerified w kakaoId (store st)); cbn [negb]; [|done].
  destruct (isCommand utterance).
  - destruct (handleCommand w utterance kakaoId _) as [[r|e] st1]; [|done].
    destruct (answered r); [done|].
    by destruct (chat w kakaoId utterance st1) as [[resp|e] st2].
  - cbn. by destruct (chat w kakaoId utterance _) as [[resp|e] st2].
Qed.

Lemma async_unpaired kakaoId utterance callbackUrl (st : State w) :
  isPairing utterance = false ->
  processMessageAsync w kakaoId utterance callbackUrl st
  = if isUserVerified w kakaoId (store st)
    then
      match
        (if isCommand utterance
         then handleCommand w utterance kakaoId
                (mkState (store st) (trace st ++ [EvIsVerified kakaoId]))
         else (Ret notHandled,
               mkState (store st) (trace st ++ [EvIsVerified kakaoId])))
      with
      | (Ret r, st1) =>
          match answered r with
          | Some a =>
              sendCallback w callbackUrl a
                (Some (match quickReplies r with
                       | Some q => q
                       | None =>
                           if startsWith (lit "/clear") (toLowerCase utterance)
                           then [mkQuick (lit "새 대화 시작") (lit "안녕하세요")]
                           else [ mkQuick (lit "도움말") (lit "/help");
                                  mkQuick (lit "상태") (lit "/status") ]
                       end)) st1
          | None =>
              match chat w kakaoId utterance st1 with
              | (Ret resp, st2) =>
                  sendCallback w callbackUrl (text resp)
                    (Some CONTINUE_OR_NEW) st2
              | (Throw _, st2) =>
                  sendErrorCallback w callbackUrl ASYNC_ERROR st2
              end
          end
      | (Throw _, st1) => sendErrorCallback w callbackUrl ASYNC_ERROR st1
      end
    else sendCallback w callbackUrl NEED_PAIRING_ASYNC (Some HOW_TO_PAIR)
           (mkState (store st) (trace st ++ [EvIsVerified kakaoId])).
Proof.
  intros Hp. unfold processMessageAsync, queryVerified. rewrite Hp.
  comp_simpl. cbn [store trace].
  destruct (isUserVerified w kakaoId (store st)); cbn [negb]; [|done].
  destruct (isCommand utterance).
  - destruct (handleCommand w utterance kakaoId _) as [[r|e] st1]; [|done].
    destruct (answered r); [done|].
    by destruct (chat w kakaoId utterance st1) as [[resp|e] st2].
  - cbn. by destruct (chat w kakaoId utterance _) as [[resp|e] st2].
Qed.

End Routing.


Section TraceFacts.
Context (w : World).

Lemma extends_ret {A} (a : A) : extends w (mret a).
Proof. intros st. exists []. comp_simpl. simpl. by rewrite app_nil_r. Qed.

Lemma extends_runCli cmd : extends w (runCli w cmd).
Proof. intros st. rewrite runCli_eq. by eexists. Qed.

Lemma extends_clear sessionKey (r : jsstring) :
  extends w (clearHistory w sessionKey;; mret r).
Proof. intros st. unfold clearHistory. comp_simpl. by eexists. Qed.

Lemma extends_callHandler h a sessionKey :
  extends w (callHandler w h a sessionKey).
Proof.
  destruct h; cbn [callHandler]; try apply extends_ret;
    unfold modelHandler, resetHandler, clearHandler, skillHandler;
    repeat match goal with |- context [if ?b then _ else _] => destruct b end;
    first [apply extends_runCli | apply extends_clear].
Qed.

Lemma extends_computeResponse cmd a sessionKey :
  extends w (computeResponse w cmd a sessionKey).
Proof.
  intros st. unfold computeResponse.
  destruct (COMMANDS !! cmd) as [info|].
  - destruct (handler info) as [h|]; [|destruct (cli info) as [c|]].
    + destruct (extends_callHandler h a sessionKey st) as [evs Hevs].
      exists evs. comp_simpl. unfold extends in *.
      by destruct (callHandler w h a sessionKey st) as [[out|e] st1].
    + comp_simpl. rewrite runCli_eq. eexists.
      by destruct (execAsync w _) as [so se|e]; [|destruct (truthy _)].
    + apply extends_ret.
  - comp_simpl. rewrite runCli_eq. eexists.
    destruct (execAsync w _) as [so se|e]; [done|].
    destruct (truthy _); [done|]. by destruct (isUnknownCommandError e).
Qed.

Lemma extends_handleCommand msg sessionKey :
  extends w (handleCommand w msg sessionKey).
Proof.
  intros st. rewrite handleCommand_unfold.
  destruct (negb (isCommand msg)); [apply (extends_ret notHandled)|].
  case_bool_decide; [apply (extends_ret notHandled)|].
  destruct (extends_computeResponse (command (parseCommand msg))
              (args (parseCommand msg)) sessionKey st) as [evs Hevs].
  exists evs.
  by destruct (computeResponse w _ _ sessionKey st) as [[[early|out]|e] st'].
Qed.

Lemma handleCommand_returns msg sessionKey (st : State w) :
  exists r st', handleCommand w msg sessionKey st = (Ret r, st').
Proof.
  rewrite handleCommand_unfold.
  destruct (negb (isCommand msg)); [by eauto|].
  case_bool_decide; [by eauto|].
  destruct (computeResponse w _ _ sessionKey st) as [[[early|out]|e] st'];
    by eauto.
Qed.

End TraceFacts.

(** C10, as stated, fails for a sender who is not verified: the
    utterance [" /pair abc"] bypasses the pairing branch, but it is then
    answered with the prompt to pair on both paths; the command handler
    and the chat backend are not reached. *)
Lemma C10_unverified_sender_gets_prompt :
  isPairing (lit " /pair abc") = false
  /\ command (parseCommand (lit " /pair abc")) = lit "/pair"
  /\ handleWithoutCallback (sampleWorld notRecognized false gatewayDown)
       (lit "user") (lit " /pair abc")
       (sampleState notRecognized false gatewayDown)
     = (Ret (createTextResponse NEED_PAIRING_SYNC),
        @mkState (sampleWorld notRecognized false gatewayDown) tt
          [EvIsVerified (lit "user")])
  /\ processMessageAsync (sampleWorld notRecognized false gatewayDown)
       (lit "user") (lit " /pair abc") (lit "callback")
       (sampleState notRecognized false gatewayDown)
     = (Ret tt,
        @mkState (sampleWorld notRecognized false gatewayDown) tt
          [ EvIsVerified (lit "user");
            EvCallback (lit "callback") NEED_PAIRING_ASYNC (Some HOW_TO_PAIR) ]).
Proof. by vm_compute. Qed.

(** C10, amended: on both delivery paths the pairing branch is taken
    exactly when the raw utterance, in lower case and not trimmed,
    starts with ["/pair"]: then the only call into the session manager
    is the verification of the code, and otherwise the first thing that
    happens is the query whether the sender is verified.  A token that
    merely begins with the prefix, as in ["/paired x"], is routed to
    pairing (with the code ["x"]).  An utterance with white space before
    ["/pair"] is not: a sender who is not verified is answered with the
    prompt to pair and nothing else happens; for a verified sender the
    command handler reports ["/pair"] as not handled and the utterance
    goes through the chat exchange. *)
Theorem C10_pairing_routed_on_raw_prefix (w : World)
    (kakaoId utterance callbackUrl : jsstring) (st : State w) :
  (isPairing utterance = true ->
   trace (handleWithoutCallback w kakaoId utterance st).2
   = trace st ++ pairingTrace kakaoId utterance
   /\ exists t q,
       trace (processMessageAsync w kakaoId utterance callbackUrl st).2
       = trace st ++ pairingTrace kakaoId utterance
           ++ [EvCallback callbackUrl t q])
  /\ (isPairing utterance = false ->
      (exists evs,
          trace (handleWithoutCallback w kakaoId utterance st).2
          = trace st ++ EvIsVerified kakaoId :: evs)
      /\ (exists evs,
             trace (processMessageAsync w kakaoId utterance callbackUrl st).2
             = trace st ++ EvIsVerified kakaoId :: evs))
  /\ (isPairing utterance = false ->
      isUserVerified w kakaoId (store st) = false ->
      handleWithoutCallback w kakaoId utterance st
      = (Ret (createTextResponse NEED_PAIRING_SYNC),
         mkState (store st) (trace st ++ [EvIsVerified kakaoId]))
      /\ processMessageAsync w kakaoId utterance callbackUrl st
         = (Ret tt,
            mkState (store st)
              (trace st ++ [ EvIsVerified kakaoId;
                             EvCallback callbackUrl NEED_PAIRING_ASYNC
                               (Some HOW_TO_PAIR) ])))
  /\ (isPairing utterance = false ->
      isUserVerified w kakaoId (store st) = true ->
      command (parseCommand utterance) = lit "/pair" ->
      (exists r,
          handleWithoutCallback w kakaoId utterance st
          = (Ret (createTextResponse (text r)),
             mkState
               (addConversationMessage w kakaoId RoleAssistant (text r)
                  (addConversationMessage w kakaoId RoleUser utterance
                     (store st)))
               (trace st ++ EvIsVerified kakaoId
                  :: chatTrace w kakaoId utterance (text r) (store st))))
      /\ (exists r,
             processMessageAsync w kakaoId utterance callbackUrl st
             = (Ret tt,
                mkState
                  (addConversationMessage w kakaoId RoleAssistant (text r)
                     (addConversationMessage w kakaoId RoleUser utterance
                        (store st)))
                  (trace st ++ EvIsVerified kakaoId
                     :: chatTrace w kakaoId utterance (text r) (store st)
                     ++ [EvCallback callbackUrl (text r)
                           (Some CONTINUE_OR_NEW)]))))
  /\ (forall c rest, isSpace c = true -> isPairing (c :: rest) = false)
  /\ (forall ws a,
        forallb isSpace ws = true ->
        command (parseCommand (ws ++ lit "/pair" ++ lit " " ++ a))
        = lit "/pair")
  /\ isPairing (lit "/paired x") = true
  /\ pairingTrace kakaoId (lit "/paired x")
     = [EvVerifyPairing kakaoId (lit "x") None].
Proof.
  split; [intros Hp; split;
          [by apply sync_pairing | by apply async_pairing]|].
  assert (Hchat : forall st1 : State w,
             command (parseCommand utterance) = lit "/pair" ->
             (if isCommand utterance
              then handleCommand w utterance kakaoId st1
              else (Ret notHandled, st1)) = (Ret notHandled, st1)).
  { intros st1 Hc. destruct (isCommand utterance); [|done].
    by apply handleCommand_pair. }
  split.
  { intros Hp. rewrite sync_unpaired, async_unpaired by done.
    destruct (isUserVerified w kakaoId (store st)).
    2:{ split; [by exists []|]. eexists. unfold sendCallback. comp_simpl.
        cbn [snd trace]. by rewrite <- app_assoc. }
    assert (Hcmd : exists r st1 evs,
               (if isCommand utterance
                then handleCommand w utterance kakaoId
                       (mkState (store st) (trace st ++ [EvIsVerified kakaoId]))
                else (Ret notHandled,
                      mkState (store st) (trace st ++ [EvIsVerified kakaoId])))
               = (Ret r, st1)
               /\ trace st1 = trace st ++ EvIsVerified kakaoId :: evs).
    { destruct (isCommand utterance).
      - destruct (extends_handleCommand w utterance kakaoId
                    (mkState (store st) (trace st ++ [EvIsVerified kakaoId])))
          as [evs Hevs].
        destruct (handleCommand_returns w utterance kakaoId
                    (mkState (store st) (trace st ++ [EvIsVerified kakaoId])))
          as (r & st1 & Hr).
        rewrite Hr in Hevs |- *. exists r, st1, evs. split; [done|].
        cbn [snd trace] in Hevs. by rewrite Hevs, <- app_assoc.
      - exists notHandled,
          (mkState (store st) (trace st ++ [EvIsVerified kakaoId])), [].
        by split. }
    destruct Hcmd as (r & st1 & evs & -> & Hst1).
    destruct (chat_returns w kakaoId utterance st1) as [resp Hresp].
    destruct (answered r) as [a|].
    - split; [by exists evs|]. unfold sendCallback. comp_simpl.
      cbn [snd trace]. rewrite Hst1, <- app_assoc. by eexists.
    - rewrite Hresp. split.
      + cbn [snd trace]. rewrite Hst1, <- app_assoc. by eexists.
      + unfold sendCallback. comp_simpl. cbn [snd trace].
        rewrite Hst1, <- !app_assoc. by eexists. }
  split.
  { intros Hp Hv. rewrite sync_unpaired, async_unpaired, Hv by done.
    split; [done|]. unfold sendCallback. comp_simpl.
    cbn [store trace]. by rewrite <- app_assoc. }
  split.
  { intros Hp Hv Hc. rewrite sync_unpaired, async_unpaired, Hv by done.
    rewrite Hchat by done. cbn [answered notHandled handled].
    destruct (chat_returns w kakaoId utterance
                (mkState (store st) (trace st ++ [EvIsVerified kakaoId])))
      as [resp Hresp].
    rewrite Hresp. cbn [store trace]. unfold chatTrace.
    split; exists resp.
    - by rewrite <- app_assoc.
    - unfold sendCallback. comp_simpl. cbn [store trace].
      by rewrite <- !app_assoc. }
  split; [apply isPairing_leading_space|].
  split.
  { intros ws a Hws. rewrite parseCommand_leading_space by done.
    apply parseCommand_pair. }
  split; [by vm_compute|].
  unfold pairingTrace.
  replace (nonEmpty (pairingCode (lit "/paired x"))) with (Some (lit "x"))
    by (by vm_compute).
  replace (pairingName (lit "/paired x")) with (@None jsstring)
    by (by vm_compute).
  reflexivity.
Qed.

(** ** Instances *)

(** C1 at a concrete input: the unknown command ["/foo bar"] is
    forwarded as ["clawdbot foo bar"], and the shell's "is not
    recognized" makes the handler report it as not handled. *)
Lemma C1_forwarded_foo_bar :
  handleCommand (sampleWorld notRecognized true gatewayDown)
    (lit "/foo bar") (lit "user")
    (sampleState notRecognized true gatewayDown)
  = (Ret notHandled,
     @mkState (sampleWorld notRecognized true gatewayDown) tt
       [EvExec (lit "clawdbot foo bar")]).
Proof.
  destruct (C1_unknown_command_forwarded
              (sampleWorld notRecognized true gatewayDown)
              (lit "/foo bar") (lit "user")
              (sampleState notRecognized true gatewayDown))
    as (_ & Hunknown & _).
  - by vm_compute.
  - by vm_compute.
  - by vm_compute.
  - eapply Hunknown; by vm_compute.
Defined.

(** C9 at a concrete input: the think-depth value ["HIGH"] is
    confirmed, ["/think HIGH explain this"] is matched by the
    think-depth pattern, and ["/think HIGH"] is the directive
    extracted. *)
Lemma C9_think_HIGH_matches :
  includes NEXT_MESSAGE (optionHandler OptThink (lit "HIGH")) = true
  /\ (exists p,
        optionPattern OptThink = Some p
        /\ exec true p (lit "/think" ++ lit " " ++ lit "HIGH" ++ lit " "
                          ++ lit "explain this")
           = Some (mkMatch
                     (lit "/think" ++ lit " " ++ lit "HIGH" ++ lit " "
                        ++ takeWhile isSpace (lit "explain this"))
                     [slice1 (lit "/think"); lit "HIGH"]))
  /\ head (directives
             (extractDirectives
                (lit "/think" ++ lit " " ++ lit "HIGH" ++ lit " "
                   ++ lit "explain this")))
     = Some (lit "/think" ++ lit " " ++ lit "HIGH").
Proof.
  apply C9_accepted_value_matches_pattern.
  - apply (bool_decide_unpack _). by vm_compute.
  - apply (bool_decide_unpack _). by vm_compute.
  - apply (bool_decide_unpack _). by vm_compute.
Defined.

(** * Further properties *)

(** ** Escape sequences *)

Lemma rmatch_Char_nil {A} ic c caps
    (k : jsstring -> list jsstring -> option A) :
  rmatch ic (Char c) [] caps k = None.
Proof. reflexivity. Qed.

Lemma canon_false c : canon false c = c.
Proof. reflexivity. Qed.

Lemma ansiPattern_needs_escape c s :
  c <> 27 -> exec false ansiPattern (c :: s) = None.
Proof.
  intros Hc. unfold exec, ansiPattern, cat. cbn [foldr].
  rewrite rmatch_Seq, rmatch_Char_cons, !canon_false.
  by rewrite (proj2 (N.eqb_neq c 27)).
Qed.

Lemma removeAllFrom_skip r (a s : jsstring) :
  removeAllFrom r (length a) (a ++ s) = removeAllFrom r 0 s.
Proof. induction a as [|c a IH]; [done|]. exact IH. Qed.

(** X1: text without the escape character passes [stripAnsi]
    unchanged, whatever follows it; in particular a text with no escape
    character at all is returned as it is. *)
Theorem stripAnsi_plain_prefix (a b : jsstring) :
  27 ∉ a -> stripAnsi (a ++ b) = a ++ stripAnsi b.
Proof.
  unfold stripAnsi, removeAll. induction a as [|c a IH]; intros Ha; [done|].
  apply not_elem_of_cons in Ha as [Hc Ha].
  cbn [app removeAllFrom]. rewrite ansiPattern_needs_escape by done.
  by rewrite IH.
Qed.

Lemma plain_prefix_kept :
  stripAnsi (lit "ok " ++ [27; 91; 109] ++ lit "x")
  = lit "ok " ++ stripAnsi ([27; 91; 109] ++ lit "x").
Proof.
  apply (stripAnsi_plain_prefix (lit "ok ") ([27; 91; 109] ++ lit "x")).
  apply (bool_decide_unpack _). by vm_compute.
Defined.

(** X2: [stripAnsi] only takes units out: what it returns is a
    subsequence of its argument, and never longer. *)
Theorem stripAnsi_sublist (s : jsstring) :
  stripAnsi s `sublist_of` s /\ (length (stripAnsi s) <= length s)%nat.
Proof.
  assert (H : forall n, removeAllFrom ansiPattern n s `sublist_of` s).
  { induction s as [|c s IH]; intros n; [done|]. cbn [removeAllFrom].
    destruct n as [|n]; [|by apply sublist_cons].
    destruct (exec false ansiPattern (c :: s)) as [m|];
      [|by apply sublist_skip].
    destruct (length (matched m));
      [by apply sublist_skip | by apply sublist_cons]. }
  split; [apply H|]. apply sublist_length, H.
Qed.

Lemma ansi_final_not_param c : isAnsiFinal c = true -> isAnsiParam c = false.
Proof.
  unfold isAnsiFinal, isAnsiParam, isLower, isUpper, isDigit.
  intros H. apply orb_true_iff in H.
  destruct H as [H|H]; apply andb_true_iff in H as [H1 H2];
    apply N.leb_le in H1, H2;
    rewrite (proj2 (N.eqb_neq c 59)) by lia;
    rewrite (proj2 (N.leb_gt c 57)) by lia; by rewrite andb_false_r.
Qed.

(** X3: a control sequence (escape, bracket, digits and semicolons, one
    letter) at the head of a text is taken out whole. *)
Theorem stripAnsi_control_sequence (params : jsstring) (final : N)
    (s : jsstring) :
  forallb isAnsiParam params = true -> isAnsiFinal final = true ->
  stripAnsi ([27; 91] ++ params ++ [final] ++ s) = stripAnsi s.
Proof.
  intros Hp Hf. unfold stripAnsi, removeAll.
  assert (Hdrop : dropWhile isAnsiParam (params ++ final :: s) = final :: s).
  { induction params as [|c ps IH]; simpl in *.
    - by rewrite (ansi_final_not_param _ Hf).
    - apply andb_true_iff in Hp as [-> Hp]. by apply IH. }
  assert (Hexec : exists m,
             exec false ansiPattern (27 :: 91 :: params ++ final :: s) = Some m
             /\ length (matched m) = S (length (91 :: params ++ [final]))).
  { unfold exec, ansiPattern, cat. cbn [foldr].
    rewrite rmatch_Seq, rmatch_Char_cons, N.eqb_refl.
    rewrite rmatch_Seq, rmatch_Char_cons, N.eqb_refl.
    rewrite rmatch_Seq. cbn [rmatch]. fold isAnsiParam.
    rewrite star_greedy_eq; rewrite Hdrop; change (isLower final || isUpper final)
      with (isAnsiFinal final); rewrite Hf; [|by eauto].
    eexists. split; [reflexivity|]. cbn [matched].
    rewrite length_take. cbn [length]. rewrite !length_app. cbn [length].
    lia. }
  destruct Hexec as (m & Hm & Hlen).
  cbn [app removeAllFrom]. rewrite Hm, Hlen.
  change (removeAllFrom ansiPattern (length (91 :: params ++ [final]))
            (91 :: params ++ final :: s) = removeAllFrom ansiPattern 0 s).
  rewrite <- (removeAllFrom_skip ansiPattern (91 :: params ++ [final]) s).
  cbn [app]. by rewrite <- app_assoc.
Qed.

Lemma colour_sequence_stripped :
  forallb isAnsiParam (lit "1;31") = true
  /\ isAnsiFinal 109 = true
  /\ stripAnsi ([27; 91] ++ lit "1;31" ++ [109] ++ lit "error")
     = stripAnsi (lit "error").
Proof.
  split; [by vm_compute|]. split; [by vm_compute|].
  apply (stripAnsi_control_sequence (lit "1;31") 109 (lit "error"));
    by vm_compute.
Defined.

(** ** The child process *)

(** X4: [runCli] starts the command once and leaves the session store
    alone; a text it returns is trimmed; it throws exactly when the child
    process failed without any captured standard output, and then with
    the error of the child process. *)
Theorem runCli_outcome (w : World) (cmd : jsstring) (st : State w) :
  (runCli w cmd st).2 = mkState (store st) (trace st ++ [EvExec cmd])
  /\ (forall out, (runCli w cmd st).1 = Ret out -> trim out = out)
  /\ (forall e, (runCli w cmd st).1 = Throw e
                <-> execAsync w cmd = ExecErr e /\ errStdout e = []).
Proof.
  rewrite runCli_eq. cbn [fst snd]. split; [done|]. split.
  - intros out. destruct (execAsync w cmd) as [so se|e].
    + intros [= <-]. apply trim_idem.
    + destruct (truthy (errStdout e)); [|done].
      intros [= <-]. apply trim_idem.
  - intros e. destruct (execAsync w cmd) as [so se|e'].
    + split; [done|]. by intros [? _].
    + destruct (errStdout e') as [|c s] eqn:E; cbn [truthy].
      * split; [by intros [= <-] | by intros [[= <-] _]].
      * split; [done|]. intros [[= <-] H]. by rewrite H in E.
Qed.

(** ** The parser *)

Lemma parseCommand_cases msg :
  (exists c rest, trim msg = 47 :: c :: rest /\ isWord c = true)
  \/ (forall c rest, trim msg = 47 :: c :: rest -> isWord c = false).
Proof.
  destruct (trim msg) as [|x [|c rest]]; [by right|by right|].
  destruct (decide (x = 47)) as [->|Hx]; [|right; by intros ?? [= ? _]].
  destruct (isWord c) eqn:Ec; [left; by eauto|].
  right. by intros ?? [= <- _].
Qed.

(** X5: the parsed command does not depend on white space around the
    message, its argument text is trimmed, its token holds no ASCII
    capital, and for a message that is a command the token starts with
    the marker. *)
Theorem parseCommand_normal_form (msg : jsstring) :
  parseCommand (trim msg) = parseCommand msg
  /\ trim (args (parseCommand msg)) = args (parseCommand msg)
  /\ forallb (fun c => negb (isUpper c)) (command (parseCommand msg)) = true
  /\ (isCommand msg = true ->
      exists rest, command (parseCommand msg) = 47 :: rest).
Proof.
  split; [unfold parseCommand; by rewrite trim_idem|].
  destruct (parseCommand_cases msg) as [(c & rest & Et & Hc)|Hn].
  - rewrite (parseCommand_match _ _ _ Et Hc). cbn [command args].
    split; [apply trim_idem|]. split; [apply toLowerCase_no_upper|].
    intros _. rewrite toLowerCase_cons_ascii by lia. by eexists.
  - rewrite (parseCommand_no_match _ Hn). cbn [command args].
    split; [done|]. split; [apply toLowerCase_no_upper|].
    unfold isCommand. rewrite lit_marker. intros H.
    apply startsWith_spec in H as [r ->]. cbn [app].
    rewrite toLowerCase_cons_ascii by lia. by eexists.
Qed.

Ltac units :=
  repeat match goal with
    | H : _ && _ = true |- _ => apply andb_true_iff in H as [? ?]
    | H : _ || _ = true |- _ => apply orb_true_iff in H as [?|?]
    | H : (_ <=? _) = true |- _ => apply N.leb_le in H
    | H : (_ =? _) = true |- _ => apply N.eqb_eq in H
    end.

Lemma isWord_ascii c : isWord c = true -> 48 <= c < 128.
Proof. unfold isWord, isUpper, isLower, isDigit. intros H. units; lia. Qed.

Lemma isWord_not_space c : isWord c = true -> isSpace c = false.
Proof.
  intros Hw. apply isWord_ascii in Hw.
  destruct (isSpace c) eqn:Es; [|done]. unfold isSpace in Es. units; lia.
Qed.

Lemma asciiLower_word c :
  isWord c = true ->
  isWord (asciiLower c) = true /\ asciiLower (asciiLower c) = asciiLower c.
Proof.
  intros Hw. unfold asciiLower at 1 3. destruct (isUpper c) eqn:Eu.
  - pose proof (asciiLower_no_upper c) as Hu. unfold asciiLower in Hu |- *.
    rewrite Eu in Hu |- *. rewrite Hu. split; [|done].
    unfold isUpper in Eu. units. unfold isWord, isLower. rewrite Hu.
    by rewrite (proj2 (N.leb_le 97 (c + 32))), (proj2 (N.leb_le (c + 32) 122))
      by lia.
  - unfold asciiLower. by rewrite Eu.
Qed.

Lemma word_ascii (l : jsstring) :
  forallb isWord l = true -> forallb (fun c => c <? 128) l = true.
Proof.
  intros Hl. apply forallb_forall. intros c Hc.
  rewrite forallb_forall in Hl. apply Hl, isWord_ascii in Hc.
  apply N.ltb_lt. lia.
Qed.

Lemma toLowerCase_token (tok : jsstring) :
  forallb isWord tok = true -> toLowerCase (47 :: tok) = 47 :: toLowerCase tok.
Proof.
  intros Hw. apply word_ascii in Hw.
  rewrite (toLowerCase_ascii tok), (toLowerCase_ascii (47 :: tok)); [done| |done].
  cbn [forallb]. by rewrite Hw.
Qed.

Lemma toLowerCase_word (tok : jsstring) :
  forallb isWord tok = true ->
  forallb isWord (toLowerCase tok) = true
  /\ toLowerCase (toLowerCase tok) = toLowerCase tok
  /\ length (toLowerCase tok) = length tok.
Proof.
  intros Hw.
  pose proof word_ascii as Hascii.
  assert (Hmap : forallb isWord (map asciiLower tok) = true
                 /\ map asciiLower (map asciiLower tok) = map asciiLower tok).
  { clear Hascii. induction tok as [|c tok IH]; [done|]. cbn [forallb] in Hw.
    apply andb_true_iff in Hw as [Hc Ht]. destruct (IH Ht) as [IH1 IH2].
    destruct (asciiLower_word c Hc) as [H1 H2].
    cbn [map forallb]. by rewrite H1, H2, IH1, IH2. }
  destruct Hmap as [H1 H2].
  rewrite (toLowerCase_ascii tok) by by apply Hascii.
  rewrite (toLowerCase_ascii (map asciiLower tok)) by by apply Hascii.
  by rewrite length_map.
Qed.

Lemma takeWhile_app_stop {A} (p : A -> bool) (a b : list A) :
  forallb p a = true -> (forall x r, b = x :: r -> p x = false) ->
  takeWhile p (a ++ b) = a /\ dropWhile p (a ++ b) = b.
Proof.
  intros Ha Hb. induction a as [|x a IH]; cbn [app].
  - destruct b as [|y b]; [done|]. cbn. by rewrite (Hb y b).
  - cbn in Ha. apply andb_true_iff in Ha as [Hx Ha].
    cbn. rewrite Hx. destruct (IH Ha) as [-> ->]. done.
Qed.

Lemma handleCommand_ext (w : World) m1 m2 sessionKey (st : State w) :
  isCommand m1 = isCommand m2 -> parseCommand m1 = parseCommand m2 ->
  handleCommand w m1 sessionKey st = handleCommand w m2 sessionKey st.
Proof. intros H1 H2. by rewrite !handleCommand_unfold, H1, H2. Qed.

Lemma trim_token (tok rest : jsstring) :
  tok <> [] -> forallb isWord tok = true ->
  trim (47 :: tok ++ rest) = 47 :: tok ++ trimEnd rest.
Proof.
  intros Hne Hw. unfold trim, trimStart.
  rewrite (dropWhile_stop isSpace 47) by done.
  destruct (exists_last Hne) as (p & c & ->).
  rewrite forallb_app in Hw. apply andb_true_iff in Hw as [_ Hc].
  cbn in Hc. rewrite andb_true_r in Hc.
  change (47 :: (p ++ [c]) ++ rest) with (((47 :: p) ++ [c]) ++ rest).
  by rewrite trimEnd_app by by apply isWord_not_space.
Qed.

Lemma trimEnd_stop (p : N -> bool) (rest : jsstring) :
  (forall c r, rest = c :: r -> p c = false) ->
  forall c r, trimEnd rest = c :: r -> p c = false.
Proof.
  intros H c r E. destruct rest as [|x rest]; [done|].
  destruct (trimEnd_head x rest) as [E'|[s' E']]; rewrite E' in E; [done|].
  injection E as <- _. by eapply H.
Qed.

Lemma parseCommand_token (tok rest : jsstring) :
  tok <> [] -> forallb isWord tok = true ->
  (forall c r, rest = c :: r -> isWord c = false) ->
  isCommand (47 :: tok ++ rest) = true
  /\ parseCommand (47 :: tok ++ rest)
     = mkParsed (47 :: toLowerCase tok)
         (trim (restOfLine (dropWhile isSpace (skipColon (trimEnd rest))))).
Proof.
  intros Hne Hw Hrest.
  pose proof (trim_token tok rest Hne Hw) as Et.
  split; [unfold isCommand; by rewrite Et, lit_marker|].
  destruct tok as [|c tok]; [done|]. cbn [forallb] in Hw.
  apply andb_true_iff in Hw as [Hc Hw].
  rewrite (parseCommand_match _ c (tok ++ trimEnd rest) Et Hc).
  pose proof (trimEnd_stop isWord rest Hrest) as Hstop.
  destruct (takeWhile_app_stop isWord tok (trimEnd rest) Hw Hstop) as [Ht Hd].
  cbn [takeWhile]. rewrite Hc, Ht, Hd, toLowerCase_token; [done|].
  cbn [forallb]. by rewrite Hc, Hw.
Qed.

(** X6: the command token is read without regard to the case of its
    ASCII letters: a message whose token is spelled in any mix of
    capitals and small letters is handled exactly as the message with
    the token in small letters, and the command looked up is the token
    in small letters. *)
Theorem handleCommand_token_case (w : World) (tok rest sessionKey : jsstring)
    (st : State w) :
  tok <> [] -> forallb isWord tok = true ->
  (forall c r, rest = c :: r -> isWord c = false) ->
  command (parseCommand (47 :: tok ++ rest)) = 47 :: toLowerCase tok
  /\ handleCommand w (47 :: tok ++ rest) sessionKey st
     = handleCommand w (47 :: toLowerCase tok ++ rest) sessionKey st.
Proof.
  intros Hne Hw Hrest.
  destruct (parseCommand_token tok rest Hne Hw Hrest) as [Hc Hp].
  split; [by rewrite Hp|].
  destruct (toLowerCase_word tok Hw) as (Hlw & Hidem & Hlen).
  assert (Hlne : toLowerCase tok <> []).
  { intros E. rewrite E in Hlen. by destruct tok. }
  destruct (parseCommand_token (toLowerCase tok) rest Hlne Hlw Hrest)
    as [Hc' Hp'].
  apply handleCommand_ext; [by rewrite Hc, Hc'|].
  by rewrite Hp, Hp', Hidem.
Qed.

Lemma HELP_token_lowered :
  command (parseCommand (47 :: lit "HeLP" ++ lit " me")) = 47 :: lit "help"
  /\ handleCommand (sampleWorld notRecognized true gatewayDown)
       (47 :: lit "HeLP" ++ lit " me") (lit "user")
       (sampleState notRecognized true gatewayDown)
     = handleCommand (sampleWorld notRecognized true gatewayDown)
         (47 :: lit "help" ++ lit " me") (lit "user")
         (sampleState notRecognized true gatewayDown).
Proof.
  apply (handleCommand_token_case (sampleWorld notRecognized true gatewayDown)
           (lit "HeLP") (lit " me") (lit "user")
           (sampleState notRecognized true gatewayDown)).
  - by vm_compute.
  - by vm_compute.
  - intros c r. vm_compute. by intros [= <- _].
Defined.

(** ** What a command does to the session *)

Lemma callHandler_effect (w : World) h a sessionKey (st : State w) :
  if clears h
  then (callHandler w h a sessionKey st).2
       = mkState (clearConversationHistory w sessionKey (store st))
           (trace st ++ [EvClearHistory sessionKey])
  else (callHandler w h a sessionKey st).2 = st
       \/ exists cmd, (callHandler w h a sessionKey st).2
                      = mkState (store st) (trace st ++ [EvExec cmd]).
Proof.
  destruct h; cbn [clears callHandler]; try (by left);
    unfold modelHandler, resetHandler, clearHandler, skillHandler, clearHistory;
    repeat match goal with |- context [if ?b then _ else _] => destruct b end;
    try (right; rewrite runCli_eq; by eexists); done.
Qed.

Lemma COMMANDS_clears cmd info h :
  COMMANDS !! cmd = Some info -> handler info = Some h ->
  clears h = bool_decide (cmd ∈ clearingCommands).
Proof.
  intros H Hh. unfold COMMANDS in H. apply elem_of_list_to_map_2 in H.
  repeat (apply elem_of_cons in H as [H|H]);
    try (injection H as -> ->; cbn in Hh; try discriminate Hh;
         injection Hh as <-; by vm_compute).
  by apply elem_of_nil in H.
Qed.

Lemma clearingCommands_registered cmd :
  cmd ∈ clearingCommands ->
  exists info h, COMMANDS !! cmd = Some info /\ handler info = Some h
                 /\ clears h = true.
Proof.
  intros H. unfold clearingCommands in H.
  repeat (apply elem_of_cons in H as [->|H]);
    [| | |by apply elem_of_nil in H];
    eexists _, _; (split; [by vm_compute|by split]).
Qed.

Lemma cleared_not_kept (w : World) sessionKey (st : State w) :
  mkState (clearConversationHistory w sessionKey (store st))
    (trace st ++ [EvClearHistory sessionKey]) <> st.
Proof.
  intros E. apply (f_equal trace) in E. cbn [trace] in E.
  apply (f_equal length) in E. rewrite length_app in E. cbn in E. lia.
Qed.

Lemma cleared_not_exec (w : World) sessionKey cmd (st : State w) :
  mkState (clearConversationHistory w sessionKey (store st))
    (trace st ++ [EvClearHistory sessionKey])
  <> mkState (store st) (trace st ++ [EvExec cmd]).
Proof. intros [= _ E]. by apply app_inv_head in E. Qed.

Lemma fmap_state (w : World) {A B} (f : A -> B) (m : M w A) (st : State w) :
  ((f <$> m) st).2 = (m st).2.
Proof. comp_simpl. by destruct (m st) as [[a|e] s]. Qed.

Lemma runCli_state (w : World) cmd (st : State w) :
  (runCli w cmd st).2 = mkState (store st) (trace st ++ [EvExec cmd]).
Proof. by rewrite runCli_eq. Qed.

Lemma computeResponse_state (w : World) cmd a sessionKey (st : State w) :
  (computeResponse w cmd a sessionKey st).2
  = match COMMANDS !! cmd with
    | Some info =>
        match handler info, cli info with
        | Some h, _ => (callHandler w h a sessionKey st).2
        | None, Some c =>
            mkState (store st)
              (trace st ++ [EvExec (if truthy a then c ++ lit " " ++ a else c)])
        | None, None => st
        end
    | None =>
        mkState (store st) (trace st ++ [EvExec (forwardedCommand cmd a)])
    end.
Proof.
  destruct (COMMANDS !! cmd) as [info|] eqn:Ecmd.
  - unfold computeResponse. rewrite Ecmd.
    destruct (handler info) as [h|]; [|destruct (cli info) as [c|]].
    + apply fmap_state.
    + by rewrite fmap_state, runCli_state.
    + done.
  - rewrite (computeResponse_unknown w _ _ _ _ Ecmd).
    rewrite <- runCli_state.
    destruct (runCli w (forwardedCommand cmd a) st) as [[out|e] st1]; [done|].
    by destruct (isUnknownCommandError e).
Qed.

Lemma computeResponse_effect (w : World) cmd a sessionKey (st : State w) :
  CommandEffect w sessionKey st (computeResponse w cmd a sessionKey st).2
  /\ (cmd ∈ clearingCommands <->
      (computeResponse w cmd a sessionKey st).2
      = mkState (clearConversationHistory w sessionKey (store st))
          (trace st ++ [EvClearHistory sessionKey])).
Proof.
  rewrite computeResponse_state.
  assert (Hno : forall c,
             cmd ∈ clearingCommands -> COMMANDS !! cmd = Some c ->
             handler c = None -> False).
  { intros c Hin Hc Hh.
    destruct (clearingCommands_registered _ Hin) as (i & h & Hi & Hh' & _).
    congruence. }
  destruct (COMMANDS !! cmd) as [info|] eqn:Ecmd.
  - destruct (handler info) as [h|] eqn:Eh; [|destruct (cli info) as [c|]].
    + pose proof (COMMANDS_clears _ _ _ Ecmd Eh) as Hcl.
      pose proof (callHandler_effect w h a sessionKey st) as He.
      destruct (clears h); symmetry in Hcl.
      * apply bool_decide_eq_true in Hcl. rewrite He.
        split; [by apply HistoryCleared | done].
      * apply bool_decide_eq_false in Hcl.
        destruct He as [He|[c He]]; rewrite He.
        -- split; [by apply NoEffect|]. split; [done|].
           intros E. symmetry in E. by apply cleared_not_kept in E.
        -- split; [by eapply OneExec|]. split; [done|].
           intros E. symmetry in E. by apply cleared_not_exec in E.
    + split; [by eapply OneExec|]. split; [intros Hin; by destruct (Hno info)|].
      intros E. symmetry in E. by apply cleared_not_exec in E.
    + split; [by apply NoEffect|]. split; [intros Hin; by destruct (Hno info)|].
      intros E. symmetry in E. by apply cleared_not_kept in E.
  - split; [by eapply OneExec|]. split.
    + intros Hin.
      destruct (clearingCommands_registered _ Hin) as (i & h & Hi & _).
      congruence.
    + intros E. symmetry in E. by apply cleared_not_exec in E.
Qed.

Lemma handleCommand_state (w : World) msg sessionKey (st : State w) :
  (handleCommand w msg sessionKey st).2
  = if isCommand msg && negb (bool_decide (command (parseCommand msg) = lit "/pair"))
    then (computeResponse w (command (parseCommand msg))
            (args (parseCommand msg)) sessionKey st).2
    else st.
Proof.
  rewrite handleCommand_unfold. destruct (isCommand msg); [|done].
  case_bool_decide; [done|]. cbn [negb andb].
  by destruct (computeResponse w _ _ sessionKey st) as [[[early|out]|e] st'].
Qed.

(** X7: a call of [handleCommand] leaves at most one mark: it changes
    nothing, or it starts one child process and leaves the session store
    alone, or it clears the history of the session it was called for.
    The history is cleared exactly for the commands [/reset], [/new] and
    [/clear]. *)
Theorem handleCommand_effect (w : World) (msg sessionKey : jsstring)
    (st : State w) :
  CommandEffect w sessionKey st (handleCommand w msg sessionKey st).2
  /\ (isCommand msg = true
      /\ command (parseCommand msg) ∈ clearingCommands
      <-> (handleCommand w msg sessionKey st).2
          = mkState (clearConversationHistory w sessionKey (store st))
              (trace st ++ [EvClearHistory sessionKey])).
Proof.
  rewrite handleCommand_state.
  destruct (computeResponse_effect w (command (parseCommand msg))
              (args (parseCommand msg)) sessionKey st) as [He Hiff].
  destruct (isCommand msg); cbn [andb].
  - case_bool_decide as Hp; cbn [negb].
    + split; [by apply NoEffect|]. split.
      * intros [_ Hin]. rewrite Hp in Hin.
        assert (Hn : bool_decide (lit "/pair" ∈ clearingCommands) = false)
          by by vm_compute.
        by apply bool_decide_eq_false in Hn.
      * intros E. symmetry in E. by apply cleared_not_kept in E.
    + split; [done|]. rewrite <- Hiff. tauto.
  - split; [by apply NoEffect|]. split; [by intros [? _]|].
    intros E. symmetry in E. by apply cleared_not_kept in E.
Qed.

(** ** Aliases *)

Ltac lookup_commands :=
  repeat match goal with
    | |- context [COMMANDS !! ?k] =>
        let v := eval vm_compute in (COMMANDS !! k) in
        replace (COMMANDS !! k) with v by (vm_compute; reflexivity)
    end.

(** X8: an alias does what the command it stands for does: for every
    argument text, session and state the two compute the same response
    and leave the same state; and the table describes each alias as the
    alias of that command. *)
Theorem alias_same_behaviour (w : World) (a sessionKey : jsstring)
    (st : State w) :
  Forall (fun p =>
            computeResponse w p.1 a sessionKey st
            = computeResponse w p.2 a sessionKey st
            /\ (description <$> COMMANDS !! p.1)
               = Some (p.2 ++ lit " 별칭"))
    aliases.
Proof.
  unfold aliases.
  repeat (apply Forall_cons; split;
          [cbn [fst snd]; split;
           [unfold computeResponse; lookup_commands; reflexivity
           |by vm_compute]|]).
  by apply Forall_nil.
Qed.

(** ** Directive extraction, as a whole *)

Lemma within_refl s : within s s.
Proof. exists [], []. by rewrite app_nil_r. Qed.

Lemma within_trans a b c : within a b -> within b c -> within a c.
Proof.
  intros (l1 & r1 & ->) (l2 & r2 & ->). exists (l2 ++ l1), (r1 ++ r2).
  by rewrite <- !app_assoc.
Qed.

Lemma trimEnd_split s : exists ws, s = trimEnd s ++ ws /\ forallb isSpace ws = true.
Proof.
  unfold trimEnd. exists (rev (takeWhile isSpace (rev s))). split.
  - rewrite <- rev_app_distr, takeWhile_dropWhile. by rewrite rev_involutive.
  - generalize (rev s). intros l.
    assert (H : forallb isSpace (takeWhile isSpace l) = true).
    { induction l as [|c l IH]; [done|]. cbn.
      destruct (isSpace c) eqn:E; [|done]. cbn. by rewrite E. }
    rewrite forallb_forall in *. intros x Hx. apply H. by apply in_rev.
Qed.

Lemma trimStart_split s :
  exists ws, s = ws ++ trimStart s /\ forallb isSpace ws = true.
Proof.
  exists (takeWhile isSpace s). split.
  - unfold trimStart. by rewrite takeWhile_dropWhile.
  - induction s as [|c l IH]; [done|]. cbn.
    destruct (isSpace c) eqn:E; [|done]. cbn. by rewrite E.
Qed.

Lemma trim_split s :
  exists l r, s = l ++ trim s ++ r
              /\ forallb isSpace l = true /\ forallb isSpace r = true.
Proof.
  destruct (trimStart_split s) as (l & Hl & Hl').
  destruct (trimEnd_split (trimStart s)) as (r & Hr & Hr').
  exists l, r. unfold trim. by rewrite <- Hr, <- Hl.
Qed.

Lemma within_trim s : within (trim s) s.
Proof. destruct (trim_split s) as (l & r & H & _). by exists l, r. Qed.

Lemma inked_app a b : inked (a ++ b) = inked a ++ inked b.
Proof. apply List.filter_app. Qed.

Lemma inked_blank ws : forallb isSpace ws = true -> inked ws = [].
Proof.
  induction ws as [|c ws IH]; [done|]. cbn.
  intros H. apply andb_true_iff in H as [-> H]. by apply IH.
Qed.

Lemma inked_trim s : inked (trim s) = inked s.
Proof.
  destruct (trim_split s) as (l & r & H & Hl & Hr).
  rewrite H at 2. rewrite !inked_app, (inked_blank l), (inked_blank r) by done.
  by rewrite app_nil_r.
Qed.

Section MatcherSuffix.
Context {A : Type}.

(** The continuation of a match is called on what is left of the
    subject. *)
Lemma star_suffix (p : N -> bool) (s : jsstring) (k : jsstring -> option A) a :
  star p s k = Some a -> exists s', k s' = Some a /\ s' `suffix_of` s.
Proof.
  induction s as [|c s IH]; simpl; [by eauto|].
  destruct (p c); [|by eauto].
  destruct (star p s k) eqn:E; [|by eauto].
  intros [= <-]. destruct (IH eq_refl) as (s' & Hk & Hs).
  exists s'. split; [done|]. by apply suffix_cons_r.
Qed.

Lemma rmatch_suffix ic (r : regex) :
  forall s caps (k : jsstring -> list jsstring -> option A) a,
    rmatch ic r s caps k = Some a ->
    exists s' caps', k s' caps' = Some a /\ s' `suffix_of` s.
Proof.
  induction r as [|c|p|r1 IH1 r2 IH2|r1 IH1 r2 IH2|p|r IH];
    intros s caps k a; simpl.
  - by eauto.
  - destruct s as [|x s]; [done|]. destruct (_ =? _); [|done].
    intros H. exists s, caps. split; [done|]. by apply suffix_cons_r.
  - destruct s as [|x s]; [done|]. destruct (p x); [|done].
    intros H. exists s, caps. split; [done|]. by apply suffix_cons_r.
  - intros H. apply IH1 in H as (s1 & caps1 & H & Hs1).
    apply IH2 in H as (s2 & caps2 & H & Hs2).
    exists s2, caps2. split; [done|]. by etrans.
  - destruct (rmatch ic r1 s caps k) eqn:E.
    + intros [= <-]. by apply IH1 in E.
    + apply IH2.
  - intros H. apply star_suffix in H as (s' & H & Hs). by eauto.
  - intros H. apply IH in H as (s' & caps' & H & Hs). by eauto.
Qed.

End MatcherSuffix.

Lemma exec_split ic r s m :
  exec ic r s = Some m -> s = matched m ++ removeFirst (matched m) s.
Proof. apply removeFirst_matched. Qed.

Lemma canon_marker c : canon true c = canon true 47 -> c = 47.
Proof.
  change (canon true 47) with 47. unfold canon. cbn [andb].
  destruct (isLower c) eqn:E; [|done].
  unfold isLower in E. units. lia.
Qed.

Lemma directivePatterns_lead : Forall leadsWithMarker directivePatterns.
Proof.
  unfold directivePatterns, chars.
  replace (lit "/model") with (47 :: lit "model") by by vm_compute.
  repeat (apply Forall_cons; split; [by eexists; intros; reflexivity|]).
  apply Forall_cons; split.
  { exists (Seq (word (lit "model"))
              (cat [Plus isSpace; Group (Plus (fun c => negb (isSpace c)));
                    Plus isSpace])).
    by intros. }
  repeat (apply Forall_cons; split; [by eexists; intros; reflexivity|]).
  by apply Forall_nil.
Qed.

Lemma leadsWithMarker_exec p s m :
  leadsWithMarker p -> exec true p s = Some m ->
  exists x rest, matched m = 47 :: x /\ s = matched m ++ rest.
Proof.
  intros [r Hr] H. pose proof (exec_split _ _ _ _ H) as Hs.
  unfold exec in H. rewrite Hr, rmatch_Seq in H.
  destruct s as [|c t]; [done|]. rewrite rmatch_Char_cons in H.
  destruct (canon true c =? canon true 47) eqn:Ec; [|done].
  apply N.eqb_eq, canon_marker in Ec. subst c.
  apply rmatch_suffix in H as (s' & caps & [= <-] & Hsuf).
  cbn [matched] in *. apply suffix_length in Hsuf. cbn [length].
  replace (S (length t) - length s')%nat with (S (length t - length s'))
    by lia.
  cbn [take]. eexists _, _. split; [done|].
  replace (S (length t) - length s')%nat with (S (length t - length s'))
    in Hs by lia.
  exact Hs.
Qed.

Lemma leadsWithMarker_miss p s :
  leadsWithMarker p -> head s <> Some 47 -> exec true p s = None.
Proof.
  intros Hp Hs. destruct (exec true p s) as [m|] eqn:E; [|done].
  destruct (leadsWithMarker_exec _ _ _ Hp E) as (x & rest & Hm & Hsplit).
  rewrite Hsplit, Hm in Hs. done.
Qed.

(** X9: a message that does not start with the marker carries no
    directive: it comes back as it is, leading white space included. *)
Theorem extractDirectives_needs_marker (msg : jsstring) :
  head msg <> Some 47 -> extractDirectives msg = mkExtracted [] msg.
Proof.
  intros Hm. unfold extractDirectives.
  pose proof directivePatterns_lead as Hl.
  induction Hl as [|p ps Hp _ IH]; [done|]. cbn [foldl].
  rewrite directiveStep_miss; [done|]. by apply leadsWithMarker_miss.
Qed.

Lemma blank_before_marker_kept :
  head (lit " /think high x") <> Some 47
  /\ extractDirectives (lit " /think high x")
     = mkExtracted [] (lit " /think high x").
Proof.
  assert (H : head (lit " /think high x") <> Some 47) by by vm_compute.
  split; [exact H|]. exact (extractDirectives_needs_marker _ H).
Defined.

Lemma trim_marker x : exists y, trim (47 :: x) = 47 :: y.
Proof.
  unfold trim, trimStart. rewrite (dropWhile_stop isSpace 47) by done.
  by apply trimEnd_cons.
Qed.

Lemma foldl_directiveStep_parts ps :
  Forall leadsWithMarker ps ->
  forall a, exists ds,
    directives (foldl directiveStep a ps) = directives a ++ ds
    /\ (length ds <= length ps)%nat
    /\ within (cleanMessage (foldl directiveStep a ps)) (cleanMessage a)
    /\ Forall (fun d => within d (cleanMessage a) /\ trim d = d
                        /\ head d = Some 47) ds
    /\ inked (cleanMessage a)
       = inked (concat ds ++ cleanMessage (foldl directiveStep a ps)).
Proof.
  induction 1 as [|p ps Hp _ IH]; intros a.
  - exists []. cbn [foldl]. rewrite app_nil_r.
    repeat split; [done|apply within_refl|done].
  - cbn [foldl].
    destruct (directiveStep_cases a p) as [(m & Hm & ->)|[_ ->]].
    + destruct (leadsWithMarker_exec _ _ _ Hp Hm) as (x & rest & Hx & Hs).
      pose proof (exec_split _ _ _ _ Hm) as Hs'.
      rewrite Hs in Hs' at 1. apply app_inv_head in Hs'. rewrite <- Hs'.
      destruct (IH (mkExtracted (directives a ++ [trim (matched m)])
                      (trim rest)))
        as (ds & Hds & Hlen & Hin & Hall & Hink).
      cbn [directives cleanMessage] in *.
      exists (trim (matched m) :: ds). rewrite Hds, <- app_assoc.
      assert (Hrest : within (trim rest) (cleanMessage a)).
      { apply (within_trans _ rest); [apply within_trim|].
        exists (matched m), []. by rewrite app_nil_r. }
      repeat split.
      * cbn [length]. lia.
      * by apply (within_trans _ (trim rest)).
      * apply Forall_cons. split.
        -- split; [|split; [apply trim_idem|]].
           ++ apply (within_trans _ (matched m)); [apply within_trim|].
              exists [], rest. by rewrite Hs.
           ++ rewrite Hx. by destruct (trim_marker x) as [y ->].
        -- eapply Forall_impl; [exact Hall|].
           intros d (Hd & ? & ?). split; [|done].
           by apply (within_trans _ (trim rest)).
      * cbn [concat]. rewrite Hs at 1.
        rewrite <- app_assoc, !inked_app, inked_trim.
        rewrite <- (inked_trim rest), Hink, inked_app. done.
    + destruct (IH a) as (ds & Hds & Hlen & Hin & Hall & Hink).
      exists ds. repeat split; try done. cbn [length]. lia.
Qed.

(** X10: extraction moves no text and invents none.  The units of the
    message that are not white space are those of the directives, in
    the order found, followed by those of the clean message; the clean
    message and every directive occur in the message as they are. *)
Theorem extractDirectives_conserves (msg : jsstring) :
  inked msg
  = inked (concat (directives (extractDirectives msg))
           ++ cleanMessage (extractDirectives msg))
  /\ within (cleanMessage (extractDirectives msg)) msg
  /\ Forall (fun d => within d msg) (directives (extractDirectives msg)).
Proof.
  destruct (foldl_directiveStep_parts _ directivePatterns_lead
              (mkExtracted [] msg))
    as (ds & Hds & _ & Hin & Hall & Hink).
  fold (extractDirectives msg) in *. cbn [directives cleanMessage app] in *.
  rewrite Hds. split; [done|]. split; [done|].
  eapply Forall_impl; [exact Hall|]. by intros d [? _].
Qed.

(** X11: at most one directive is found for each of the six patterns,
    and each directive is a trimmed text that starts with the marker. *)
Theorem extractDirectives_directives (msg : jsstring) :
  (length (directives (extractDirectives msg)) <= 6)%nat
  /\ Forall (fun d => trim d = d /\ head d = Some 47)
       (directives (extractDirectives msg)).
Proof.
  destruct (foldl_directiveStep_parts _ directivePatterns_lead
              (mkExtracted [] msg))
    as (ds & Hds & Hlen & _ & Hall & _).
  fold (extractDirectives msg) in *. cbn [directives cleanMessage app] in *.
  rewrite Hds. split; [exact Hlen|].
  eapply Forall_impl; [exact Hall|]. by intros d (_ & ? & ?).
Qed.

(** ** The chat bridge, the request and the answer *)

Lemma lastTen_suffix {A} (l : list A) : lastTen l `suffix_of` l.
Proof. unfold lastTen. apply suffix_drop. Qed.

Lemma lastTen_length {A} (l : list A) :
  length (lastTen l) = Nat.min 10 (length l).
Proof. unfold lastTen. rewrite length_drop. lia. Qed.

(** X12: the request sent to the gateway.  Its message list ends with
    the user's message; before it come the last ten messages of the
    history, or all of them when there are at most ten, in their order;
    and a system message comes first exactly when a system prompt is
    configured.  So the list holds at most twelve messages. *)
Theorem chatRequest_messages (w : World) (msg : jsstring)
    (history : list ConversationMessage) :
  let ms := reqMessages (chatRequest w msg history) in
  let sys := match nonEmpty (systemPrompt w) with
             | Some p => [mkMessage RoleSystem p]
             | None => []
             end in
  last ms = Some (mkMessage RoleUser msg)
  /\ (exists older recent,
         history = older ++ recent
         /\ length recent = Nat.min 10 (length history)
         /\ ms = sys ++ recent ++ [mkMessage RoleUser msg])
  /\ (length ms <= 12)%nat
  /\ ((length history <= 10)%nat ->
      ms = sys ++ history ++ [mkMessage RoleUser msg]).
Proof.
  cbn zeta. unfold chatRequest. cbn [reqMessages].
  set (sys := match nonEmpty (systemPrompt w) with
              | Some p => [mkMessage RoleSystem p]
              | None => []
              end).
  assert (Hsys : (length sys <= 1)%nat).
  { unfold sys. by destruct (nonEmpty (systemPrompt w)); cbn; lia. }
  split; [by rewrite !app_assoc, last_snoc|].
  split.
  { destruct (lastTen_suffix history) as [older Ho].
    exists older, (lastTen history). by rewrite lastTen_length. }
  split.
  { rewrite !length_app, lastTen_length. cbn [length]. lia. }
  intros Hlen. unfold lastTen.
  replace (length history - 10)%nat with 0%nat by lia. done.
Qed.

Lemma nonEmpty_Some o c : nonEmpty o = Some c -> o = Some c /\ c <> [].
Proof.
  destruct o as [s|]; [|done]. cbn. destruct s as [|x s]; [done|].
  by intros [= <-].
Qed.

(** X13: [askClawdbot] always returns an answer whose text is not
    empty, after exactly one request to the gateway and without touching
    the session store.  The text is the content of the first choice when
    there is one and it is not empty, the text for a missing answer when
    the first choice has no content, and the general failure text when
    the body has no list of choices at all. *)
Theorem askClawdbot_answer (w : World) (msg sessionKey : jsstring)
    (history : list ConversationMessage) (st : State w) :
  exists r,
    askClawdbot w msg sessionKey history st
    = (Ret r,
       mkState (store st) (trace st ++ [EvFetch (chatRequest w msg history)]))
    /\ text r <> []
    /\ (forall body,
          fetch w (chatRequest w msg history) = FetchOk body ->
          match choices body with
          | None => text r = FAILURE_FALLBACK
          | Some [] => text r = NO_ANSWER
          | Some (c :: _) =>
              match nonEmpty (mjoin (choiceMessage c)) with
              | Some content => text r = content
              | None => text r = NO_ANSWER
              end
          end).
Proof.
  assert (HT : TIMEOUT_FALLBACK <> []) by by vm_compute.
  assert (HF : FAILURE_FALLBACK <> []) by by vm_compute.
  assert (HN : NO_ANSWER <> []) by by vm_compute.
  destruct (askClawdbot_returns w msg sessionKey history st) as [r Hr].
  exists r. split; [exact Hr|]. revert Hr.
  unfold askClawdbot, askClawdbotGateway, firstContent. comp_simpl. cbv zeta.
  destruct (fetch w (chatRequest w msg history)) as [e|status body|e|result].
  - intros [= <-]. split; [|done]. cbn [text].
    destruct (_ || _); [exact HT|exact HF].
  - intros [= <-]. split; [|done]. cbn [text].
    destruct (_ || _); [exact HT|exact HF].
  - intros [= <-]. split; [|done]. cbn [text].
    destruct (_ || _); [exact HT|exact HF].
  - destruct (choices result) as [[|c cs]|] eqn:Ech.
    + cbn [nonEmpty truthy]. intros [= <-]. split; [exact HN|].
      intros body [= <-]. by rewrite Ech.
    + intros [= <-]. cbn [text]. split.
      * destruct (nonEmpty (mjoin (choiceMessage c))) as [content|] eqn:E;
          [|exact HN].
        by apply nonEmpty_Some in E as [_ E].
      * intros body [= <-]. rewrite Ech. cbn beta iota.
        by destruct (nonEmpty (mjoin (choiceMessage c))).
    + assert (Hno : includes (lit "timeout")
                    (errorToString
                       (mkError (lit "TypeError")
                          (lit "Cannot read properties of undefined (reading '0')")
                          []))
                  || includes (lit "ETIMEDOUT")
                       (errorToString
                          (mkError (lit "TypeError")
                             (lit "Cannot read properties of undefined (reading '0')")
                             [])) = false) by by vm_compute.
      cbn beta iota. rewrite Hno. intros [= <-]. split; [exact HF|].
      intros body [= <-]. by rewrite Ech.
Qed.

(** ** The two delivery paths *)

Lemma trim_cons_inked c s : isSpace c = false -> trim (c :: s) <> [].
Proof.
  intros Hc. unfold trim, trimStart. rewrite dropWhile_stop by done.
  by destruct (trimEnd_cons c s Hc) as [s' ->].
Qed.

Lemma lit_cross :
  lit "❌ 명령어 실행 중 오류가 발생했습니다."
  = 10060 :: lit " 명령어 실행 중 오류가 발생했습니다.".
Proof. by vm_compute. Qed.

Lemma errorText_inked e : trim (errorText e) <> [].
Proof.
  unfold errorText, lines. cbn [join]. rewrite lit_cross.
  apply trim_cons_inked. reflexivity.
Qed.

Lemma settled_inked out : trim (settled out) <> [].
Proof.
  unfold settled. case_bool_decide as E; [by vm_compute|done].
Qed.

(** A handled message carries a response that is not blank, and one
    that is not handled carries nothing. *)
Lemma handleCommand_answered (w : World) (msg sessionKey : jsstring)
    (st : State w) :
  exists r st',
    handleCommand w msg sessionKey st = (Ret r, st')
    /\ (handled r = true ->
        exists s, response r = Some s /\ trim s <> [] /\ answered r = Some s)
    /\ (handled r = false -> r = notHandled /\ answered r = None).
Proof.
  rewrite handleCommand_unfold.
  destruct (negb (isCommand msg)); [by eexists _, _|].
  case_bool_decide; [by eexists _, _|].
  destruct (computeResponse w _ _ sessionKey st) as [[[early|out]|e] st']
    eqn:E.
  - apply computeResponse_early in E as ->. by eexists _, _.
  - eexists _, _. split; [done|]. split; [|done]. intros _.
    exists (settled out). pose proof (settled_inked out) as Hs.
    split; [done|]. split; [done|]. cbn [answered handled response nonEmpty].
    destruct (settled out); [by destruct Hs|done].
  - eexists _, _. split; [done|]. split; [|done]. intros _.
    exists (errorText e). pose proof (errorText_nonempty e) as Hs.
    split; [done|]. split; [apply errorText_inked|].
    cbn [answered handled response nonEmpty].
    by destruct (errorText e).
Qed.

(** X14: the two delivery paths do the same work.  On every input the
    synchronous path returns a reply, and the asynchronous path leaves
    the state the synchronous one leaves, followed by exactly one
    callback to the given address; the error callback is not used for
    any outcome of the command line or of the gateway.  The callback
    carries the text of the synchronous reply, except for the prompt to
    pair, which is worded differently on the two paths. *)
Theorem delivery_paths_agree (w : World)
    (kakaoId utterance callbackUrl : jsstring) (st : State w) :
  exists reply st1 t q,
    handleWithoutCallback w kakaoId utterance st = (Ret reply, st1)
    /\ processMessageAsync w kakaoId utterance callbackUrl st
       = (Ret tt,
          mkState (store st1) (trace st1 ++ [EvCallback callbackUrl t q]))
    /\ (t = replyText reply
        \/ (isPairing utterance = false
            /\ isUserVerified w kakaoId (store st) = false
            /\ replyText reply = NEED_PAIRING_SYNC
            /\ t = NEED_PAIRING_ASYNC)).
Proof.
  destruct (isPairing utterance) eqn:Hp.
  - unfold handleWithoutCallback, processMessageAsync, handlePairingCommand.
    rewrite Hp. destruct (nonEmpty (pairingCode utterance)) as [code|].
    + unfold verifyPairing, sendCallback. comp_simpl. cbn [store trace fst snd].
      destruct (pairSuccess _); eexists _, _, _, _;
        (split; [reflexivity|]); (split; [reflexivity|]); by left.
    + unfold sendCallback. comp_simpl. eexists _, _, _, _.
      split; [reflexivity|]. split; [reflexivity|]. by left.
  - rewrite sync_unpaired, async_unpaired by done.
    destruct (isUserVerified w kakaoId (store st)).
    2:{ unfold sendCallback. comp_simpl. eexists _, _, _, _.
        split; [reflexivity|]. split; [reflexivity|]. by right. }
    assert (Hcmd : exists r st1,
               (if isCommand utterance
                then handleCommand w utterance kakaoId
                       (mkState (store st) (trace st ++ [EvIsVerified kakaoId]))
                else (Ret notHandled,
                      mkState (store st) (trace st ++ [EvIsVerified kakaoId])))
               = (Ret r, st1)).
    { destruct (isCommand utterance); [apply handleCommand_returns|].
      by eexists _, _. }
    destruct Hcmd as (r & st1 & ->).
    destruct (answered r) as [a|].
    + unfold sendCallback. comp_simpl. eexists _, _, _, _.
      split; [reflexivity|]. split; [reflexivity|]. left.
      by destruct (quickReplies r).
    + destruct (chat_returns w kakaoId utterance st1) as [resp ->].
      unfold sendCallback. comp_simpl. eexists _, _, _, _.
      split; [reflexivity|]. split; [reflexivity|]. by left.
Qed.

Lemma handleCommand_summary (w : World) msg sessionKey (st : State w) :
  exists r st1,
    handleCommand w msg sessionKey st = (Ret r, st1)
    /\ CommandEffect w sessionKey st st1
    /\ (forall q, quickReplies r = Some q ->
                  q = QUICK_COMMANDS /\ trim msg = [47]).
Proof.
  pose proof (handleCommand_state w msg sessionKey st) as Hst.
  pose proof (computeResponse_effect w (command (parseCommand msg))
                (args (parseCommand msg)) sessionKey st) as [He _].
  rewrite handleCommand_unfold in *.
  destruct (isCommand msg); cbn [negb andb] in *;
    [|eexists _, _; split; [done|]; split; [by apply NoEffect|done]].
  case_bool_decide as Hp; cbn [negb] in *;
    [eexists _, _; split; [done|]; split; [by apply NoEffect|done]|].
  destruct (computeResponse w _ _ sessionKey st) as [[[early|out]|e] st']
    eqn:E; cbn [snd] in *.
  - apply computeResponse_early in E as ->. by eexists _, _.
  - eexists _, _. split; [done|]. split; [done|]. cbn [quickReplies].
    case_bool_decide as Hroot; [|done]. intros q [= <-].
    split; [done|]. by apply parseCommand_root.
  - by eexists _, _.
Qed.

Lemma CommandEffect_trace (w : World) sessionKey (st st' : State w) :
  CommandEffect w sessionKey st st' ->
  exists evs, trace st' = trace st ++ evs /\ existsb isCallback evs = false.
Proof.
  intros [->| cmd ->| ->]; cbn [trace]; [exists []|by eexists|by eexists].
  by rewrite app_nil_r.
Qed.

(** X15: the synchronous path always returns a reply and sends no
    callback.  Its reply carries quick-reply buttons only for the bare
    marker from a verified sender, and then the seven of the quick
    command list. *)
Theorem sync_reply_shape (w : World) (kakaoId utterance : jsstring)
    (st : State w) :
  exists reply st1 evs,
    handleWithoutCallback w kakaoId utterance st = (Ret reply, st1)
    /\ trace st1 = trace st ++ evs
    /\ existsb isCallback evs = false
    /\ (forall q, replyQuickReplies reply = Some q ->
                  q = QUICK_COMMANDS
                  /\ trim utterance = [47]
                  /\ isUserVerified w kakaoId (store st) = true).
Proof.
  destruct (isPairing utterance) eqn:Hp.
  - pose proof (sync_pairing w kakaoId utterance st Hp) as Ht.
    assert (Hev : existsb isCallback (pairingTrace kakaoId utterance) = false).
    { unfold pairingTrace. by destruct (nonEmpty (pairingCode utterance)). }
    revert Ht. unfold handleWithoutCallback. rewrite Hp.
    destruct (nonEmpty (pairingCode utterance)) as [code|].
    + unfold verifyPairing. comp_simpl. cbn [store trace fst snd]. intros Ht.
      by eexists _, _, _.
    + comp_simpl. intros Ht. by eexists _, _, _.
  - rewrite sync_unpaired by done.
    destruct (isUserVerified w kakaoId (store st)); [|by eexists _, _, _].
    assert (Hcmd : exists r st1 evs,
               (if isCommand utterance
                then handleCommand w utterance kakaoId
                       (mkState (store st) (trace st ++ [EvIsVerified kakaoId]))
                else (Ret notHandled,
                      mkState (store st) (trace st ++ [EvIsVerified kakaoId])))
               = (Ret r, st1)
               /\ trace st1 = trace st ++ EvIsVerified kakaoId :: evs
               /\ existsb isCallback evs = false
               /\ (forall q, quickReplies r = Some q ->
                             q = QUICK_COMMANDS /\ trim utterance = [47])).
    { destruct (isCommand utterance).
      - destruct (handleCommand_summary w utterance kakaoId
                    (mkState (store st) (trace st ++ [EvIsVerified kakaoId])))
          as (r & st1 & Hr & He & Hq).
        apply CommandEffect_trace in He as (evs & Hevs & Hno).
        exists r, st1, evs. cbn [trace] in Hevs.
        by rewrite Hevs, <- app_assoc.
      - exists notHandled,
          (mkState (store st) (trace st ++ [EvIsVerified kakaoId])), [].
        by split. }
    destruct Hcmd as (r & st1 & evs & -> & Ht & Hno & Hq).
    destruct (answered r) as [a|].
    + eexists _, _, _. split; [reflexivity|]. split; [exact Ht|].
      split; [exact Hno|]. intros q.
      destruct (quickReplies r) as [q'|]; [|done].
      cbn [addQuickReplies replyQuickReplies]. intros [= <-].
      by destruct (Hq q' eq_refl).
    + destruct (chat_returns w kakaoId utterance st1) as [resp ->].
      eexists _, _, _. split; [reflexivity|]. cbn [trace].
      rewrite Ht, <- app_assoc. cbn [app]. split; [reflexivity|].
      split; [|done]. cbn [existsb isCallback orb].
      rewrite existsb_app, Hno. done.
Qed.

(** ** Splitting *)

Lemma splitSpaces_solid (a : jsstring) :
  forallb (fun c => negb (isSpace c)) a = true -> splitSpaces a = [a].
Proof.
  induction a as [|c a IH]; [done|]. cbn [forallb splitSpaces].
  intros H. apply andb_true_iff in H as [Hc Ha].
  apply negb_true_iff in Hc. by rewrite Hc, IH.
Qed.

Lemma splitSpaces_blank (sep rest : jsstring) :
  blank sep -> (forall c r, rest = c :: r -> isSpace c = false) ->
  splitSpaces (sep ++ rest) = [] :: splitSpaces rest.
Proof.
  intros [Hne Hsep] Hrest. induction sep as [|c sep IH]; [done|].
  cbn [forallb] in Hsep. apply andb_true_iff in Hsep as [Hc Hsep].
  cbn [app splitSpaces]. rewrite Hc.
  destruct sep as [|c' sep].
  - cbn [app]. destruct rest as [|x rest]; [done|].
    by rewrite (Hrest x rest).
  - cbn [app]. cbn [forallb] in Hsep.
    pose proof Hsep as Hsep'. apply andb_true_iff in Hsep' as [-> _].
    by apply IH.
Qed.

Lemma splitSpaces_word (a sep rest : jsstring) :
  forallb (fun c => negb (isSpace c)) a = true ->
  blank sep -> (forall c r, rest = c :: r -> isSpace c = false) ->
  splitSpaces (a ++ sep ++ rest) = a :: splitSpaces rest.
Proof.
  intros Ha Hsep Hrest. induction a as [|c a IH].
  - cbn [app]. by apply splitSpaces_blank.
  - cbn [forallb] in Ha. apply andb_true_iff in Ha as [Hc Ha].
    apply negb_true_iff in Hc. cbn [app splitSpaces]. by rewrite Hc, IH.
Qed.

Lemma splitSpaces_spaced (a : jsstring) (sws : list (jsstring * jsstring)) :
  forallb (fun c => negb (isSpace c)) a = true ->
  Forall (fun sw => blank sw.1 /\ solid sw.2) sws ->
  splitSpaces (a ++ spaced sws) = a :: map snd sws.
Proof.
  intros Ha Hs. revert a Ha. induction Hs as [|[s x] sws [Hb [Hne Hx]] _ IH];
    intros a Ha.
  - cbn. rewrite app_nil_r. by apply splitSpaces_solid.
  - unfold spaced. cbn [flat_map fst snd map]. rewrite <- app_assoc.
    rewrite splitSpaces_word; [|done|done|].
    + f_equal. by apply IH.
    + cbn [fst snd] in *. destruct x as [|c x]; [done|].
      cbn [app]. intros ? ? [= <- _]. cbn in Hx.
      apply andb_true_iff in Hx as [Hx _]. by apply negb_true_iff.
Qed.

Lemma join_nonempty sep (w : jsstring) ws : w <> [] -> join sep (w :: ws) <> [].
Proof. destruct w; [done|]. by destruct ws. Qed.

(** X16: how a pairing request is read.  In an utterance made of
    [/pair], a code and any number of further words, separated by runs
    of white space of any length, the code is the first word after
    [/pair], and the name is the remaining words joined by single
    blanks; there is no name when no word follows the code. *)
Theorem pairing_parts (sep : jsstring) (code : jsstring)
    (sws : list (jsstring * jsstring)) :
  blank sep -> solid code ->
  Forall (fun sw => blank sw.1 /\ solid sw.2) sws ->
  let utterance := lit "/pair" ++ sep ++ code ++ spaced sws in
  isPairing utterance = true
  /\ nonEmpty (pairingCode utterance) = Some code
  /\ pairingName utterance
     = match sws with
       | [] => None
       | _ => Some (join (lit " ") (map snd sws))
       end.
Proof.
  intros Hsep Hcode Hsws utterance.
  assert (Hsplit : splitSpaces utterance = lit "/pair" :: code :: map snd sws).
  { unfold utterance.
    replace (sep ++ code ++ spaced sws) with (spaced ((sep, code) :: sws))
      by (unfold spaced; cbn [flat_map fst snd]; by rewrite <- app_assoc).
    apply splitSpaces_spaced; [by vm_compute|]. by apply Forall_cons. }
  split.
  { unfold isPairing, utterance.
    rewrite toLowerCase_ascii_app by by vm_compute.
    replace (map asciiLower (lit "/pair")) with (lit "/pair")
      by by vm_compute.
    apply startsWith_app. }
  unfold pairingCode, pairingName. rewrite Hsplit.
  change (drop 2 (lit "/pair" :: code :: map snd sws))
    with (drop 0 (map snd sws)).
  split.
  { change ((lit "/pair" :: code :: map snd sws) !! 1%nat) with (Some code).
    destruct Hcode as [Hne _]. cbn [nonEmpty]. by destruct code. }
  destruct Hsws as [|[s x] sws [_ [Hne _]] _]; [done|].
  cbn [map snd nonEmpty] in *.
  pose proof (join_nonempty (lit " ") x (map snd sws) Hne) as Hj.
  rewrite drop_0.
  by destruct (join (lit " ") (x :: map snd sws)).
Qed.

Lemma Hong_Gil_paired :
  isPairing (lit "/pair" ++ lit " " ++ lit "abc"
               ++ spaced [(lit "  ", lit "Hong"); (lit " ", lit "Gil")])
  = true
  /\ nonEmpty (pairingCode
                 (lit "/pair" ++ lit " " ++ lit "abc"
                    ++ spaced [(lit "  ", lit "Hong"); (lit " ", lit "Gil")]))
     = Some (lit "abc")
  /\ pairingName
       (lit "/pair" ++ lit " " ++ lit "abc"
          ++ spaced [(lit "  ", lit "Hong"); (lit " ", lit "Gil")])
     = Some (lit "Hong Gil").
Proof.
  apply (pairing_parts (lit " ") (lit "abc")
           [(lit "  ", lit "Hong"); (lit " ", lit "Gil")]).
  - split; by vm_compute.
  - split; by vm_compute.
  - repeat (apply Forall_cons; split; [repeat split; by vm_compute|]).
    by apply Forall_nil.
Defined.

Lemma splitOn_nonempty d s : splitOn d s <> [].
Proof.
  destruct s as [|c s]; [done|]. cbn [splitOn].
  destruct (c =? d); [done|]. by destruct (splitOn d s).
Qed.

(** Splitting at a unit and joining with it gives the text back. *)
Lemma join_splitOn d s : join [d] (splitOn d s) = s.
Proof.
  induction s as [|c s IH]; [done|]. cbn [splitOn].
  pose proof (splitOn_nonempty d s) as Hne.
  destruct (c =? d) eqn:E.
  - apply N.eqb_eq in E as ->.
    destruct (splitOn d s) as [|p ps]; [done|].
    change (join [d] ([] :: p :: ps)) with (d :: join [d] (p :: ps)).
    by rewrite IH.
  - destruct (splitOn d s) as [|p ps]; [done|]. rewrite <- IH.
    by destruct ps.
Qed.

Lemma splitOn_first d (name input : jsstring) :
  d ∉ name -> splitOn d (name ++ d :: input) = name :: splitOn d input.
Proof.
  induction name as [|c name IH]; intros Hn.
  - cbn [app splitOn]. by rewrite N.eqb_refl.
  - apply not_elem_of_cons in Hn as [Hc Hn]. cbn [app splitOn].
    rewrite (proj2 (N.eqb_neq c d)) by done. by rewrite IH.
Qed.

Lemma splitOn_none d (name : jsstring) : d ∉ name -> splitOn d name = [name].
Proof.
  induction name as [|c name IH]; intros Hn; [done|].
  apply not_elem_of_cons in Hn as [Hc Hn]. cbn [splitOn].
  rewrite (proj2 (N.eqb_neq c d)) by done. by rewrite IH.
Qed.

(** X17: the skill command.  Without an argument the skills are listed.
    Otherwise the argument text is cut at its first blank: what comes
    before is the name of the skill, and what comes after is handed
    over, blanks and all, between one pair of double quotes; with no
    blank, or nothing after it, the name goes alone.  Each time exactly
    one command line is started. *)
Theorem skill_command_line (w : World) (sessionKey : jsstring) (st : State w) :
  (callHandler w HSkill [] sessionKey st).2
  = started w (lit "clawdbot skill list") st
  /\ (forall name input,
        32 ∉ name -> input <> [] ->
        (callHandler w HSkill (name ++ 32 :: input) sessionKey st).2
        = started w (lit "clawdbot skill run " ++ name ++ lit " "
                       ++ dquote ++ input ++ dquote) st)
  /\ (forall name,
        32 ∉ name -> name <> [] ->
        (callHandler w HSkill name sessionKey st).2
        = started w (lit "clawdbot skill run " ++ name) st
        /\ (callHandler w HSkill (name ++ [32]) sessionKey st).2
           = started w (lit "clawdbot skill run " ++ name) st).
Proof.
  unfold started, callHandler, skillHandler.
  replace (lit " ") with [32] by by vm_compute.
  split; [cbn [truthy negb]; by rewrite runCli_state|].
  split.
  - intros name input Hn Hi.
    assert (Ha : truthy (name ++ 32 :: input) = true) by by destruct name.
    rewrite Ha, splitOn_first by done. cbn [negb hd tl].
    rewrite join_splitOn, runCli_state. by destruct input.
  - intros name Hn Hne. split.
    + assert (Ha : truthy name = true) by by destruct name.
      rewrite Ha, splitOn_none by done. cbn [negb hd tl join truthy].
      by rewrite runCli_state, app_nil_r.
    + assert (Ha : truthy (name ++ [32]) = true) by by destruct name.
      rewrite Ha, splitOn_first by done. cbn [negb hd tl splitOn join truthy].
      by rewrite runCli_state, app_nil_r.
Qed.

(** ** The table and the texts that list it *)

(** X18: every entry of the table can be reached and does something.
    Its key is a command that the parser returns unchanged, with no
    argument text, so the key typed as a message finds the entry; and
    the entry has either a handler or a command line that runs
    [clawdbot], never both and never neither, so the answer for an entry
    that is not implemented is not given for any entry of the table. *)
Theorem COMMANDS_invocable :
  map_Forall
    (fun cmd info =>
       isCommand cmd = true
       /\ parseCommand cmd = mkParsed cmd []
       /\ ((exists h, handler info = Some h /\ cli info = None)
           \/ (exists c, cli info = Some c /\ handler info = None
                         /\ startsWith (lit "clawdbot ") c = true)))
    COMMANDS.
Proof.
  intros cmd info H. unfold COMMANDS in H. apply elem_of_list_to_map_2 in H.
  repeat (apply elem_of_cons in H as [H|H]);
    try (injection H as -> ->;
         split; [by vm_compute|]; split; [by vm_compute|];
         first [ left; eexists; split; reflexivity
               | right; eexists; split; [reflexivity|];
                 split; [reflexivity|by vm_compute] ]).
  by apply elem_of_nil in H.
Qed.

(** X19: the help text and the command list name registered commands
    only.  Every line of either text that reads as a command, once the
    indentation is dropped, starts with a command of the table; and
    every command of the four categories is in the table, so the list
    skips none of them. *)
Theorem listed_commands_registered :
  Forall (fun line =>
            isCommand line = true ->
            is_Some (COMMANDS !! command (parseCommand line)))
    (textLines getHelpText ++ textLines getCommandList)
  /\ Forall (fun entry =>
               Forall (fun cmd =>
                         exists info,
                           COMMANDS !! cmd = Some info
                           /\ (lit "  " ++ cmd ++ lit " - " ++ description info)
                              ∈ textLines getCommandList)
                 entry.2)
       categories.
Proof.
  split.
  - assert (H : forallb
                  (fun line =>
                     implb (isCommand line)
                       (bool_decide
                          (is_Some (COMMANDS !! command (parseCommand line)))))
                  (textLines getHelpText ++ textLines getCommandList) = true)
      by (vm_compute; reflexivity).
    apply Forall_forall. intros line Hin Hc.
    rewrite forallb_forall in H. apply list_elem_of_In, H in Hin.
    rewrite Hc in Hin. by apply bool_decide_eq_true in Hin.
  - assert (H : forallb
                  (fun entry : jsstring * list jsstring =>
                     forallb
                       (fun cmd =>
                          match COMMANDS !! cmd with
                          | Some info =>
                              bool_decide
                                ((lit "  " ++ cmd ++ lit " - "
                                    ++ description info)
                                 ∈ textLines getCommandList)
                          | None => false
                          end)
                       entry.2)
                  categories = true)
      by (vm_compute; reflexivity).
    apply Forall_forall. intros entry Hin.
    rewrite forallb_forall in H. apply list_elem_of_In, H in Hin.
    apply Forall_forall. intros cmd Hcmd.
    rewrite forallb_forall in Hin. apply list_elem_of_In, Hin in Hcmd.
    destruct (COMMANDS !! cmd) as [info|]; [|done].
    exists info. split; [done|]. by apply bool_decide_eq_true in Hcmd.
Qed.

(** ** When a message goes on to the chat *)

Lemma computeResponse_registered (w : World) cmd info a sessionKey
    (st st' : State w) early :
  COMMANDS !! cmd = Some info ->
  computeResponse w cmd a sessionKey st <> (Ret (inl early), st').
Proof.
  intros Hc. unfold computeResponse. rewrite Hc.
  destruct (handler info) as [h|]; [|destruct (cli info) as [c|]];
    comp_simpl.
  - by destruct (callHandler w h a sessionKey st) as [[out|e] st1].
  - by destruct (runCli w _ st) as [[out|e] st1].
  - done.
Qed.

(** X20: when [handleCommand] reports a message as not handled, which
    is exactly when the delivery paths find no answer in its result and
    pass the message on to the chat.  That happens in three cases only:
    the message is no command; its command is [/pair]; or the command
    is not in the table and the command line it was forwarded to
    failed, without output, with an error whose message holds one of
    the three texts that mark an unknown command.  A command of the
    table is always reported as handled, whatever its command line
    does. *)
Theorem not_handled_cases (w : World) (msg sessionKey : jsstring)
    (st : State w) :
  exists r st',
    handleCommand w msg sessionKey st = (Ret r, st')
    /\ (answered r = None <-> handled r = false)
    /\ (handled r = false <->
        isCommand msg = false
        \/ command (parseCommand msg) = lit "/pair"
        \/ (COMMANDS !! command (parseCommand msg) = None
            /\ exists e,
                (runCli w (forwardedCommand (command (parseCommand msg))
                             (args (parseCommand msg))) st).1 = Throw e
                /\ isUnknownCommandError e = true)).
Proof.
  destruct (handleCommand_answered w msg sessionKey st)
    as (r & st' & Hr & Hyes & Hno).
  exists r, st'. split; [exact Hr|]. split.
  { destruct (handled r).
    - destruct (Hyes eq_refl) as (s & _ & _ & ->). by split.
    - by destruct (Hno eq_refl) as [_ ->]. }
  clear Hyes Hno. revert Hr. rewrite handleCommand_unfold.
  destruct (isCommand msg); cbn [negb];
    [|intros [= <- _]; split; [by left|done]].
  case_bool_decide as Hp; [intros [= <- _]; split; [by right; left|done]|].
  destruct (COMMANDS !! command (parseCommand msg)) as [info|] eqn:Hc.
  - pose proof (fun st' early =>
                  computeResponse_registered w _ info
                    (args (parseCommand msg)) sessionKey st st' early Hc)
      as Hreg.
    destruct (computeResponse w _ _ sessionKey st) as [[[early|out]|e] st1];
      [by destruct (Hreg st1 early)| |];
      intros [= <- _]; (split; [done|]); by intros [?|[?|[? _]]].
  - rewrite (computeResponse_unknown w _ _ _ _ Hc).
    destruct (runCli w _ st) as [[out|e] st1] eqn:Hrun; cbn [fst].
    + intros [= <- _]. split; [done|]. by intros [?|[?|[_ (e & ? & _)]]].
    + destruct (isUnknownCommandError e) eqn:He; intros [= <- _].
      * split; [|done]. intros _. right; right. split; [done|]. by exists e.
      * split; [done|].
        intros [?|[?|[_ (e' & [= <-] & He')]]]; [done|done|].
        by rewrite He in He'.
Qed.

(** ** Evaluations *)

Example isCommand_examples :
  isCommand (lit "hello") = false /\ isCommand (lit "  /help") = true.
Proof. by vm_compute. Qed.

Example lit_examples :
  lit "/pair" = [47; 112; 97; 105; 114]
  /\ lit "🦞 명" = [55358; 56734; 32; 47749].
Proof. by vm_compute. Qed.

Example splitSpaces_example :
  splitSpaces (lit "/pair  abc  Jane Doe ")
  = [lit "/pair"; lit "abc"; lit "Jane"; lit "Doe"; []].
Proof. by vm_compute. Qed.

Example stripAnsi_example :
  stripAnsi ([27; 91; 51; 49; 109] ++ lit "ok" ++ [27; 91; 48; 109])
  = lit "ok".
Proof. by vm_compute. Qed.

Example extractDirectives_stacked :
  extractDirectives (lit "/think high /verbose on go")
  = mkExtracted [lit "/think high"; lit "/verbose on"] (lit "go").
Proof. by vm_compute. Qed.

(** [/status] runs the status command line; what it prints, without the
    escape sequences, is the response. *)
Example status_scenario :
  handleCommand
    (sampleWorld (ExecOk ([27; 91; 51; 50; 109] ++ lit "running" ++ nl) [])
       true gatewayDown)
    (lit "/status") (lit "user")
    (sampleState (ExecOk ([27; 91; 51; 50; 109] ++ lit "running" ++ nl) [])
       true gatewayDown)
  = (Ret (mkResult true (Some (lit "running")) None None),
     @mkState
       (sampleWorld (ExecOk ([27; 91; 51; 50; 109] ++ lit "running" ++ nl) [])
          true gatewayDown)
       tt [EvExec (lit "clawdbot status")]).
Proof. by vm_compute. Qed.

(** [/clear] clears the history of the session and confirms. *)
Example clear_scenario :
  handleCommand (sampleWorld notRecognized true gatewayDown)
    (lit "/clear") (lit "user")
    (sampleState notRecognized true gatewayDown)
  = (Ret (mkResult true (Some (lit "✅ 대화 기록이 초기화되었습니다.")) None None),
     @mkState (sampleWorld notRecognized true gatewayDown) tt
       [EvClearHistory (lit "user")]).
Proof. by vm_compute. Qed.

(** [toLowerCase] outside ASCII: accented capitals, the capital sigma
    within and at the end of a word, the Kelvin sign and U+0130, and a
    capital above the basic plane. *)
Example toLowerCase_examples :
  toLowerCase (lit "ÀB ÉCHO") = lit "àb écho"
  /\ toLowerCase (lit "ΟΔΟΣ ΣΑΣ") = lit "οδος σας"
  /\ toLowerCase [KELVIN; 304] = [107; 105; 775]
  /\ toLowerCase (lit "𐐀") = lit "𐐨".
Proof. by vm_compute. Qed.

(** A token that is no word is lower-cased as a whole, and an unknown
    command is forwarded in that form. *)
Example accents_scenario :
  parseCommand (lit "/ÀB") = mkParsed (lit "/àb") []
  /\ handleCommand (sampleWorld notRecognized true gatewayDown)
       (lit "/ÉCHO hi") (lit "user")
       (sampleState notRecognized true gatewayDown)
     = (Ret notHandled,
        @mkState (sampleWorld notRecognized true gatewayDown) tt
          [EvExec (lit "clawdbot écho hi")]).
Proof. by vm_compute. Qed.
